(** * The agent orchestration engine of ramp-agent, embedded in Rocq

    The development follows the Python sources:

    - [backend/agents/base.py]      the agent executor ([BaseAgent]);
    - [backend/agents/verifier.py]  the verifier's command filter;
    - [backend/agents/implementer.py], [backend/tools/filesystem.py]
                                    the file tools;
    - [backend/tools/shell.py], [backend/agents/agent.py]
                                    the command tool and the tools of the
                                    orchestrator agent that act by themselves;
    - [backend/sandbox/local.py]    the local sandbox over [pathlib];
    - [backend/events.py]           the event bus;
    - [backend/orchestrator.py]     the session/run controller.

    Conventions.  A Python [str] is the Rocq [string] of its UTF-8 bytes, so
    that [bytes] and [str] share one carrier and [encode]/[decode] are a
    validity check; lengths and slices of a [str] count code points, that is
    bytes that are not continuation bytes.  White space is that of Python on
    a [str], in its UTF-8 form; the case mapping of [str.lower] and the
    [json] module are parameters.  A coroutine is a function in the state and
    exception monad [M]: an [await] is a call, and whatever other tasks do
    while the caller is suspended is part of the callee's effect on the
    state. *)

From Stdlib Require Import ZArith Ascii String List Bool Lia.
From stdpp Require Import base option gmap strings list.

Set Warnings "-register-all,-abstract-large-number".

Open Scope string_scope.
Open Scope list_scope.
Open Scope nat_scope.

(** ** Python exceptions *)

Module Py.

Inductive exn_class : Set :=
| PermissionError | FileNotFoundError | IsADirectoryError | NotADirectoryError
| FileExistsError | UnicodeDecodeError | ValueError | TypeError | AttributeError
| RuntimeError | TimeoutError | NoResultFound
| CancelledError | KeyboardInterrupt.

Record exn : Set := Raise { exn_cls : exn_class; exn_str : string }.

(** [except Exception] catches everything but the direct children of
    [BaseException]; [asyncio.CancelledError] is one of those. *)
Definition is_Exception (e : exn) : bool :=
  match exn_cls e with
  | CancelledError | KeyboardInterrupt => false
  | _ => true
  end.

Definition is_OSError (e : exn) : bool :=
  match exn_cls e with
  | PermissionError | FileNotFoundError | IsADirectoryError
  | NotADirectoryError | FileExistsError | TimeoutError => true
  | _ => false
  end.

Definition exn_class_eqb (a b : exn_class) : bool :=
  match a, b with
  | PermissionError, PermissionError | FileNotFoundError, FileNotFoundError
  | IsADirectoryError, IsADirectoryError | NotADirectoryError, NotADirectoryError
  | FileExistsError, FileExistsError | UnicodeDecodeError, UnicodeDecodeError
  | ValueError, ValueError | TypeError, TypeError | AttributeError, AttributeError
  | RuntimeError, RuntimeError | TimeoutError, TimeoutError
  | NoResultFound, NoResultFound
  | CancelledError, CancelledError | KeyboardInterrupt, KeyboardInterrupt => true
  | _, _ => false
  end.

(** ** The monad of coroutines: state [S], result or raised exception *)

Definition M (S A : Type) : Type := S -> (exn + A) * S.

Definition ret {S A} (x : A) : M S A := fun s => (inr x, s).
Definition raise {S A} (e : exn) : M S A := fun s => (inl e, s).
Definition bind {S A B} (m : M S A) (k : A -> M S B) : M S B :=
  fun s => match m s with
           | (inr x, s') => k x s'
           | (inl e, s') => (inl e, s')
           end.
Definition get {S} : M S S := fun s => (inr s, s).
Definition gets {S A} (f : S -> A) : M S A := fun s => (inr (f s), s).
Definition modify {S} (f : S -> S) : M S unit := fun s => (inr tt, f s).

(** [try: m  except <sel> as e: h e]; what [m] did to the state before it
    raised stays done. *)
Definition try_except {S A} (m : M S A) (sel : exn -> bool) (h : exn -> M S A)
  : M S A :=
  fun s => match m s with
           | (inl e, s') => if sel e then h e s' else (inl e, s')
           | r => r
           end.

(** [try: m] followed by several [except] clauses: the first clause that
    selects the exception handles it, and what a handler raises is not
    offered to the clauses after it. *)
Definition try_excepts {S A} (m : M S A) (clauses : list ((exn -> bool) * (exn -> M S A)))
  : M S A :=
  fun s => match m s with
           | (inl e, s') =>
               (fix pick (cs : list ((exn -> bool) * (exn -> M S A))) :=
                  match cs with
                  | [] => (inl e, s')
                  | (sel, h) :: cs' => if sel e then h e s' else pick cs'
                  end) clauses
           | r => r
           end.

(** [try: m  finally: f] *)
Definition try_finally {S A} (m : M S A) (f : M S unit) : M S A :=
  fun s => match m s with
           | (r, s') => match f s' with
                        | (inr _, s'') => (r, s'')
                        | (inl e, s'') => (inl e, s'')
                        end
           end.

(** Run a computation on a component of the state. *)
Definition zoom {S T A} (proj : S -> T) (upd : T -> S -> S) (m : M T A) : M S A :=
  fun s => match m (proj s) with (r, t') => (r, upd t' s) end.

End Py.

Import Py.

Notation "x <- c1 ;; c2" := (bind c1 (fun x => c2))
  (at level 100, c1 at next level, right associativity).
Notation "c1 ;; c2" := (bind c1 (fun _ => c2))
  (at level 100, right associativity).

(** ** Python strings *)

Module Str.

Definition ord (c : ascii) : nat := nat_of_ascii c.

(** A continuation byte [10xxxxxx] belongs to the code point begun before it. *)
Definition is_cont (c : ascii) : bool := (128 <=? ord c) && (ord c <? 192).

(** [len(s)] *)
Fixpoint len (s : string) : nat :=
  match s with
  | EmptyString => 0
  | String c s' => if is_cont c then len s' else S (len s')
  end.

(** [s[:n]] for [n >= 0] *)
Fixpoint upto (n : N) (s : string) : string :=
  match s with
  | EmptyString => EmptyString
  | String c s' =>
      if is_cont c then String c (upto n s')
      else if (n =? 0)%N then EmptyString
      else String c (upto (N.pred n) s')
  end.

(** The white space of Python, as [str.isspace], [str.strip] and the class
    [\s] of [re] on a [str] know it: U+0009 to U+000D, U+001C to U+0020,
    U+0085, U+00A0, U+1680, U+2000 to U+200A, U+2028, U+2029, U+202F, U+205F
    and U+3000.  The characters below U+0080 are one byte each. *)
Definition space_byte (c : ascii) : bool :=
  let n := ord c in ((9 <=? n) && (n <=? 13)) || ((28 <=? n) && (n <=? 32)).

(** The others take two or three bytes in UTF-8: [C2 85], [C2 A0];
    [E1 9A 80]; [E2 80 80] to [E2 80 8A], [E2 80 A8], [E2 80 A9], [E2 80 AF],
    [E2 81 9F]; [E3 80 80]. *)
Definition space_two (c c1 : ascii) : bool :=
  (ord c =? 194) && ((ord c1 =? 133) || (ord c1 =? 160)).

Definition space_three (c c1 c2 : ascii) : bool :=
  ((ord c =? 225) && (ord c1 =? 154) && (ord c2 =? 128)) ||
  ((ord c =? 226) && (ord c1 =? 128) &&
   (((128 <=? ord c2) && (ord c2 <=? 138)) || (ord c2 =? 168) || (ord c2 =? 169)
    || (ord c2 =? 175))) ||
  ((ord c =? 226) && (ord c1 =? 129) && (ord c2 =? 159)) ||
  ((ord c =? 227) && (ord c1 =? 128) && (ord c2 =? 128)).

(** What follows the white-space character that [s] begins with; [None]
    when [s] begins with no such character. *)
Definition space_prefix (s : string) : option string :=
  match s with
  | String c s1 =>
      if space_byte c then Some s1
      else match s1 with
           | String c1 s2 =>
               if space_two c c1 then Some s2
               else match s2 with
                    | String c2 s3 => if space_three c c1 c2 then Some s3 else None
                    | EmptyString => None
                    end
           | EmptyString => None
           end
  | EmptyString => None
  end.

(** [s.isspace()] for a string of one character *)
Definition isspace (s : string) : bool :=
  match space_prefix s with Some EmptyString => true | _ => false end.

(** [s.lstrip()] *)
Fixpoint lstrip (s : string) : string :=
  match s with
  | String c s1 =>
      if space_byte c then lstrip s1
      else match s1 with
           | String c1 s2 =>
               if space_two c c1 then lstrip s2
               else match s2 with
                    | String c2 s3 => if space_three c c1 c2 then lstrip s3 else s
                    | EmptyString => s
                    end
           | EmptyString => s
           end
  | EmptyString => EmptyString
  end.

(** [s.rstrip()]: what is white space to its end is dropped. *)
Fixpoint rstrip (s : string) : string :=
  match s with
  | EmptyString => EmptyString
  | String c s' =>
      match lstrip s with
      | EmptyString => EmptyString
      | _ => String c (rstrip s')
      end
  end.

(** [s.strip()] *)
Definition strip (s : string) : string := rstrip (lstrip s).

(** [sep.join(parts)] *)
Fixpoint join (sep : string) (parts : list string) : string :=
  match parts with
  | [] => ""
  | [p] => p
  | p :: ps => p +:+ sep +:+ join sep ps
  end.

(** [s.index(sub, start)], as an offset in bytes; [None] is [ValueError]. *)
Definition index_from (sub : string) (start : nat) (s : string) : option nat :=
  String.index start sub s.

(** [sub in s] *)
Definition contains (sub s : string) : bool :=
  match index_from sub 0 s with Some _ => true | None => false end.

(** [s[a:b]] for byte offsets [a <= b] found by [index_from] *)
Definition between (a b : nat) (s : string) : string := String.substring a (b - a) s.

(** [s.split(sep)] for a one-character separator *)
Fixpoint split_on (sep : ascii) (s : string) : list string :=
  match s with
  | EmptyString => [""]
  | String c s' =>
      if Ascii.eqb c sep then "" :: split_on sep s'
      else match split_on sep s' with
           | p :: ps => String c p :: ps
           | [] => [String c ""]
           end
  end.

Definition startswith (p s : string) : bool := String.prefix p s.

(** [c in s] for one character *)
Fixpoint has_char (c : ascii) (s : string) : bool :=
  match s with
  | EmptyString => false
  | String c' s' => Ascii.eqb c c' || has_char c s'
  end.

(** [s.replace(old, new)] for a non-empty [old] *)
Fixpoint replace_aux (fuel : nat) (old new s : string) : string :=
  match fuel with
  | 0 => s
  | S fuel' =>
      match String.index 0 old s with
      | Some i =>
          String.substring 0 i s +:+ new +:+
          replace_aux fuel' old new
            (String.substring (i + String.length old)
                              (String.length s - (i + String.length old)) s)
      | None => s
      end
  end.

Definition replace (old new s : string) : string :=
  replace_aux (String.length s) old new s.

(** Decimal form of an integer, as [str(n)] and the [{n}] of an f-string. *)
Definition digit (n : nat) : ascii := ascii_of_nat (48 + n).

Fixpoint of_nat_aux (fuel n : nat) (acc : string) : string :=
  match fuel with
  | 0 => acc
  | S fuel' =>
      let acc' := String (digit (n mod 10)) acc in
      if n / 10 =? 0 then acc' else of_nat_aux fuel' (n / 10) acc'
  end.

Definition of_nat (n : nat) : string := of_nat_aux (S n) n "".

Definition of_Z (z : Z) : string :=
  if (z <? 0)%Z then "-" +:+ of_nat (Z.to_nat (- z)) else of_nat (Z.to_nat z).

End Str.

(** ** Python values

    Tool inputs and results, agent results and event payloads are plain
    Python data: [None], booleans, integers, strings, lists and dicts.  A
    dict keeps its keys in insertion order. *)

Inductive json : Type :=
| JNone
| JBool (b : bool)
| JInt (z : Z)
| JStr (s : string)
| JList (l : list json)
| JDict (kv : list (string * json)).

Module Dict.

(** [d.get(k)] *)
Fixpoint get (k : string) (kv : list (string * json)) : option json :=
  match kv with
  | [] => None
  | (k', v) :: kv' => if String.eqb k k' then Some v else get k kv'
  end.

(** [d[k] = v] *)
Fixpoint set (k : string) (v : json) (kv : list (string * json)) : list (string * json) :=
  match kv with
  | [] => [(k, v)]
  | (k', v') :: kv' => if String.eqb k k' then (k, v) :: kv' else (k', v') :: set k v kv'
  end.

(** [d.update(other)] *)
Definition update (other kv : list (string * json)) : list (string * json) :=
  fold_left (fun acc p => set (fst p) (snd p) acc) other kv.

End Dict.

(** [bool(v)], the truth value used by [if v:] and [a or b] *)
Definition truthy (v : json) : bool :=
  match v with
  | JNone => false
  | JBool b => b
  | JInt z => negb (z =? 0)%Z
  | JStr s => negb (String.eqb s "")
  | JList l => match l with [] => false | _ => true end
  | JDict kv => match kv with [] => false | _ => true end
  end.

(** [type(v).__name__] *)
Definition type_name (v : json) : string :=
  match v with
  | JNone => "NoneType"
  | JBool _ => "bool"
  | JInt _ => "int"
  | JStr _ => "str"
  | JList _ => "list"
  | JDict _ => "dict"
  end.

(** [v.get(k)] on a value that should be a dict *)
Definition json_get (v : json) (k : string) : exn + json :=
  match v with
  | JDict kv => inr (default JNone (Dict.get k kv))
  | _ => inl (Raise AttributeError
                ("'" +:+ type_name v +:+ "' object has no attribute 'get'"))
  end.

(** [str.lower]: the case mapping is that of the Unicode database, a
    parameter of the model as the [json] module is. *)
Class Unicode : Type := { str_lower : string -> string }.

(** The standard [json] module; [json_loads] is [None] on [JSONDecodeError]. *)
Class JsonModule : Type := {
  json_dumps : json -> string;
  json_loads : string -> option json
}.

(** [datetime.now(timezone.utc)], read off the world *)
Class Clock (W : Type) : Type := { now : W -> Z; isoformat : Z -> string }.

Definition nl : string := String (ascii_of_nat 10) "".
Definition cr : string := String (ascii_of_nat 13) "".

(** * The agent executor ([backend/agents/base.py]) *)

Module Agent.

(** The decision-maker's protocol: a response is a list of content blocks. *)
Inductive ContentBlock : Type :=
| TextBlock (text : string)
| ToolUseBlock (id name : string) (input : json)
| OtherBlock (type : string).

Definition block_type (b : ContentBlock) : string :=
  match b with
  | TextBlock _ => "text"
  | ToolUseBlock _ _ _ => "tool_use"
  | OtherBlock t => t
  end.

Record Response : Type := { content : list ContentBlock }.

(** The [content] of a history turn is a string or a list; the list holds
    dicts (tool results, follow-up text) or the blocks of a response. *)
Inductive Part : Type :=
| Entry (d : json)
| Block (b : ContentBlock).

Inductive Content : Type :=
| CStr (s : string)
| CList (l : list Part).

Record Message : Type := { msg_role : string; msg_content : Content }.

Record Kwargs : Type := {
  kw_model : string;
  kw_max_tokens : Z;
  kw_system : string;
  kw_messages : list Message;
  kw_tools : option (list json)
}.

(** The fields of an agent that code other than [_loop] writes: [mark_done]
    from the [complete] tool's handler, [interrupt] from the controller. *)
Record Flags : Type := { _done : bool; _result : json; _interrupted : bool }.

Record AgentEvent : Type := {
  ev_role : string;
  ev_type : string;
  ev_data : json;
  ev_timestamp : Z
}.

Record AgentOutput : Type := {
  out_role : string;
  out_result : json;
  out_events : list AgentEvent
}.

Section Executor.

(** [W] is everything outside the agent object: the sandbox, the durable
    store, the subscribers, the clock. *)
Context {W : Type} `{!Clock W} `{!JsonModule}.

(** What the loop awaits: a coroutine that sees the agent's flags and the
    world. *)
Definition Task (A : Type) : Type := M (Flags * W) A.

Record ToolDef : Type := {
  name : string;
  description : string;
  input_schema : json;
  handler : json -> Task json
}.

Record BaseAgent : Type := {
  role : string;
  system_prompt : string;
  max_iterations : nat;
  model : string;
  tools : list ToolDef;
  _events : list AgentEvent;
  _event_callback : option (AgentEvent -> W -> W);
  _client : Kwargs -> Task Response;
  _messages : list Message;
  flags : Flags
}.

Definition with_events (a : BaseAgent) (evs : list AgentEvent) : BaseAgent :=
  {| role := role a; system_prompt := system_prompt a;
     max_iterations := max_iterations a; model := model a; tools := tools a;
     _events := evs; _event_callback := _event_callback a;
     _client := _client a; _messages := _messages a; flags := flags a |}.

Definition with_messages (a : BaseAgent) (ms : list Message) : BaseAgent :=
  {| role := role a; system_prompt := system_prompt a;
     max_iterations := max_iterations a; model := model a; tools := tools a;
     _events := _events a; _event_callback := _event_callback a;
     _client := _client a; _messages := ms; flags := flags a |}.

Definition with_flags (a : BaseAgent) (f : Flags) : BaseAgent :=
  {| role := role a; system_prompt := system_prompt a;
     max_iterations := max_iterations a; model := model a; tools := tools a;
     _events := _events a; _event_callback := _event_callback a;
     _client := _client a; _messages := _messages a; flags := f |}.

Definition with_callback (a : BaseAgent) (cb : option (AgentEvent -> W -> W)) : BaseAgent :=
  {| role := role a; system_prompt := system_prompt a;
     max_iterations := max_iterations a; model := model a; tools := tools a;
     _events := _events a; _event_callback := cb;
     _client := _client a; _messages := _messages a; flags := flags a |}.

Definition set_done (b : bool) (f : Flags) : Flags :=
  {| _done := b; _result := _result f; _interrupted := _interrupted f |}.

Definition set_result (r : json) (f : Flags) : Flags :=
  {| _done := _done f; _result := r; _interrupted := _interrupted f |}.

Definition set_interrupted (b : bool) (f : Flags) : Flags :=
  {| _done := _done f; _result := _result f; _interrupted := b |}.

(** [BaseAgent(tools)] with the class attributes as defaults *)
Definition __init__ (client : Kwargs -> Task Response) (tools0 : list ToolDef) : BaseAgent :=
  {| role := "agent"; system_prompt := ""; max_iterations := 50;
     model := "claude-sonnet-4-20250514"; tools := tools0;
     _events := []; _event_callback := None; _client := client;
     _messages := [];
     flags := {| _done := false; _result := JDict []; _interrupted := false |} |}.

(** A method of the agent runs on the agent object and the world. *)
Definition Method (A : Type) : Type := M (BaseAgent * W) A.

Definition self : Method BaseAgent := gets fst.
Definition update (f : BaseAgent -> BaseAgent) : Method unit :=
  modify (fun s => (f (fst s), snd s)).

(** [await t] *)
Definition await {A} (t : Task A) : Method A :=
  zoom (fun s => (flags (fst s), snd s))
       (fun t' s => (with_flags (fst s) (fst t'), snd t')) t.

Definition on_event (cb : AgentEvent -> W -> W) : Method unit :=
  update (fun a => with_callback a (Some cb)).

Definition _emit (type_ : string) (data : json) : Method AgentEvent :=
  fun s =>
    let (a, w) := s in
    let event := {| ev_role := role a; ev_type := type_; ev_data := data;
                    ev_timestamp := now w |} in
    let a' := with_events a (_events a ++ [event]) in
    let w' := match _event_callback a with
              | Some cb => cb event w
              | None => w
              end in
    (inr event, (a', w')).

Definition _build_tools_schema (a : BaseAgent) : list json :=
  map (fun t => JDict [("name", JStr (name t));
                       ("description", JStr (description t));
                       ("input_schema", input_schema t)])
      (tools a).

Fixpoint find_tool_in (ts : list ToolDef) (n : string) : option ToolDef :=
  match ts with
  | [] => None
  | t :: ts' => if String.eqb (name t) n then Some t else find_tool_in ts' n
  end.

Definition _find_tool (a : BaseAgent) (n : string) : option ToolDef :=
  find_tool_in (tools a) n.

Definition _parse_output (text : string) : exn + json :=
  let plain :=
    match json_loads text with
    | Some v => inr v
    | None => inr (JDict [("summary", JStr text)])
    end in
  match Str.index_from "```json" 0 text with
  | Some i =>
      let start := i + 7 in
      match Str.index_from "```" start text with
      | None => inl (Raise ValueError "substring not found")
      | Some end_ =>
          match json_loads (Str.strip (Str.between start end_ text)) with
          | Some v => inr v
          | None => plain
          end
      end
  | None => plain
  end.

Definition status (a : BaseAgent) (suffix : string) : json :=
  JDict [("status", JStr (role a +:+ suffix))].

Definition interrupted_result : json :=
  JDict [("status", JStr "interrupted"); ("summary", JStr "Run interrupted")].

Definition is_tool_use (b : ContentBlock) : bool :=
  String.eqb (block_type b) "tool_use".

Definition tool_result_entry (id : string) (tool_content : json) : json :=
  JDict [("type", JStr "tool_result"); ("tool_use_id", JStr id);
         ("content", tool_content)].

(** The [try]/[except Exception] around the handler call: the pair is
    [(result_str, tool_content)]. *)
Definition dispatch (t : ToolDef) (input : json) : Method (string * json) :=
  try_except
    (result <- await (handler t input) ;;
     match result with
     | JList _ => ret ("[Media Content Array]", result)
     | JStr s => ret (s, JStr s)
     | _ => let tool_content := json_dumps result in
            ret (tool_content, JStr tool_content)
     end)
    is_Exception
    (fun exc => let result_str := "Error: " +:+ exn_str exc in
                ret (result_str, JStr result_str)).

(** The body of [for block in response.content]; the accumulator is
    [(text_parts, tool_results)]. *)
Definition for_block (block : ContentBlock) (acc : list string * list json)
  : Method (list string * list json) :=
  match block with
  | TextBlock text =>
      _emit "agent_message" (JDict [("content", JStr text)]) ;;
      ret (fst acc ++ [text], snd acc)
  | ToolUseBlock id n input =>
      a <- self ;;
      let tool_def := _find_tool a n in
      _emit "tool_call" (JDict [("tool", JStr n); ("input", input); ("id", JStr id)]) ;;
      r <- match tool_def with
           | None =>
               let result_str := "Error: unknown tool '" +:+ n +:+ "'" in
               ret (result_str, JStr result_str)
           | Some t => dispatch t input
           end ;;
      let (result_str, tool_content) := r : string * json in
      _emit "tool_result" (JDict [("tool", JStr n); ("id", JStr id);
                                  ("result", JStr (Str.upto 5000 result_str))]) ;;
      ret (fst acc, snd acc ++ [tool_result_entry id tool_content])
  | OtherBlock _ => ret acc
  end.

Fixpoint for_blocks (blocks : list ContentBlock) (acc : list string * list json)
  : Method (list string * list json) :=
  match blocks with
  | [] => ret acc
  | b :: bs => acc' <- for_block b acc ;; for_blocks bs acc'
  end.

Definition output : Method AgentOutput :=
  a <- self ;;
  ret {| out_role := role a; out_result := _result (flags a);
         out_events := _events a |}.

(** The code after the [while]. *)
Definition after_while : Method AgentOutput :=
  a <- self ;;
  if _done (flags a) then
    _emit "status_change" (status a "_completed") ;;
    output
  else
    _emit "error"
      (JDict [("message",
               JStr ("Max iterations (" +:+ Str.of_nat (max_iterations a) +:+ ") reached"))]) ;;
    a' <- self ;;
    ret {| out_role := role a';
           out_result := JDict [("error", JStr "max_iterations_reached")];
           out_events := _events a' |}.

(** How one pass through the body of the [while] ends. *)
Inductive Step : Type :=
| Continue
| Break
| Return (out : AgentOutput).

(** [self._done = True; self._result = {...}; break] *)
Definition break_interrupted : Method Step :=
  update (fun a => with_flags a (set_result interrupted_result (set_done true (flags a)))) ;;
  ret Break.

(** The body of the [while]. *)
Definition body (tools_schema : list json) : Method Step :=
  a <- self ;;
  if _interrupted (flags a) then break_interrupted
  else
    let kwargs := {| kw_model := model a; kw_max_tokens := 16384;
                     kw_system := system_prompt a;
                     kw_messages := _messages a;
                     kw_tools := match tools_schema with
                                 | [] => None
                                 | _ => Some tools_schema
                                 end |} in
    response <- await (_client a kwargs) ;;
    a1 <- self ;;
    if _interrupted (flags a1) then break_interrupted
    else
      let has_tool_use := existsb is_tool_use (content response) in
      r <- for_blocks (content response) ([], []) ;;
      let (text_parts, tool_results) := r : list string * list json in
      if has_tool_use then
        update (fun a => with_messages a
                  (_messages a ++
                   [{| msg_role := "assistant";
                       msg_content := CList (map Block (content response)) |};
                    {| msg_role := "user";
                       msg_content := CList (map Entry tool_results) |}])) ;;
        ret Continue
      else
        let final_text := Str.join nl text_parts in
        a2 <- self ;;
        (if _done (flags a2) then ret tt
         else match _parse_output final_text with
              | inl e => raise e
              | inr v => update (fun a => with_flags a (set_result v (flags a)))
              end) ;;
        a3 <- self ;;
        _emit "status_change" (status a3 "_completed") ;;
        out <- output ;;
        ret (Return out).

(** [while iterations < self.max_iterations and not self._done: ...] and
    what follows it; [n] is [max_iterations - iterations]. *)
Fixpoint while_ (tools_schema : list json) (n : nat) : Method AgentOutput :=
  match n with
  | 0 => after_while
  | S n' =>
      a <- self ;;
      if _done (flags a) then after_while
      else
        step <- body tools_schema ;;
        match step with
        | Continue => while_ tools_schema n'
        | Break => after_while
        | Return out => ret out
        end
  end.

Definition _loop : Method AgentOutput :=
  a <- self ;;
  while_ (_build_tools_schema a) (max_iterations a).

Definition run (context : json) : Method AgentOutput :=
  update (fun a => with_messages a
            [{| msg_role := "user"; msg_content := CStr (json_dumps context) |}]) ;;
  update (fun a => with_flags a (set_done false (flags a))) ;;
  a <- self ;;
  _emit "status_change" (status a "_started") ;;
  _loop.

(** The first part of [resume]: the follow-up message enters the history. *)
Definition append_user_message (user_message : string) (ms : list Message) : list Message :=
  match last ms with
  | Some m =>
      if String.eqb (msg_role m) "user" then
        match msg_content m with
        | CList l =>
            removelast ms ++
            [{| msg_role := msg_role m;
                msg_content :=
                  CList (l ++ [Entry (JDict [("type", JStr "text");
                                             ("text", JStr user_message)])]) |}]
        | CStr s =>
            removelast ms ++
            [{| msg_role := msg_role m;
                msg_content := CStr (s +:+ nl +:+ nl +:+ user_message) |}]
        end
      else ms ++ [{| msg_role := "user"; msg_content := CStr user_message |}]
  | None => ms ++ [{| msg_role := "user"; msg_content := CStr user_message |}]
  end.

Definition resume (user_message : string) : Method AgentOutput :=
  update (fun a => with_messages a (append_user_message user_message (_messages a))) ;;
  update (fun a => with_flags a (set_done false (flags a))) ;;
  update (fun a => with_events a []) ;;
  a <- self ;;
  _emit "status_change" (status a "_resumed") ;;
  _loop.

Definition mark_done (result : json) : Task string :=
  modify (fun s => (set_result result (set_done true (fst s)), snd s)) ;;
  ret "Session complete.".

(** [interrupt]; closing the model client has no effect on the model. *)
Definition interrupt : Task unit :=
  modify (fun s => (set_done true (set_interrupted true (fst s)), snd s)).

End Executor.

End Agent.

(** * Paths and files

    [pathlib] as the sandbox uses it.  A pure path is a root and a list of
    components; joining and [is_relative_to] are lexical: an empty or [.]
    component is dropped when a path is parsed, a [..] component is kept. *)

Module Pathlib.

Record Path : Type := { root : string; parts : list string }.

Definition keep_part (c : string) : bool :=
  negb (String.eqb c "" || String.eqb c ".").

(** [PurePosixPath(s)]: exactly two leading slashes are a root of their own. *)
Definition parse (s : string) : Path :=
  {| root := if Str.startswith "///" s then "/"
             else if Str.startswith "//" s then "//"
             else if Str.startswith "/" s then "/"
             else "";
     parts := List.filter keep_part (Str.split_on "/" s) |}.

(** [p / key]: an absolute [key] replaces [p]. *)
Definition joinpath (p : Path) (key : string) : Path :=
  let q := parse key in
  if String.eqb (root q) "" then {| root := root p; parts := parts p ++ parts q |}
  else q.

Fixpoint is_prefix (xs ys : list string) : bool :=
  match xs, ys with
  | [], _ => true
  | x :: xs', y :: ys' => String.eqb x y && is_prefix xs' ys'
  | _ :: _, [] => false
  end.

(** [p.is_relative_to(other)] *)
Definition is_relative_to (p other : Path) : bool :=
  String.eqb (root p) (root other) && is_prefix (parts other) (parts p).

(** [p.parent] *)
Definition parent (p : Path) : Path :=
  {| root := root p; parts := removelast (parts p) |}.

(** [str(p)] *)
Definition to_str (p : Path) : string :=
  match parts p with
  | [] => if String.eqb (root p) "" then "." else root p
  | ps => root p +:+ Str.join "/" ps
  end.

(** [p.relative_to(other)] *)
Definition relative_to (p other : Path) : exn + Path :=
  if is_relative_to p other
  then inr {| root := ""; parts := skipn (length (parts other)) (parts p) |}
  else inl (Raise ValueError
              ("'" +:+ to_str p +:+ "' is not in the subpath of '" +:+ to_str other +:+ "'")).

End Pathlib.

Import Pathlib.

(** The operating system under [pathlib]: a tree of directories and files,
    kept as a finite map from the canonical location (the components from
    the root) to the node there. *)

Module OS.

Inductive node : Type :=
| Dir
| File (data : string).

Record Popen : Type := { returncode : option Z; stdout : string; stderr : string }.

Record World : Type := {
  files : gmap (list string) node;
  cwd : list string;
  environ : list (string * string);
  spawned : list string;
  time : Z
}.

Definition with_files (w : World) (f : gmap (list string) node) : World :=
  {| files := f; cwd := cwd w; environ := environ w; spawned := spawned w;
     time := time w |}.

Definition with_spawned (w : World) (l : list string) : World :=
  {| files := files w; cwd := cwd w; environ := environ w; spawned := l;
     time := time w |}.

(** The errors of the file system of the model are those of a path that
    does not resolve, that is there already, or that names a directory or
    a file where the other is needed.  Names are taken to be legal ones (no
    NUL, no name longer than the file system allows); there are no
    permissions and no symbolic links. *)
Inductive errno : Set := ENOENT | ENOTDIR | EEXIST | EISDIR.

Definition oserror (e : errno) (p : Path) : exn :=
  match e with
  | ENOENT => Raise FileNotFoundError
                ("[Errno 2] No such file or directory: '" +:+ to_str p +:+ "'")
  | ENOTDIR => Raise NotADirectoryError
                 ("[Errno 20] Not a directory: '" +:+ to_str p +:+ "'")
  | EEXIST => Raise FileExistsError
                ("[Errno 17] File exists: '" +:+ to_str p +:+ "'")
  | EISDIR => Raise IsADirectoryError
                ("[Errno 21] Is a directory: '" +:+ to_str p +:+ "'")
  end.

(** The root directory is always there. *)
Definition node_at (f : gmap (list string) node) (c : list string) : option node :=
  match c with
  | [] => Some Dir
  | _ => f !! c
  end.

(** Path resolution by the kernel: every component but the last is looked
    up in a directory that exists; [..] goes to the parent. *)
Fixpoint walk (f : gmap (list string) node) (cur : list string) (ps : list string)
  : errno + list string :=
  match ps with
  | [] => inr cur
  | p :: ps' =>
      match node_at f cur with
      | Some Dir => walk f (if String.eqb p ".." then removelast cur else cur ++ [p]) ps'
      | Some (File _) => inl ENOTDIR
      | None => inl ENOENT
      end
  end.

Definition locate (w : World) (p : Path) : errno + list string :=
  walk (files w) (if String.eqb (root p) "" then cwd w else []) (parts p).

(** [os.stat] *)
Definition stat (w : World) (p : Path) : errno + node :=
  match locate w p with
  | inl e => inl e
  | inr c => match node_at (files w) c with
             | Some n => inr n
             | None => inl ENOENT
             end
  end.

(** [p.exists()] *)
Definition exists_ (w : World) (p : Path) : bool :=
  match stat w p with inr _ => true | inl _ => false end.

(** [p.is_dir()] *)
Definition is_dir (w : World) (p : Path) : bool :=
  match stat w p with inr Dir => true | _ => false end.

(** [p.stat().st_size] of a file *)
Definition st_size (w : World) (p : Path) : nat :=
  match stat w p with inr (File data) => String.length data | _ => 0 end.

(** Strict UTF-8: [k] continuation bytes are still due, the next one within
    [lo..hi]. *)
Fixpoint utf8_from (k lo hi : nat) (s : string) : bool :=
  match s with
  | EmptyString => k =? 0
  | String c s' =>
      let b := Str.ord c in
      match k with
      | 0 =>
          if b <? 128 then utf8_from 0 0 0 s'
          else if (194 <=? b) && (b <=? 223) then utf8_from 1 128 191 s'
          else if b =? 224 then utf8_from 2 160 191 s'
          else if b =? 237 then utf8_from 2 128 159 s'
          else if (225 <=? b) && (b <=? 239) then utf8_from 2 128 191 s'
          else if b =? 240 then utf8_from 3 144 191 s'
          else if b =? 244 then utf8_from 3 128 143 s'
          else if (241 <=? b) && (b <=? 243) then utf8_from 3 128 191 s'
          else false
      | S k' => (lo <=? b) && (b <=? hi) && utf8_from k' 128 191 s'
      end
  end.

Definition utf8_valid (s : string) : bool := utf8_from 0 0 0 s.

(** Reading in text mode with [newline=None]: [\r\n] and [\r] become [\n]. *)
Fixpoint universal_newlines (s : string) : string :=
  match s with
  | EmptyString => EmptyString
  | String c s' =>
      if Ascii.eqb c (ascii_of_nat 13) then
        String (ascii_of_nat 10)
          match s' with
          | String c' s'' =>
              if Ascii.eqb c' (ascii_of_nat 10) then universal_newlines s''
              else universal_newlines s'
          | EmptyString => EmptyString
          end
      else String c (universal_newlines s')
  end.

(** [p.read_text()], under a UTF-8 locale *)
Definition read_text (p : Path) : M World string :=
  w <- get ;;
  match locate w p with
  | inl e => raise (oserror e p)
  | inr c =>
      match node_at (files w) c with
      | None => raise (oserror ENOENT p)
      | Some Dir => raise (oserror EISDIR p)
      | Some (File data) =>
          if utf8_valid data then ret (universal_newlines data)
          else raise (Raise UnicodeDecodeError "'utf-8' codec can't decode byte")
      end
  end.

(** [p.write_text(data)]; on POSIX a written [\n] stays a [\n].  [data] is
    taken to be a [str] that can be encoded: a [str] with a lone surrogate,
    for which the call raises [UnicodeEncodeError], has no image among the
    strings of the model. *)
Definition write_text (p : Path) (data : string) : M World unit :=
  w <- get ;;
  match locate w p with
  | inl e => raise (oserror e p)
  | inr c =>
      match node_at (files w) c with
      | Some Dir => raise (oserror EISDIR p)
      | _ => modify (fun w => with_files w (<[c := File data]> (files w)))
      end
  end.

(** [os.mkdir(p)] *)
Definition os_mkdir (p : Path) : World -> errno + World :=
  fun w =>
    match locate w p with
    | inl e => inl e
    | inr c =>
        match node_at (files w) c with
        | Some _ => inl EEXIST
        | None => inr (with_files w (<[c := Dir]> (files w)))
        end
    end.

(** [p.mkdir(parents=False, exist_ok=True)] *)
Definition mkdir_exist_ok (p : Path) : M World unit :=
  fun w =>
    match os_mkdir p w with
    | inr w' => (inr tt, w')
    | inl ENOENT => (inl (oserror ENOENT p), w)
    | inl e => if is_dir w p then (inr tt, w) else (inl (oserror e p), w)
    end.

(** [p.mkdir(parents=True, exist_ok=True)], with [p] given by its root and
    its components in reverse: on [FileNotFoundError] the parent is made
    first, unless [p] is its own parent. *)
Fixpoint mkdir_parents (r : string) (rparts : list string) : M World unit :=
  fun w =>
    let p := {| root := r; parts := rev rparts |} in
    match os_mkdir p w with
    | inr w' => (inr tt, w')
    | inl ENOENT =>
        match rparts with
        | [] => (inl (oserror ENOENT p), w)
        | _ :: rparts' =>
            match mkdir_parents r rparts' w with
            | (inr _, w1) => mkdir_exist_ok p w1
            | (inl e, w1) => (inl e, w1)
            end
        end
    | inl e => if is_dir w p then (inr tt, w) else (inl (oserror e p), w)
    end.

Definition mkdir (p : Path) : M World unit := mkdir_parents (root p) (rev (parts p)).

(** [p.unlink()] *)
Definition unlink (p : Path) : M World unit :=
  w <- get ;;
  match locate w p with
  | inl e => raise (oserror e p)
  | inr c =>
      match node_at (files w) c with
      | None => raise (oserror ENOENT p)
      | Some Dir => raise (oserror EISDIR p)
      | Some (File _) => modify (fun w => with_files w (delete c (files w)))
      end
  end.

Fixpoint insert_sorted (x : string) (l : list string) : list string :=
  match l with
  | [] => [x]
  | y :: l' => if String.leb x y then x :: l else y :: insert_sorted x l'
  end.

(** Names, by code point; the order of UTF-8 bytes is the same. *)
Definition sort_names (l : list string) : list string :=
  fold_right insert_sorted [] l.

(** The names in the directory at [c]. *)
Definition children (f : gmap (list string) node) (c : list string) : list string :=
  omap (fun kv : list string * node =>
          match last (fst kv) with
          | Some n => if decide (removelast (fst kv) = c) then Some n else None
          | None => None
          end)
       (map_to_list f).

(** [sorted(p.iterdir())], as the sorted names of the entries of [p] *)
Definition sorted_iterdir (p : Path) : M World (list string) :=
  w <- get ;;
  match locate w p with
  | inl e => raise (oserror e p)
  | inr c =>
      match node_at (files w) c with
      | None => raise (oserror ENOENT p)
      | Some (File _) => raise (oserror ENOTDIR p)
      | Some Dir => ret (sort_names (children (files w) c))
      end
  end.

End OS.

(** * The sandbox ([backend/sandbox/provider.py], [backend/sandbox/local.py]) *)

Module Sandbox.

Record CommandResult : Type := { exit_code : Z; stdout : string; stderr : string }.

Record Sandbox : Type := { workspace : Path; _env : list (string * string) }.

(** The abstract base class: a provider acts on a world [W]. *)
Class SandboxProvider (W : Type) : Type := {
  create : string -> option string -> M W Sandbox;
  run_command : Sandbox -> string -> Z -> M W CommandResult;
  read_file : Sandbox -> string -> M W string;
  write_file : Sandbox -> string -> string -> M W unit;
  list_dir : Sandbox -> string -> M W (list string);
  destroy : Sandbox -> M W unit
}.

Section Local.

(** A child process, from start to the end of [communicate]: the argument
    vector, the working directory, the environment and the time allowed.
    [None] is [asyncio.TimeoutError]; the streams arrive decoded with
    [errors="replace"]. *)
Variable subprocess :
  list string -> option Path -> list (string * string) -> option Z ->
  OS.World -> option OS.Popen * OS.World.

(** [tempfile.mkdtemp(prefix="ramp_")]: the name of a directory that did
    not exist. *)
Variable mkdtemp : OS.World -> string.

Definition spawn (argv : list string) (dir : option Path)
    (env : list (string * string)) (timeout : option Z) : M OS.World (option OS.Popen) :=
  fun w =>
    let w1 := OS.with_spawned w (OS.spawned w ++ [Str.join " " argv]) in
    let (r, w2) := subprocess argv dir env timeout w1 in
    (inr r, w2).

(** [shutil.rmtree(p, ignore_errors=True)]: a directory goes with all that
    is under it; a path that does not resolve, that is not there or that
    names a file is an error, which is ignored. *)
Definition rmtree (p : Path) : M OS.World unit :=
  w <- get ;;
  match OS.locate w p with
  | inl _ => ret tt
  | inr c =>
      match OS.node_at (OS.files w) c with
      | Some OS.Dir =>
          modify (fun w => OS.with_files w
                    (filter (fun kv => is_prefix c (fst kv) = false) (OS.files w)))
      | _ => ret tt
      end
  end.

Definition local_create (repo_url : string) (github_token : option string)
  : M OS.World Sandbox :=
  w <- get ;;
  let workspace := parse (mkdtemp w) in
  modify (fun w => match OS.os_mkdir workspace w with inr w' => w' | inl _ => w end) ;;
  let clone_url :=
    match github_token with
    | Some token =>
        if negb (String.eqb token "") && Str.contains "github.com" repo_url
        then Str.replace "https://" ("https://x-access-token:" +:+ token +:+ "@") repo_url
        else repo_url
    | None => repo_url
    end in
  proc <- spawn ["git"; "clone"; "--depth"; "1"; clone_url;
                 to_str (joinpath workspace "repo")] None [] None ;;
  match proc with
  | Some p =>
      if negb (default 0%Z (OS.returncode p) =? 0)%Z then
        rmtree workspace ;;
        raise (Raise RuntimeError
                 ("git clone failed (exit " +:+ Str.of_Z (default 0%Z (OS.returncode p))
                  +:+ "): " +:+ OS.stderr p))
      else ret {| workspace := joinpath workspace "repo"; _env := [] |}
  | None => raise (Raise TimeoutError "")
  end.

Definition env_update (other env : list (string * string)) : list (string * string) :=
  fold_left (fun acc kv => (fst kv, snd kv) ::
                           List.filter (fun e => negb (String.eqb (fst e) (fst kv))) acc)
            other env.

Definition local_run_command (sandbox : Sandbox) (cmd : string) (timeout : Z)
  : M OS.World CommandResult :=
  w <- get ;;
  let env := match _env sandbox with
             | [] => OS.environ w
             | e => env_update e (OS.environ w)
             end in
  proc <- spawn ["/bin/sh"; "-c"; cmd] (Some (workspace sandbox)) env (Some timeout) ;;
  match proc with
  | Some p =>
      ret {| exit_code := default 0%Z (OS.returncode p);
             stdout := OS.stdout p; stderr := OS.stderr p |}
  | None =>
      ret {| exit_code := (-1)%Z; stdout := ""; stderr := "Command timed out" |}
  end.

Definition escapes (path : string) : exn :=
  Raise PermissionError ("Path escapes workspace: " +:+ path).

(** One line of a listing: the entry relative to the workspace, a directory
    with a trailing slash. *)
Definition entry_line (w : OS.World) (sandbox : Sandbox) (target : Path) (n : string)
  : string :=
  let e := {| root := root target; parts := parts target ++ [n] |} in
  let rel := match relative_to e (workspace sandbox) with
             | inr r => to_str r
             | inl _ => to_str e
             end in
  if OS.is_dir w e then rel +:+ "/" else rel.

Definition local_read_file (sandbox : Sandbox) (path : string) : M OS.World string :=
  let target := joinpath (workspace sandbox) path in
  if negb (is_relative_to target (workspace sandbox)) then raise (escapes path)
  else
    w <- get ;;
    if negb (OS.exists_ w target) then
      raise (Raise FileNotFoundError ("Not found: " +:+ path))
    else if OS.is_dir w target then
      names <- OS.sorted_iterdir target ;;
      let entries := map (entry_line w sandbox target) names in
      raise (Raise IsADirectoryError
               ("'" +:+ path +:+ "' is a directory. Contents:" +:+ nl
                +:+ Str.join nl (firstn 50 entries)))
    else
      try_except (OS.read_text target)
        (fun e => exn_class_eqb (exn_cls e) UnicodeDecodeError)
        (fun _ =>
           let size := OS.st_size w target in
           ret ("[binary file, " +:+ Str.of_nat size +:+ " bytes]")).

Definition local_write_file (sandbox : Sandbox) (path content : string)
  : M OS.World unit :=
  let target := joinpath (workspace sandbox) path in
  if negb (is_relative_to target (workspace sandbox)) then raise (escapes path)
  else
    OS.mkdir (parent target) ;;
    OS.write_text target content.

Definition local_list_dir (sandbox : Sandbox) (path : string)
  : M OS.World (list string) :=
  let target := joinpath (workspace sandbox) path in
  if negb (is_relative_to target (workspace sandbox)) then raise (escapes path)
  else
    names <- OS.sorted_iterdir target ;;
    w <- get ;;
    ret (map (entry_line w sandbox target) names).

Definition local_destroy (sandbox : Sandbox) : M OS.World unit :=
  let ws := workspace sandbox in
  let root_ := if String.eqb (default "" (last (parts ws))) "repo" then parent ws else ws in
  rmtree root_.

#[export] Instance LocalSandbox : SandboxProvider OS.World := {
  create := local_create;
  run_command := local_run_command;
  read_file := local_read_file;
  write_file := local_write_file;
  list_dir := local_list_dir;
  destroy := local_destroy
}.

End Local.

End Sandbox.

(** * Tool handlers *)

(** Calling a handler with the tool input as keyword arguments: the input
    must be a mapping, it may not name
    a parameter that the handler lacks, and every parameter without a
    default must be given.  The values come back in parameter order.  The
    texts of the [TypeError]s are those of Python without the name of the
    function, which Python puts first. *)
Module Call.

Fixpoint bind_params (params : list (string * option json)) (kv : list (string * json))
  : exn + list json :=
  match params with
  | [] => inr []
  | (p, dflt) :: params' =>
      match (match Dict.get p kv with Some v => Some v | None => dflt end) with
      | None => inl (Raise TypeError
                       ("missing 1 required positional argument: '" +:+ p +:+ "'"))
      | Some v =>
          match bind_params params' kv with
          | inl e => inl e
          | inr vs => inr (v :: vs)
          end
      end
  end.

Definition kwargs (params : list (string * option json)) (input : json)
  : exn + list json :=
  match input with
  | JDict kv =>
      match List.find (fun e => negb (existsb (fun p => String.eqb (fst p) (fst e)) params)) kv with
      | Some e => inl (Raise TypeError
                         ("got an unexpected keyword argument '" +:+ fst e +:+ "'"))
      | None => bind_params params kv
      end
  | _ => inl (Raise TypeError "argument after ** must be a mapping")
  end.

(** A coroutine on the world, awaited from the loop of an agent. *)
Definition on_world {W A} (m : M W A) : Agent.Task (W := W) A :=
  zoom snd (fun w' s => (fst s, w')) m.

Definition not_a_str {S A} : M S A := raise (Raise TypeError "expected str").

End Call.

(** [backend/tools/filesystem.py] *)
Module Filesystem.

Import Sandbox.

Section Tools.

Context `{!SandboxProvider OS.World}.

Definition read_file (sandbox : Sandbox) (path : string) : M OS.World string :=
  Sandbox.read_file sandbox path.

Definition write_file (sandbox : Sandbox) (path content : string) : M OS.World string :=
  Sandbox.write_file sandbox path content ;;
  ret ("Wrote " +:+ Str.of_nat (Str.len content) +:+ " chars to " +:+ path).

Definition create_file (sandbox : Sandbox) (path content : string) : M OS.World string :=
  Sandbox.write_file sandbox path content ;;
  ret ("Created " +:+ path +:+ " (" +:+ Str.of_nat (Str.len content) +:+ " chars)").

Definition delete_file (sandbox : Sandbox) (path : string) : M OS.World string :=
  let target := joinpath (workspace sandbox) path in
  if negb (is_relative_to target (workspace sandbox)) then raise (escapes path)
  else
    w <- get ;;
    if OS.exists_ w target then
      OS.unlink target ;;
      ret ("Deleted " +:+ path)
    else ret (path +:+ " not found").

Definition list_directory (sandbox : Sandbox) (path : string) : M OS.World string :=
  entries <- Sandbox.list_dir sandbox path ;;
  ret (Str.join nl entries).

End Tools.

End Filesystem.

(** [backend/agents/implementer.py] *)
Module Implementer.

Import Sandbox.

Section Create.

Context `{!SandboxProvider OS.World} `{!Clock OS.World} `{!JsonModule}.
Variable sandbox : Sandbox.

Definition _read (path : string) : M OS.World string :=
  Sandbox.read_file sandbox path.

Definition _write (path content : string) : M OS.World string :=
  Sandbox.write_file sandbox path content ;;
  ret ("Wrote " +:+ Str.of_nat (Str.len content) +:+ " chars to " +:+ path).

Definition _create (path content : string) : M OS.World string :=
  Sandbox.write_file sandbox path content ;;
  ret ("Created " +:+ path +:+ " (" +:+ Str.of_nat (Str.len content) +:+ " chars)").

Definition _delete (path : string) : M OS.World string :=
  let target := joinpath (workspace sandbox) path in
  w <- get ;;
  if OS.exists_ w target then
    OS.unlink target ;;
    ret ("Deleted " +:+ path)
  else ret (path +:+ " not found").

Definition _run (command : string) : M OS.World json :=
  result <- Sandbox.run_command sandbox command 60%Z ;;
  ret (JDict [("exit_code", JInt (exit_code result));
              ("stdout", JStr (Str.upto 50000 (stdout result)));
              ("stderr", JStr (Str.upto 10000 (stderr result)))]).

Definition _list_dir (path : string) : M OS.World string :=
  entries <- Sandbox.list_dir sandbox path ;;
  ret (Str.join nl entries).

Definition str_schema (props : list string) (required : list string) : json :=
  JDict [("type", JStr "object");
         ("properties", JDict (map (fun p => (p, JDict [("type", JStr "string")])) props));
         ("required", JList (map JStr required))].

(** A handler of one or two string parameters, called with the tool input. *)
Definition handler1 (p : string) (dflt : option json) (f : string -> M OS.World json)
  : json -> Agent.Task json :=
  fun input =>
    Call.on_world
      match Call.kwargs [(p, dflt)] input with
      | inl e => raise e
      | inr [JStr x] => f x
      | inr _ => Call.not_a_str
      end.

Definition handler2 (p q : string) (f : string -> string -> M OS.World json)
  : json -> Agent.Task json :=
  fun input =>
    Call.on_world
      match Call.kwargs [(p, None); (q, None)] input with
      | inl e => raise e
      | inr [JStr x; JStr y] => f x y
      | inr _ => Call.not_a_str
      end.

Definition as_str (m : M OS.World string) : M OS.World json :=
  s <- m ;; ret (JStr s).

Definition implementer_tools : list Agent.ToolDef :=
  [ {| Agent.name := "read_file";
       Agent.description := "Read a file from the workspace.";
       Agent.input_schema := str_schema ["path"] ["path"];
       Agent.handler := handler1 "path" None (fun p => as_str (_read p)) |};
    {| Agent.name := "write_file";
       Agent.description := "Write/overwrite a file in the workspace.";
       Agent.input_schema := str_schema ["path"; "content"] ["path"; "content"];
       Agent.handler := handler2 "path" "content" (fun p c => as_str (_write p c)) |};
    {| Agent.name := "create_file";
       Agent.description := "Create a new file. Parent directories created automatically.";
       Agent.input_schema := str_schema ["path"; "content"] ["path"; "content"];
       Agent.handler := handler2 "path" "content" (fun p c => as_str (_create p c)) |};
    {| Agent.name := "delete_file";
       Agent.description := "Delete a file from the workspace.";
       Agent.input_schema := str_schema ["path"] ["path"];
       Agent.handler := handler1 "path" None (fun p => as_str (_delete p)) |};
    {| Agent.name := "run_command";
       Agent.description := "Run a shell command in the workspace.";
       Agent.input_schema := str_schema ["command"] ["command"];
       Agent.handler := handler1 "command" None _run |};
    {| Agent.name := "list_directory";
       Agent.description := "List files in a directory.";
       Agent.input_schema :=
         JDict [("type", JStr "object");
                ("properties",
                 JDict [("path", JDict [("type", JStr "string"); ("default", JStr ".")])]);
                ("required", JList [])];
       Agent.handler := handler1 "path" (Some (JStr ".")) (fun p => as_str (_list_dir p)) |} ].

(** [create_implementer]; the instructions that follow the task and the
    context in the system prompt are the fixed text [instructions]. *)
Definition create_implementer (client : Agent.Kwargs -> Agent.Task Agent.Response)
    (instructions task context : string) : Agent.BaseAgent :=
  let agent := Agent.__init__ client implementer_tools in
  {| Agent.role := "implementer";
     Agent.system_prompt :=
       "You are an Implementer agent. You make code changes in a repository workspace."
       +:+ nl +:+ nl +:+ "Task from orchestrator:" +:+ nl +:+ task +:+ nl +:+ nl
       +:+ "Context (files already read by orchestrator):" +:+ nl +:+ context
       +:+ nl +:+ nl +:+ instructions;
     Agent.max_iterations := 40;
     Agent.model := Agent.model agent;
     Agent.tools := Agent.tools agent;
     Agent._events := Agent._events agent;
     Agent._event_callback := Agent._event_callback agent;
     Agent._client := Agent._client agent;
     Agent._messages := Agent._messages agent;
     Agent.flags := Agent.flags agent |}.

End Create.

End Implementer.

(** * Regular expressions, as far as the verifier's patterns go *)

Module Re.

Inductive regex : Type :=
| Eps
| Chr (c : ascii)
| Space                      (* \s *)
| Bol                        (* ^ *)
| Seq (r1 r2 : regex)
| Alt (r1 r2 : regex)
| Plus (r : regex).

Fixpoint lit (s : string) : regex :=
  match s with
  | EmptyString => Eps
  | String c EmptyString => Chr c
  | String c s' => Seq (Chr c) (lit s')
  end.

(** [matches r bol s k]: [r] matches a prefix of [s] such that [k] accepts
    what is left; [bol] says that [s] begins the subject string. *)
Fixpoint matches (r : regex) (bol : bool) (s : string) (k : bool -> string -> bool)
  : bool :=
  match r with
  | Eps => k bol s
  | Chr c =>
      match s with
      | String c' s' => if Ascii.eqb c c' then k false s' else false
      | EmptyString => false
      end
  | Space =>
      match Str.space_prefix s with
      | Some s' => k false s'
      | None => false
      end
  | Bol => if bol then k bol s else false
  | Seq r1 r2 => matches r1 bol s (fun b s' => matches r2 b s' k)
  | Alt r1 r2 => matches r1 bol s k || matches r2 bol s k
  | Plus r1 =>
      (fix again (n : nat) (b : bool) (t : string) : bool :=
         matches r1 b t
           (fun b' t' =>
              k b' t' ||
              match n with
              | 0 => false
              | S n' => if String.length t' <? String.length t then again n' b' t' else false
              end))
        (String.length s) bol s
  end.

Fixpoint search_at (r : regex) (bol : bool) (s : string) : bool :=
  matches r bol s (fun _ _ => true) ||
  match s with
  | String _ s' => search_at r false s'
  | EmptyString => false
  end.

(** [re.search(r, s)] as a truth value *)
Definition search (r : regex) (s : string) : bool := search_at r true s.

End Re.

(** * The verifier ([backend/agents/verifier.py]) *)

Module Verifier.

Import Sandbox.

Definition _FORBIDDEN_COMMAND_PATTERNS : list Re.regex :=
  [ Re.Seq (Re.Alt Re.Bol Re.Space) (Re.Seq (Re.lit "git") Re.Space);  (* (^|\s)git\s *)
    Re.Seq (Re.lit "gh") Re.Space;                                      (* gh\s *)
    Re.lit "gitkraken";
    Re.lit "commit";
    Re.lit "push";
    Re.Seq (Re.lit "create") (Re.Seq (Re.Plus Re.Space) (Re.lit "pr")) (* create\s+pr *)
  ].

Definition safety_policy : json :=
  JDict [("exit_code", JInt 2);
         ("stdout", JStr "");
         ("stderr", JStr "Verifier safety policy: git/PR/push commands are not allowed during verification.")].

Section Create.

Context {W : Type} `{!SandboxProvider W} `{!Unicode}.
Variable sandbox : Sandbox.

(** [for pattern in _FORBIDDEN_COMMAND_PATTERNS: if re.search(...): return ...],
    then the code after the loop. *)
Fixpoint for_pattern (patterns : list Re.regex) (normalized : string)
    (after : M W json) : M W json :=
  match patterns with
  | [] => after
  | pattern :: rest =>
      if Re.search pattern normalized then ret safety_policy
      else for_pattern rest normalized after
  end.

Definition _run (command : string) : M W json :=
  let normalized := str_lower (Str.strip command) in
  for_pattern _FORBIDDEN_COMMAND_PATTERNS normalized
    (result <- Sandbox.run_command sandbox command 120%Z ;;
     ret (JDict [("exit_code", JInt (exit_code result));
                 ("stdout", JStr (Str.upto 50000 (stdout result)));
                 ("stderr", JStr (Str.upto 10000 (stderr result)))])).

(** The [run_command] tool of the verifier agent. *)
Definition run_command_tool : Agent.ToolDef :=
  {| Agent.name := "run_command";
     Agent.description := "Run a verification command (install, test, build, lint).";
     Agent.input_schema :=
       JDict [("type", JStr "object");
              ("properties", JDict [("command", JDict [("type", JStr "string")])]);
              ("required", JList [JStr "command"])];
     Agent.handler := fun input =>
       Call.on_world
         match Call.kwargs [("command", None)] input with
         | inl e => raise e
         | inr [JStr command] => _run command
         | inr _ => Call.not_a_str
         end |}.

End Create.

End Verifier.

(** * The event bus ([backend/events.py])

    A queue is an object with an identity; the bus keeps, per session, the
    list of the queues subscribed.  [subscribe] is an asynchronous
    generator: it is a state, suspended at a [yield], at the [await] of the
    loop, or not yet started.  The consumer's [__anext__] runs it in two
    parts: [begin] takes it to the [await], where other tasks run and may
    publish; when the wait is over, the rest of [anext] takes it to its
    next [yield] or to its end.  What has been published by then is on the
    queue; a wait on a queue that is still empty is a wait that timed out.
    [anext] on a generator that is not at the [await] is the whole step,
    with no other task running while it waits. *)

Module EventBus.

Record Bus : Type := {
  _subscribers : gmap string (list nat);
  queues : gmap nat (list json);
  allocated : nat
}.

Definition __init__ : Bus := {| _subscribers := ∅; queues := ∅; allocated := 0 |}.

Definition put_nowait (event : json) (q : nat) (qs : gmap nat (list json))
  : gmap nat (list json) :=
  <[q := default [] (qs !! q) ++ [event]]> qs.

Definition publish (session_id : string) (event : json) (b : Bus) : Bus :=
  {| _subscribers := _subscribers b;
     queues := fold_left (fun qs q => put_nowait event q qs)
                         (default [] (_subscribers b !! session_id)) (queues b);
     allocated := allocated b |}.

Fixpoint remove_first (q : nat) (l : list nat) : list nat :=
  match l with
  | [] => []
  | x :: l' => if Nat.eqb x q then l' else x :: remove_first q l'
  end.

(** Where the generator is suspended. *)
Inductive Generator : Type :=
| Created (session_id : string)
| Waiting (session_id : string) (queue : nat)      (* at the [await], in the [while] *)
| Looping (session_id : string) (queue : nat)      (* at [yield event], in the [while] *)
| Handling (session_id : string) (queue : nat)     (* at the [yield] of the [except] *)
| Exhausted.

(** [queue = asyncio.Queue(); self._subscribers[session_id].append(queue)] *)
Definition register (session_id : string) (b : Bus) : nat * Bus :=
  let q := allocated b in
  (q, {| _subscribers := <[session_id := default [] (_subscribers b !! session_id) ++ [q]]>
                           (_subscribers b);
         queues := <[q := []]> (queues b);
         allocated := S q |}).

(** The [finally] clause. *)
Definition unregister (session_id : string) (q : nat) (b : Bus) : Bus :=
  let left := remove_first q (default [] (_subscribers b !! session_id)) in
  {| _subscribers := match left with
                     | [] => delete session_id (_subscribers b)
                     | _ => <[session_id := left]> (_subscribers b)
                     end;
     queues := queues b;
     allocated := allocated b |}.

Definition keepalive (timestamp : string) : json :=
  JDict [("type", JStr "keepalive"); ("timestamp", JStr timestamp)].

(** [await asyncio.wait_for(queue.get(), timeout=30)], then [yield event];
    on [TimeoutError] the [except] clause, outside the [while], yields the
    keepalive. *)
Definition wait_and_yield (timestamp : string) (session_id : string) (q : nat) (b : Bus)
  : option json * Generator * Bus :=
  match default [] (queues b !! q) with
  | event :: rest =>
      (Some event, Looping session_id q,
       {| _subscribers := _subscribers b; queues := <[q := rest]> (queues b);
          allocated := allocated b |})
  | [] => (Some (keepalive timestamp), Handling session_id q, b)
  end.

(** The first part of [__anext__], up to the [await] of the loop: a
    generator that has not started makes its queue and registers it; one
    that is resumed after [yield event] goes round the loop.  After the
    keepalive there is no [await] left. *)
Definition begin (g : Generator) (b : Bus) : Generator * Bus :=
  match g with
  | Created session_id =>
      let (q, b') := register session_id b in (Waiting session_id q, b')
  | Looping session_id q => (Waiting session_id q, b)
  | _ => (g, b)
  end.

(** [__anext__], or what is left of it once the wait is over: [None] is
    [StopAsyncIteration]; [timestamp] is
    [datetime.now(timezone.utc).isoformat()] at that moment. *)
Definition anext (timestamp : string) (g : Generator) (b : Bus)
  : option json * Generator * Bus :=
  match g with
  | Created session_id =>
      let (q, b') := register session_id b in
      wait_and_yield timestamp session_id q b'
  | Waiting session_id q | Looping session_id q => wait_and_yield timestamp session_id q b
  | Handling session_id q => (None, Exhausted, unregister session_id q b)
  | Exhausted => (None, Exhausted, b)
  end.

(** [aclose], or the cancellation of the task that waits in [__anext__]:
    the consumer goes away while the generator is suspended, and the
    [finally] clause runs. *)
Definition aclose (g : Generator) (b : Bus) : Generator * Bus :=
  match g with
  | Waiting session_id q | Looping session_id q | Handling session_id q =>
      (Exhausted, unregister session_id q b)
  | _ => (Exhausted, b)
  end.

Definition subscribe (session_id : string) : Generator := Created session_id.

(** What happens around one subscriber: other tasks publish; the consumer
    asks for the next item, [Begin], and the wait for it is over, [Next]. *)
Inductive Action : Type :=
| Publish (session_id : string) (event : json)
| Begin
| Next (timestamp : string).

(** The items that the consumer of [g] receives along a schedule; the
    consumer's [async for] ends at the first [StopAsyncIteration]. *)
Fixpoint received (schedule : list Action) (g : Generator) (b : Bus) : list json :=
  match schedule with
  | [] => []
  | Publish sid ev :: rest => received rest g (publish sid ev b)
  | Begin :: rest => let (g', b') := begin g b in received rest g' b'
  | Next ts :: rest =>
      match anext ts g b with
      | (Some item, g', b') => item :: received rest g' b'
      | (None, _, _) => []
      end
  end.

Section Format.
Context `{!JsonModule}.

Definition format_sse (event : json) : string :=
  "data: " +:+ json_dumps event +:+ nl +:+ nl.

End Format.

End EventBus.

(** * The session/run controller ([backend/orchestrator.py]) *)

Module Controller.

Import Sandbox.

Module RunStatus.
Inductive t : Set := pending | running | completed | failed.
End RunStatus.

Module SessionStatus.
Inductive t : Set := pending | running | completed | failed.
End SessionStatus.

Module ArtifactType.
Inductive t : Set := diff | log | screenshot | report.

Definition value (a : t) : string :=
  match a with
  | diff => "diff" | log => "log" | screenshot => "screenshot" | report => "report"
  end.

(** [ArtifactType(type_val)] *)
Definition of_value (s : string) : exn + t :=
  if String.eqb s "diff" then inr diff
  else if String.eqb s "log" then inr log
  else if String.eqb s "screenshot" then inr screenshot
  else if String.eqb s "report" then inr report
  else inl (Raise ValueError ("'" +:+ s +:+ "' is not a valid ArtifactType")).
End ArtifactType.

(** The rows of the durable store that the controller writes. *)
Record Run : Type := {
  status : RunStatus.t;
  pr_url : json;
  pr_number : json;
  finished_at : option Z
}.

Record Session : Type := { session_status : SessionStatus.t }.

Record Event : Type := {
  event_run_id : string;
  event_role : string;
  event_type : string;
  event_data : json
}.

Record Artifact : Type := {
  artifact_id : string;
  artifact_run_id : string;
  artifact_type : ArtifactType.t;
  artifact_name : string;
  artifact_path : string;
  metadata_ : option json;
  size_bytes : nat
}.

Record Database : Type := {
  sessions : gmap string Session;
  runs : gmap string Run;
  events : list Event;
  artifacts : list Artifact
}.

Record Settings : Type := {
  github_token : string;
  anthropic_api_key : string;
  artifacts_dir : Path
}.

(** The world of a controller.  Its [_interrupted] flag is kept here and
    not in the controller object: [request_interrupt] sets it from another
    task while [run] is suspended. *)
Record World : Type := {
  db : Database;
  host : OS.World;
  bus : EventBus.Bus;
  clock : Z;
  _interrupted : bool;
  _active_sessions : gset string;
  _active_run_tasks : gset string;
  _running_orchestrators : gset string
}.

Definition with_db (w : World) (d : Database) : World :=
  {| db := d; host := host w; bus := bus w; clock := clock w;
     _interrupted := _interrupted w; _active_sessions := _active_sessions w;
     _active_run_tasks := _active_run_tasks w;
     _running_orchestrators := _running_orchestrators w |}.

Definition with_host (w : World) (h : OS.World) : World :=
  {| db := db w; host := h; bus := bus w; clock := clock w;
     _interrupted := _interrupted w; _active_sessions := _active_sessions w;
     _active_run_tasks := _active_run_tasks w;
     _running_orchestrators := _running_orchestrators w |}.

Definition with_bus (w : World) (b : EventBus.Bus) : World :=
  {| db := db w; host := host w; bus := b; clock := clock w;
     _interrupted := _interrupted w; _active_sessions := _active_sessions w;
     _active_run_tasks := _active_run_tasks w;
     _running_orchestrators := _running_orchestrators w |}.

Definition with_interrupted (w : World) (b : bool) : World :=
  {| db := db w; host := host w; bus := bus w; clock := clock w;
     _interrupted := b; _active_sessions := _active_sessions w;
     _active_run_tasks := _active_run_tasks w;
     _running_orchestrators := _running_orchestrators w |}.

Definition with_registries (w : World) (a t r : gset string) : World :=
  {| db := db w; host := host w; bus := bus w; clock := clock w;
     _interrupted := _interrupted w; _active_sessions := a;
     _active_run_tasks := t; _running_orchestrators := r |}.

Definition on_host {A} (m : M OS.World A) : M World A :=
  zoom host (fun h w => with_host w h) m.

Section Orchestrator.

Context `{!SandboxProvider World} `{!Clock World} `{!JsonModule}.

Variable settings : Settings.

(** [uuid.uuid4().hex], the default of an artifact's id *)
Variable _new_id : World -> string.

(** The agent factory of [backend/agents/agent.py]: the sandbox, the
    repository, the token, the event callback and the artifact sink. *)
Variable create_orchestrator_agent :
  Sandbox -> string -> string -> (Agent.AgentEvent -> World -> World) ->
  (string -> string -> string -> option json -> M World string) ->
  Agent.BaseAgent (W := World).

(** The event callback is the one that the route installs: it publishes on
    the event bus. *)
Record Orchestrator : Type := {
  session_id : string;
  run_id : string;
  event_callback : option (json -> EventBus.Bus -> EventBus.Bus);
  sandbox : option Sandbox;
  _agent : option (Agent.BaseAgent (W := World))
}.

Definition with_sandbox (o : Orchestrator) (s : option Sandbox) : Orchestrator :=
  {| session_id := session_id o; run_id := run_id o;
     event_callback := event_callback o; sandbox := s; _agent := _agent o |}.

Definition with_agent (o : Orchestrator) (a : option Agent.BaseAgent) : Orchestrator :=
  {| session_id := session_id o; run_id := run_id o;
     event_callback := event_callback o; sandbox := sandbox o; _agent := a |}.

Definition Method (A : Type) : Type := M (Orchestrator * World) A.

Definition self : Method Orchestrator := gets fst.
Definition world : Method World := gets snd.

Definition on_world {A} (m : M World A) : Method A :=
  zoom snd (fun w s => (fst s, w)) m.

(** A method of [self._agent]. *)
Definition on_agent {A} (m : Agent.Method A) : Method A :=
  fun s =>
    match _agent (fst s) with
    | None => (inl (Raise AttributeError "'NoneType' object has no attribute"), s)
    | Some a =>
        match m (a, snd s) with
        | (r, (a', w')) => (r, (with_agent (fst s) (Some a'), w'))
        end
    end.

Definition emit_event (o : Orchestrator) (role type_ : string) (data : json)
  : World -> World :=
  fun w =>
    let event := JDict [("role", JStr role); ("type", JStr type_); ("data", data);
                        ("timestamp", JStr (isoformat (now w)))] in
    match event_callback o with
    | Some cb => with_bus w (cb event (bus w))
    | None => w
    end.

Definition _emit_event (role type_ : string) (data : json) : Method unit :=
  o <- self ;;
  on_world (modify (emit_event o role type_ data)).

Definition _agent_event_handler (o : Orchestrator) (event : Agent.AgentEvent)
  : World -> World :=
  emit_event o (Agent.ev_role event) (Agent.ev_type event) (Agent.ev_data event).

Definition add_event (e : Event) (d : Database) : Database :=
  {| sessions := sessions d; runs := runs d; events := events d ++ [e];
     artifacts := artifacts d |}.

Definition _persist_event (role type_ : string) (data : json) : Method unit :=
  o <- self ;;
  on_world (modify (fun w => with_db w
    (add_event {| event_run_id := run_id o; event_role := role;
                  event_type := type_; event_data := data |} (db w)))).

Definition ext (a : ArtifactType.t) : string :=
  match a with
  | ArtifactType.diff => ".patch"
  | ArtifactType.log => ".log"
  | ArtifactType.report => ".md"
  | ArtifactType.screenshot => ".png"
  end.

Definition persist_artifact (o : Orchestrator) (type_ : ArtifactType.t)
    (name content : string) (metadata : option json) : M World string :=
  let artifact_dir := joinpath (artifacts_dir settings) (run_id o) in
  on_host (OS.mkdir artifact_dir) ;;
  let filename := name +:+ ext type_ in
  let filepath := joinpath artifact_dir filename in
  on_host (OS.write_text filepath content) ;;
  w <- get ;;
  match OS.stat (host w) filepath with
  | inl e => raise (OS.oserror e filepath)
  | inr _ =>
      let size := OS.st_size (host w) filepath in
      let artifact := {| artifact_id := _new_id w; artifact_run_id := run_id o;
                         artifact_type := type_; artifact_name := name;
                         artifact_path := to_str filepath; metadata_ := metadata;
                         size_bytes := size |} in
      modify (fun w => with_db w
                {| sessions := sessions (db w); runs := runs (db w);
                   events := events (db w);
                   artifacts := artifacts (db w) ++ [artifact] |}) ;;
      ret (artifact_id artifact)
  end.

Definition _persist_artifact (type_ : ArtifactType.t) (name content : string)
    (metadata : option json) : Method string :=
  o <- self ;;
  on_world (persist_artifact o type_ name content metadata).

Definition no_row {S A} : M S A :=
  raise (Raise NoResultFound "No row was found when one was required").

Definition _update_run_status (st : RunStatus.t) : Method unit :=
  o <- self ;;
  w <- world ;;
  match runs (db w) !! run_id o with
  | None => no_row
  | Some run =>
      let finished :=
        match st with
        | RunStatus.completed | RunStatus.failed => Some (now w)
        | _ => finished_at run
        end in
      on_world (modify (fun w => with_db w
        {| sessions := sessions (db w);
           runs := <[run_id o := {| status := st; pr_url := pr_url run;
                                     pr_number := pr_number run;
                                     finished_at := finished |}]> (runs (db w));
           events := events (db w); artifacts := artifacts (db w) |}))
  end.

Definition _update_session_status (st : SessionStatus.t) : Method unit :=
  o <- self ;;
  w <- world ;;
  match sessions (db w) !! session_id o with
  | None => no_row
  | Some _ =>
      on_world (modify (fun w => with_db w
        {| sessions := <[session_id o := {| session_status := st |}]> (sessions (db w));
           runs := runs (db w); events := events (db w);
           artifacts := artifacts (db w) |}))
  end.

Definition _get_diff : Method string :=
  o <- self ;;
  match sandbox o with
  | None => ret ""
  | Some sb =>
      result <- on_world (Sandbox.run_command sb "git diff HEAD" 10%Z) ;;
      ret (stdout result)
  end.

Definition _persist_events_batch (evs : list Agent.AgentEvent) : Method unit :=
  o <- self ;;
  on_world (modify (fun w => with_db w
    (fold_left (fun d e => add_event {| event_run_id := run_id o;
                                        event_role := Agent.ev_role e;
                                        event_type := Agent.ev_type e;
                                        event_data := Agent.ev_data e |} d)
               evs (db w)))).

Definition lift {S A} (r : exn + A) : M S A :=
  match r with inl e => raise e | inr x => ret x end.

(** What [run] and [continue_run] both do once the agent has returned its
    output: persist the events, store the diff under [name], copy the pull
    request onto the run, mark run and session completed. *)
Definition record_output (name : string) (output : Agent.AgentOutput) : Method json :=
  _persist_events_batch (Agent.out_events output) ;;
  diff <- _get_diff ;;
  (if negb (String.eqb diff "") then
     summary <- lift (match Agent.out_result output with
                      | JDict kv => inr (default (JStr "") (Dict.get "summary" kv))
                      | v => json_get v "summary"
                      end) ;;
     _persist_artifact ArtifactType.diff name diff (Some (JDict [("summary", summary)])) ;;
     ret tt
   else ret tt) ;;
  pr_url_ <- lift (json_get (Agent.out_result output) "pr_url") ;;
  pr_number_ <- lift (json_get (Agent.out_result output) "pr_number") ;;
  (if truthy pr_url_ || truthy pr_number_ then
     o <- self ;;
     w <- world ;;
     match runs (db w) !! run_id o with
     | None => no_row
     | Some run =>
         on_world (modify (fun w => with_db w
           {| sessions := sessions (db w);
              runs := <[run_id o := {| status := status run; pr_url := pr_url_;
                                        pr_number := pr_number_;
                                        finished_at := finished_at run |}]> (runs (db w));
              events := events (db w); artifacts := artifacts (db w) |}))
     end
   else ret tt) ;;
  _update_run_status RunStatus.completed ;;
  _update_session_status SessionStatus.completed ;;
  _emit_event "orchestrator" "status_change" (JDict [("status", JStr "completed")]) ;;
  summary <- lift (json_get (Agent.out_result output) "summary") ;;
  ret (JDict [("status", JStr "completed"); ("summary", summary);
              ("pr_url", pr_url_); ("pr_number", pr_number_)]).

Definition interrupted_status : json := JDict [("status", JStr "interrupted")].

Definition interrupted_result : json :=
  JDict [("status", JStr "interrupted"); ("error", JStr "Run interrupted by user")].

(** The steps shared by the handlers of an interruption. *)
Definition end_interrupted : Method json :=
  _emit_event "orchestrator" "status_change" interrupted_status ;;
  _persist_event "orchestrator" "status_change" interrupted_status ;;
  _update_run_status RunStatus.completed ;;
  _update_session_status SessionStatus.completed ;;
  ret interrupted_result.

Definition is_CancelledError (e : exn) : bool := exn_class_eqb (exn_cls e) CancelledError.

(** The first steps of [run], up to the agent with its event callback:
    statuses, clone, secrets, factory. *)
Definition start_agent (repo_url : string) : Method unit :=
  _update_run_status RunStatus.running ;;
  _update_session_status SessionStatus.running ;;
  _emit_event "orchestrator" "status_change" (JDict [("status", JStr "starting")]) ;;
  _emit_event "orchestrator" "status_change" (JDict [("status", JStr "cloning_repo")]) ;;
  sb <- on_world (Sandbox.create repo_url (Some (github_token settings))) ;;
  let secrets := [("GITHUB_TOKEN", github_token settings);
                  ("ANTHROPIC_API_KEY", anthropic_api_key settings)] in
  let sb := {| workspace := workspace sb; _env := env_update secrets (_env sb) |} in
  modify (fun s => (with_sandbox (fst s) (Some sb), snd s)) ;;
  o <- self ;;
  let agent :=
    create_orchestrator_agent sb repo_url (github_token settings)
      (_agent_event_handler o)
      (fun type_val name content metadata =>
         t <- lift (ArtifactType.of_value type_val) ;;
         persist_artifact o t name content metadata) in
  modify (fun s => (with_agent (fst s)
                      (Some (Agent.with_callback agent (Some (_agent_event_handler o)))),
                    snd s)).

(** [_active_sessions[self.session_id] = self] *)
Definition keep_alive : Method unit :=
  modify (fun s => (fst s,
                    with_registries (snd s)
                      ({[session_id (fst s)]} ∪ _active_sessions (snd s))
                      (_active_run_tasks (snd s))
                      (_running_orchestrators (snd s)))).

(** The [finally] clause of [run]. *)
Definition forget_task : Method unit :=
  modify (fun s => (fst s,
                    with_registries (snd s)
                      (_active_sessions (snd s))
                      (_active_run_tasks (snd s) ∖ {[session_id (fst s)]})
                      (_running_orchestrators (snd s) ∖ {[session_id (fst s)]}))).

Definition run (repo_url prompt : string) : Method json :=
  try_finally
    (try_excepts
       (start_agent repo_url ;;
        output <- on_agent (Agent.run (JDict [("prompt", JStr prompt);
                                              ("repo_url", JStr repo_url)])) ;;
        result <- record_output "changes" output ;;
        keep_alive ;;
        ret result)
       [ (is_CancelledError,
          fun _ =>
            on_world (modify (fun w => with_interrupted w true)) ;;
            end_interrupted);
         (is_Exception,
          fun exc =>
            w <- world ;;
            if _interrupted w then end_interrupted
            else
              _emit_event "orchestrator" "error" (JDict [("message", JStr (exn_str exc))]) ;;
              _persist_event "orchestrator" "error" (JDict [("message", JStr (exn_str exc))]) ;;
              _update_run_status RunStatus.failed ;;
              _update_session_status SessionStatus.failed ;;
              ret (JDict [("status", JStr "failed"); ("error", JStr (exn_str exc))])) ])
    forget_task.

Definition continue_run (user_message : string) : Method json :=
  o <- self ;;
  match _agent o with
  | None => ret (JDict [("error", JStr "No active agent session")])
  | Some _ =>
      try_excepts
        (_update_run_status RunStatus.running ;;
         _update_session_status SessionStatus.running ;;
         _emit_event "orchestrator" "status_change" (JDict [("status", JStr "running")]) ;;
         _emit_event "user" "user_message" (JDict [("content", JStr user_message)]) ;;
         _persist_event "user" "user_message" (JDict [("content", JStr user_message)]) ;;
         output <- on_agent (Agent.resume user_message) ;;
         record_output "changes_followup" output)
        [ (is_CancelledError,
           fun _ =>
             on_world (modify (fun w => with_interrupted w true)) ;;
             end_interrupted);
          (is_Exception,
           fun exc =>
             _emit_event "orchestrator" "error" (JDict [("message", JStr (exn_str exc))]) ;;
             _update_run_status RunStatus.failed ;;
             _update_session_status SessionStatus.failed ;;
             ret (JDict [("error", JStr (exn_str exc))])) ]
  end.

Definition request_interrupt : Method unit :=
  on_world (modify (fun w => with_interrupted w true)) ;;
  _emit_event "orchestrator" "status_change" (JDict [("status", JStr "interrupt_requested")]) ;;
  o <- self ;;
  match sandbox o with
  | Some sb =>
      try_except (on_world (Sandbox.destroy sb)) is_Exception (fun _ => ret tt)
  | None => ret tt
  end.

End Orchestrator.

End Controller.

(** * Instances for running the model

    The [json] module on the values of the model, for the scenarios:
    integers for numbers (a float has no image among the values of the
    model), ASCII strings with the two-character escapes. *)

Module PyJson.

Definition dq : string := String (ascii_of_nat 34) "".
Definition bs : string := String (ascii_of_nat 92) "".

Fixpoint escape (s : string) : string :=
  match s with
  | EmptyString => EmptyString
  | String c s' =>
      let n := Str.ord c in
      if n =? 34 then bs +:+ dq +:+ escape s'
      else if n =? 92 then bs +:+ bs +:+ escape s'
      else if n =? 10 then bs +:+ "n" +:+ escape s'
      else if n =? 13 then bs +:+ "r" +:+ escape s'
      else if n =? 9 then bs +:+ "t" +:+ escape s'
      else String c (escape s')
  end.

Definition quote (s : string) : string := dq +:+ escape s +:+ dq.

(** [json.dumps(v)] with the default separators *)
Fixpoint dumps (v : json) : string :=
  match v with
  | JNone => "null"
  | JBool true => "true"
  | JBool false => "false"
  | JInt z => Str.of_Z z
  | JStr s => quote s
  | JList l => "[" +:+ Str.join ", " (map dumps l) +:+ "]"
  | JDict kv =>
      "{" +:+ Str.join ", " (map (fun p => let (k, x) := p : string * json in
                                           quote k +:+ ": " +:+ dumps x) kv) +:+ "}"
  end.

Fixpoint skip_ws (s : string) : string :=
  match s with
  | String c s' =>
      let n := Str.ord c in
      if (n =? 32) || (n =? 9) || (n =? 10) || (n =? 13) then skip_ws s' else s
  | EmptyString => EmptyString
  end.

Definition is_digit (c : ascii) : bool := (48 <=? Str.ord c) && (Str.ord c <=? 57).

Fixpoint digits (s : string) (acc : Z) (seen : bool) : option (Z * string) :=
  match s with
  | String c s' =>
      if is_digit c then digits s' (10 * acc + Z.of_nat (Str.ord c - 48))%Z true
      else if seen then Some (acc, s) else None
  | EmptyString => if seen then Some (acc, s) else None
  end.

(** An integer: [0], or digits that do not begin with [0]. *)
Definition integer (s : string) : option (Z * string) :=
  match s with
  | String c s' => if Str.ord c =? 48 then Some (0%Z, s') else digits s 0%Z false
  | EmptyString => None
  end.

(** The characters of a string literal up to the closing quote. *)
Fixpoint chars (s : string) : option (string * string) :=
  match s with
  | EmptyString => None
  | String c s' =>
      let n := Str.ord c in
      if n =? 34 then Some ("", s')
      else if n =? 92 then
        match s' with
        | String e s'' =>
            let m := Str.ord e in
            let lit (x : nat) :=
              match chars s'' with
              | Some (r, rest) => Some (String (ascii_of_nat x) r, rest)
              | None => None
              end in
            if m =? 34 then lit 34
            else if m =? 92 then lit 92
            else if m =? 47 then lit 47
            else if m =? 110 then lit 10
            else if m =? 114 then lit 13
            else if m =? 116 then lit 9
            else if m =? 98 then lit 8
            else if m =? 102 then lit 12
            else None
        | EmptyString => None
        end
      else if n <? 32 then None
      else match chars s' with
           | Some (r, rest) => Some (String c r, rest)
           | None => None
           end
  end.

Definition keyword (k : string) (v : json) (s : string) : option (json * string) :=
  if Str.startswith k s
  then Some (v, String.substring (String.length k) (String.length s - String.length k) s)
  else None.

Fixpoint value (fuel : nat) (s : string) : option (json * string) :=
  match fuel with
  | 0 => None
  | S fuel' =>
      match skip_ws s with
      | EmptyString => None
      | String c rest as t =>
          let n := Str.ord c in
          if n =? 110 then keyword "null" JNone t
          else if n =? 116 then keyword "true" (JBool true) t
          else if n =? 102 then keyword "false" (JBool false) t
          else if n =? 34 then
            match chars rest with
            | Some (x, rest') => Some (JStr x, rest')
            | None => None
            end
          else if n =? 45 then
            match integer rest with
            | Some (z, rest') => Some (JInt (- z), rest')
            | None => None
            end
          else if is_digit c then
            match integer t with
            | Some (z, rest') => Some (JInt z, rest')
            | None => None
            end
          else if n =? 91 then
            match skip_ws rest with
            | String c' rest' as t' =>
                if Str.ord c' =? 93 then Some (JList [], rest')
                else match elements fuel' t' with
                     | Some (l, rest'') => Some (JList l, rest'')
                     | None => None
                     end
            | EmptyString => None
            end
          else if n =? 123 then
            match skip_ws rest with
            | String c' rest' as t' =>
                if Str.ord c' =? 125 then Some (JDict [], rest')
                else match members fuel' t' with
                     | Some (kv, rest'') => Some (JDict (Dict.update kv []), rest'')
                     | None => None
                     end
            | EmptyString => None
            end
          else None
      end
  end
with elements (fuel : nat) (s : string) : option (list json * string) :=
  match fuel with
  | 0 => None
  | S fuel' =>
      match value fuel' s with
      | Some (x, rest) =>
          match skip_ws rest with
          | String c rest' =>
              if Str.ord c =? 44 then
                match elements fuel' rest' with
                | Some (l, rest'') => Some (x :: l, rest'')
                | None => None
                end
              else if Str.ord c =? 93 then Some ([x], rest')
              else None
          | EmptyString => None
          end
      | None => None
      end
  end
with members (fuel : nat) (s : string) : option (list (string * json) * string) :=
  match fuel with
  | 0 => None
  | S fuel' =>
      match skip_ws s with
      | String q rest =>
          if Str.ord q =? 34 then
            match chars rest with
            | Some (k, rest1) =>
                match skip_ws rest1 with
                | String c rest2 =>
                    if Str.ord c =? 58 then
                      match value fuel' rest2 with
                      | Some (x, rest3) =>
                          match skip_ws rest3 with
                          | String d rest4 =>
                              if Str.ord d =? 44 then
                                match members fuel' rest4 with
                                | Some (kv, rest5) => Some ((k, x) :: kv, rest5)
                                | None => None
                                end
                              else if Str.ord d =? 125 then Some ([(k, x)], rest4)
                              else None
                          | EmptyString => None
                          end
                      | None => None
                      end
                    else None
                | EmptyString => None
                end
            | None => None
            end
          else None
      | EmptyString => None
      end
  end.

(** [json.loads(s)] *)
Definition loads (s : string) : option json :=
  match value (3 * String.length s + 3) s with
  | Some (v, rest) => match skip_ws rest with EmptyString => Some v | _ => None end
  | None => None
  end.

#[global] Instance module : JsonModule := {| json_dumps := dumps; json_loads := loads |}.

End PyJson.

(** The case mapping on the ASCII range, where [str.lower] takes [A] to [Z]
    to [a] to [z] and leaves the rest; the commands of the scenarios are
    ASCII. *)
Module AsciiCase.

Definition lower_char (c : ascii) : ascii :=
  let n := Str.ord c in
  if (65 <=? n) && (n <=? 90) then ascii_of_nat (n + 32) else c.

Fixpoint lower (s : string) : string :=
  match s with
  | EmptyString => EmptyString
  | String c s' => String (lower_char c) (lower s')
  end.

#[global] Instance unicode : Unicode := {| str_lower := lower |}.

End AsciiCase.

(** Clocks: the instant is written in decimal where the code writes its
    ISO-8601 form. *)
#[export] Instance os_clock : Clock OS.World :=
  {| now := OS.time; isoformat := Str.of_Z |}.

#[export] Instance controller_clock : Clock Controller.World :=
  {| now := Controller.clock; isoformat := Str.of_Z |}.

(** The local provider as the controller deploys it: on the host of its
    world. *)
Module Deployment.

Import Sandbox.

Section Hosted.

Variable subprocess :
  list string -> option Path -> list (string * string) -> option Z ->
  OS.World -> option OS.Popen * OS.World.
Variable mkdtemp : OS.World -> string.

#[export] Instance hosted : SandboxProvider Controller.World := {
  create repo_url token := Controller.on_host (local_create subprocess mkdtemp repo_url token);
  run_command sb cmd timeout := Controller.on_host (local_run_command subprocess sb cmd timeout);
  read_file sb path := Controller.on_host (local_read_file sb path);
  write_file sb path content := Controller.on_host (local_write_file sb path content);
  list_dir sb path := Controller.on_host (local_list_dir sb path);
  destroy sb := Controller.on_host (local_destroy sb)
}.

End Hosted.

End Deployment.

(** * What the claims speak of *)

Module Spec.

(** The resolution of an absolute path on a file system without symbolic
    links: a [..] cancels the component before it. *)
Definition resolve (p : Path) : list string :=
  fold_left (fun acc c => if String.eqb c ".." then removelast acc else acc ++ [c])
            (parts p) [].

(** The resolution of [target] lies within the workspace root. *)
Definition lies_within (workspace target : Path) : bool :=
  is_prefix (resolve workspace) (resolve target).

End Spec.

(** * Scenarios

    Concrete hosts, decision-makers and agents on which the model runs. *)

Module Scenario.

Import Sandbox Agent.

Definition files0 : gmap (list string) OS.node :=
  list_to_map
    [ (["etc"], OS.Dir);
      (["etc"; "passwd"], OS.File "root:x:0:0");
      (["tmp"], OS.Dir);
      (["tmp"; "ramp_x"], OS.Dir);
      (["tmp"; "ramp_x"; "repo"], OS.Dir);
      (["tmp"; "ramp_x"; "repo"; "README.md"], OS.File "hello") ].

Definition host0 : OS.World :=
  {| OS.files := files0; OS.cwd := []; OS.environ := []; OS.spawned := []; OS.time := 0 |}.

Definition sandbox0 : Sandbox :=
  {| workspace := parse "/tmp/ramp_x/repo"; _env := [] |}.

(** Child processes: [git clone] makes the directory it clones into, and
    every child exits with status 0 and prints nothing. *)
Definition subprocess0 (argv : list string) (dir : option Path)
    (env : list (string * string)) (timeout : option Z) (w : OS.World)
  : option OS.Popen * OS.World :=
  let exited := Some {| OS.returncode := Some 0%Z; OS.stdout := ""; OS.stderr := "" |} in
  match argv with
  | "git" :: "clone" :: _ =>
      match OS.os_mkdir (parse (List.last argv "")) w with
      | inr w' => (exited, w')
      | inl _ => (exited, w)
      end
  | _ => (exited, w)
  end.

Definition mkdtemp0 (w : OS.World) : string := "/tmp/ramp_y".

#[global] Instance local0 : SandboxProvider OS.World := LocalSandbox subprocess0 mkdtemp0.

(** A decision-maker that follows a script: the history grows by two
    turns with every response that uses a tool. *)
Definition scripted {W : Type} (script : list Response) : Kwargs -> Task (W := W) Response :=
  fun kw =>
    match nth_error script (length (kw_messages kw) / 2) with
    | Some r => ret r
    | None => raise (Raise RuntimeError "no response left in the script")
    end.

(** A decision-maker that asks for the tool [plan] whatever it is told. *)
Definition always_plans {W : Type} : Kwargs -> Task (W := W) Response :=
  fun kw =>
    ret {| content := [ToolUseBlock ("toolu_" +:+ Str.of_nat (length (kw_messages kw)))
                                    "plan" (JDict [])] |}.

Definition reads_three : list Response :=
  [ {| content := [ TextBlock "Let me look at the files.";
                    ToolUseBlock "toolu_1" "read_file" (JDict [("path", JStr "README.md")]);
                    ToolUseBlock "toolu_2" "read_file" (JDict [("path", JStr "missing.txt")]);
                    ToolUseBlock "toolu_3" "search" (JDict [("query", JStr "TODO")]) ] |};
    {| content := [ TextBlock "Nothing to change." ] |} ].

(** An implementer on the host, following [reads_three]. *)
Definition implementer0 : BaseAgent (W := OS.World) :=
  Implementer.create_implementer sandbox0 (scripted reads_three) "" "Fix the bug" "".

(** An implementer whose decision-maker answers with nothing at all. *)
Definition silent0 : BaseAgent (W := OS.World) :=
  Implementer.create_implementer sandbox0 (scripted [ {| content := [] |} ]) "" "Say nothing" "".

(** A name and a message of 5000 characters. *)
Definition long_name : string := N.iter 5000 (String "x") "".

Definition raises_long : ToolDef (W := OS.World) :=
  {| name := "explain"; description := "Explain at length."; input_schema := JDict [];
     handler := fun _ => raise (Raise ValueError long_name) |}.

Definition explainer0 : BaseAgent (W := OS.World) :=
  __init__ (scripted [ {| content := [ToolUseBlock "toolu_1" "explain" (JDict [])] |} ])
           [raises_long].

(** An agent of three iterations whose decision-maker never stops asking
    for a tool. *)
Definition planner0 : BaseAgent (W := Controller.World) :=
  let agent : BaseAgent (W := Controller.World) := __init__ always_plans [] in
  {| role := "verifier"; system_prompt := ""; max_iterations := 3;
     model := model agent; tools := []; _events := []; _event_callback := None;
     _client := always_plans; _messages := []; flags := flags agent |}.

(** The controller of session [s1], run [r1], on the host. *)
Definition settings0 : Controller.Settings :=
  {| Controller.github_token := ""; Controller.anthropic_api_key := "sk-test";
     Controller.artifacts_dir := parse "/tmp/artifacts" |}.

Definition new_id0 (w : Controller.World) : string :=
  "artifact" +:+ Str.of_nat (length (Controller.artifacts (Controller.db w))).

#[global] Instance hosted0 : SandboxProvider Controller.World :=
  Deployment.hosted subprocess0 mkdtemp0.

(** An orchestrator agent with the tools [read_file] and [complete]. *)
Definition orchestrator_agent0 (client : Kwargs -> Task (W := Controller.World) Response)
    (sandbox : Sandbox) (repo_url github_token : string)
    (event_callback : AgentEvent -> Controller.World -> Controller.World)
    (save_artifact : string -> string -> string -> option json -> M Controller.World string)
  : BaseAgent (W := Controller.World) :=
  let agent :=
    __init__ client
      [ {| name := "read_file";
           description := "Read a file from the repository. Use relative paths from repo root.";
           input_schema := JDict [("type", JStr "object")];
           handler := fun input =>
             Call.on_world
               match Call.kwargs [("path", None)] input with
               | inl e => raise e
               | inr [JStr path] => s <- Sandbox.read_file sandbox path ;; ret (JStr s)
               | inr _ => Call.not_a_str
               end |};
        {| name := "complete";
           description := "Signal that the session is complete.";
           input_schema := JDict [("type", JStr "object")];
           handler := fun input => s <- mark_done input ;; ret (JStr s) |} ] in
  {| role := "orchestrator"; system_prompt := "You are the orchestrator for " +:+ repo_url;
     max_iterations := 60; model := model agent; tools := tools agent;
     _events := []; _event_callback := Some event_callback; _client := client;
     _messages := []; flags := flags agent |}.

Definition database0 : Controller.Database :=
  {| Controller.sessions := {[ "s1" := {| Controller.session_status := Controller.SessionStatus.pending |} ]};
     Controller.runs := {[ "r1" := {| Controller.status := Controller.RunStatus.pending;
                                       Controller.pr_url := JNone;
                                       Controller.pr_number := JNone;
                                       Controller.finished_at := None |} ]};
     Controller.events := []; Controller.artifacts := [] |}.

Definition world0 : Controller.World :=
  {| Controller.db := database0; Controller.host := host0;
     Controller.bus := EventBus.__init__; Controller.clock := 0;
     Controller._interrupted := false; Controller._active_sessions := ∅;
     Controller._active_run_tasks := {[ "s1" ]};
     Controller._running_orchestrators := {[ "s1" ]} |}.

Definition controller0 : Controller.Orchestrator :=
  {| Controller.session_id := "s1"; Controller.run_id := "r1";
     Controller.event_callback := Some (EventBus.publish "s1");
     Controller.sandbox := None; Controller._agent := None |}.

(** The run of [controller0] with the decision-maker that never stops
    asking for a tool. *)
Definition capped_run :=
  Controller.run settings0 new_id0 (orchestrator_agent0 always_plans)
    "https://github.com/acme/app" "Improve the app" (controller0, world0).

End Scenario.

(** * Notions for the properties of the executor *)

Module AgentSpec.

Import Agent.

(** The tool events of a trace: the kind and the call identifier. *)
Inductive Kind : Set := Call | Result.

Definition event_id (e : AgentEvent) : string :=
  match ev_data e with
  | JDict kv => match Dict.get "id" kv with Some (JStr i) => i | _ => "" end
  | _ => ""
  end.

Definition tool_view (e : AgentEvent) : option (Kind * string) :=
  if String.eqb (ev_type e) "tool_call" then Some (Call, event_id e)
  else if String.eqb (ev_type e) "tool_result" then Some (Result, event_id e)
  else None.

Definition tool_events (evs : list AgentEvent) : list (Kind * string) :=
  omap tool_view evs.

(** Every call is answered at once by the result with its identifier. *)
Inductive bracketed : list (Kind * string) -> Prop :=
| bracketed_nil : bracketed []
| bracketed_pair i rest : bracketed rest -> bracketed ((Call, i) :: (Result, i) :: rest).

Definition kind_eqb (a b : Kind) : bool :=
  match a, b with Call, Call | Result, Result => true | _, _ => false end.

Definition count (k : Kind) (i : string) (l : list (Kind * string)) : nat :=
  length (List.filter (fun e => kind_eqb (fst e) k && String.eqb (snd e) i) l).

Definition call_ids (l : list (Kind * string)) : list string :=
  omap (fun e => match fst e with Call => Some (snd e) | Result => None end) l.

(** The two tool events of a tool-use block, and of the blocks of a response. *)
Definition brackets_of (blocks : list ContentBlock) : list (Kind * string) :=
  flat_map (fun b => match b with
                     | ToolUseBlock id _ _ => [(Call, id); (Result, id)]
                     | _ => []
                     end) blocks.

(** An agent and its world. *)
Abbreviation State W := (BaseAgent (W := W) * W)%type.

Section Notions.

Context {W : Type} `{!Clock W} `{!JsonModule}.

(** A step that leaves the events of the agent alone. *)
Definition same_events (s s' : State W) : Prop := _events (fst s') = _events (fst s).

(** The event that [_emit] builds, and the world once the callback ran. *)
Definition emitted (a : BaseAgent (W := W)) (w : W) (type_ : string) (data : json)
  : AgentEvent :=
  {| ev_role := role a; ev_type := type_; ev_data := data; ev_timestamp := now w |}.

Definition notified (a : BaseAgent (W := W)) (w : W) (ev : AgentEvent) : W :=
  match _event_callback a with Some cb => cb ev w | None => w end.

Definition call_data (id n : string) (input : json) : json :=
  JDict [("tool", JStr n); ("input", input); ("id", JStr id)].

Definition result_data (id n result_str : string) : json :=
  JDict [("tool", JStr n); ("id", JStr id); ("result", JStr (Str.upto 5000 result_str))].

Definition unknown_tool (n : string) : string := "Error: unknown tool '" +:+ n +:+ "'".

(** The state in which the handler of a tool-use block is looked up and
    called: the call has been emitted. *)
Definition called (id n : string) (input : json) (s : State W) : State W :=
  let ev := emitted (fst s) (snd s) "tool_call" (call_data id n input) in
  (with_events (fst s) (_events (fst s) ++ [ev]), notified (fst s) (snd s) ev).

(** The same, once the result has been emitted. *)
Definition answered (id n result_str : string) (s : State W) : State W :=
  let ev := emitted (fst s) (snd s) "tool_result" (result_data id n result_str) in
  (with_events (fst s) (_events (fst s) ++ [ev]), notified (fst s) (snd s) ev).

Definition max_iterations_error (a : BaseAgent (W := W)) : json :=
  JDict [("message",
          JStr ("Max iterations (" +:+ Str.of_nat (max_iterations a) +:+ ") reached"))].

(** The request that an iteration sends to the decision-maker. *)
Definition request (tools_schema : list json) (a : BaseAgent (W := W)) : Kwargs :=
  {| kw_model := model a; kw_max_tokens := 16384; kw_system := system_prompt a;
     kw_messages := _messages a;
     kw_tools := match tools_schema with [] => None | _ => Some tools_schema end |}.

(** The history after an iteration that used tools. *)
Definition extended (response : Response) (tool_results : list json) (s : State W) : State W :=
  (with_messages (fst s)
     (_messages (fst s) ++
      [{| msg_role := "assistant"; msg_content := CList (map Block (content response)) |};
       {| msg_role := "user"; msg_content := CList (map Entry tool_results) |}]),
   snd s).

Definition texts_of (blocks : list ContentBlock) : list string :=
  omap (fun b => match b with TextBlock t => Some t | _ => None end) blocks.

(** The agent at the moment [resume] enters the loop. *)
Definition resumed (user_message : string) (s : State W) : State W :=
  let a1 := with_events
              (with_flags
                 (with_messages (fst s) (append_user_message user_message (_messages (fst s))))
                 (set_done false (flags (fst s))))
              [] in
  let ev := emitted a1 (snd s) "status_change" (status a1 "_resumed") in
  (with_events a1 [ev], notified a1 (snd s) ev).

(** [n] passes through the body, each begun with [done] unset and ended in
    [continue]. *)
Fixpoint continues (schema : list json) (n : nat) (s s' : State W) : Prop :=
  match n with
  | 0 => s = s'
  | S n' =>
      _done (flags (fst s)) = false /\
      exists s1, body schema s = (inr Continue, s1) /\ continues schema n' s1 s'
  end.

(** The state after [n] passes through the body. *)
Fixpoint passes (schema : list json) (n : nat) (s : State W) : State W :=
  match n with
  | 0 => s
  | S n' => passes schema n' (snd (body schema s))
  end.

(** [n] passes through the body can be made, each begun with [done] unset
    and ended in [continue]. *)
Fixpoint all_continue (schema : list json) (n : nat) (s : State W) : bool :=
  match n with
  | 0 => true
  | S n' =>
      negb (_done (flags (fst s))) &&
      match fst (body schema s) with
      | inr Continue => all_continue schema n' (snd (body schema s))
      | _ => false
      end
  end.

End Notions.

End AgentSpec.

(** * Notions for the properties of the controller *)

Module ControllerSpec.

Import Controller.

(** A controller and its world. *)
Abbreviation CState := (Orchestrator * World)%type.

Section Notions.

Context `{!Sandbox.SandboxProvider World} `{!Clock World} `{!JsonModule}.

Definition run_status_of (o : Orchestrator) (w : World) : option RunStatus.t :=
  status <$> runs (db w) !! run_id o.

Definition session_status_of (o : Orchestrator) (w : World) : option SessionStatus.t :=
  session_status <$> sessions (db w) !! session_id o.

(** The controller is still that of the same run and session. *)
Definition same_ids (o o' : Orchestrator) : Prop :=
  run_id o' = run_id o /\ session_id o' = session_id o.

(** A method that leaves the controller object as it is. *)
Definition keeps {A} (m : Method A) : Prop :=
  forall (s : CState) r s', m s = (r, s') -> fst s' = fst s.

End Notions.

End ControllerSpec.

(** * Notions for the properties of the local sandbox *)

Module SandboxSpec.

(** [f'] has what [f] has. *)
Definition grows (f f' : gmap (list string) OS.node) : Prop :=
  forall c n, OS.node_at f c = Some n -> OS.node_at f' c = Some n.

End SandboxSpec.

(** The scenarios, continued. *)

Module Run.

Import Sandbox Agent Scenario.

Definition implementer_run := _loop (implementer0, host0).

Definition implementer_output : AgentOutput :=
  match fst implementer_run with
  | inr out => out
  | inl _ => {| out_role := ""; out_result := JNone; out_events := [] |}
  end.

Definition read_file_tool : ToolDef (W := OS.World) :=
  nth 0 (Implementer.implementer_tools sandbox0) raises_long.

(** An agent whose history ends with an assistant turn. *)
Definition answered_agent : BaseAgent (W := OS.World) :=
  with_messages implementer0
    [ {| msg_role := "user"; msg_content := CStr "Fix the bug" |};
      {| msg_role := "assistant";
         msg_content := CList [Block (TextBlock "Nothing to change.")] |} ].

(** The steps of [capped_run]. *)
Definition capped_start :=
  Controller.start_agent settings0 new_id0 (orchestrator_agent0 always_plans)
    "https://github.com/acme/app" (controller0, world0).

Definition capped_agent :=
  Controller.on_agent
    (Agent.run (JDict [("prompt", JStr "Improve the app");
                       ("repo_url", JStr "https://github.com/acme/app")]))
    (snd capped_start).

Definition capped_output : AgentOutput :=
  match fst capped_agent with
  | inr out => out
  | inl _ => {| out_role := ""; out_result := JNone; out_events := [] |}
  end.

Definition capped_record :=
  Controller.record_output settings0 new_id0 "changes" capped_output (snd capped_agent).

Definition capped_result : json :=
  JDict [("status", JStr "completed"); ("summary", JNone);
         ("pr_url", JNone); ("pr_number", JNone)].

End Run.

(** * The shell tool ([backend/tools/shell.py]) *)

Module Shell.

Import Sandbox.

Section Tools.

Context {W : Type} `{!SandboxProvider W}.

(** [run_command(sandbox_provider, sandbox, command, timeout)] *)
Definition run_command (sandbox : Sandbox) (command : string) (timeout : Z) : M W json :=
  result <- Sandbox.run_command sandbox command timeout ;;
  ret (JDict [("exit_code", JInt (exit_code result));
              ("stdout", JStr (Str.upto 50000 (stdout result)));
              ("stderr", JStr (Str.upto 10000 (stderr result)))]).

End Tools.

End Shell.

(** * The tools of the orchestrator agent that act by themselves
      ([backend/agents/agent.py]) *)

Module AgentFactory.

Import Sandbox.

Section Create.

Context {W : Type} `{!SandboxProvider W} `{!Clock W} `{!JsonModule}.
Variable sandbox : Sandbox.

Definition _read_file (path : string) : M W string :=
  Sandbox.read_file sandbox path.

Definition _list_directory (path : string) : M W string :=
  entries <- Sandbox.list_dir sandbox path ;;
  ret (Str.join nl entries).

Definition _run_command (command : string) : M W json :=
  result <- Sandbox.run_command sandbox command 60%Z ;;
  ret (JDict [("exit_code", JInt (exit_code result));
              ("stdout", JStr (Str.upto 50000 (stdout result)));
              ("stderr", JStr (Str.upto 10000 (stderr result)))]).

(** [_handle_complete] takes any keyword arguments: whatever their names,
    they are the result that [mark_done] records. *)
Definition _handle_complete (input : json) : Agent.Task (W := W) json :=
  match input with
  | JDict kv => s <- Agent.mark_done (JDict kv) ;; ret (JStr s)
  | _ => raise (Raise TypeError "argument after ** must be a mapping")
  end.

Definition described (type_ description : string) : json :=
  JDict [("type", JStr type_); ("description", JStr description)].

Definition read_file_tool : Agent.ToolDef :=
  {| Agent.name := "read_file";
     Agent.description := "Read a file from the repository. Use relative paths from repo root.";
     Agent.input_schema :=
       JDict [("type", JStr "object");
              ("properties", JDict [("path", described "string" "Relative file path")]);
              ("required", JList [JStr "path"])];
     Agent.handler := fun input =>
       Call.on_world
         match Call.kwargs [("path", None)] input with
         | inl e => raise e
         | inr [JStr path] => s <- _read_file path ;; ret (JStr s)
         | inr _ => Call.not_a_str
         end |}.

Definition list_directory_tool : Agent.ToolDef :=
  {| Agent.name := "list_directory";
     Agent.description := "List files and subdirectories. Use '.' for root.";
     Agent.input_schema :=
       JDict [("type", JStr "object");
              ("properties",
               JDict [("path", JDict [("type", JStr "string"); ("default", JStr ".")])]);
              ("required", JList [])];
     Agent.handler := fun input =>
       Call.on_world
         match Call.kwargs [("path", Some (JStr "."))] input with
         | inl e => raise e
         | inr [JStr path] => s <- _list_directory path ;; ret (JStr s)
         | inr _ => Call.not_a_str
         end |}.

Definition run_command_tool : Agent.ToolDef :=
  {| Agent.name := "run_command";
     Agent.description :=
       "Run a shell command in the repository workspace (read-only exploration, grep, find, etc.).";
     Agent.input_schema :=
       JDict [("type", JStr "object");
              ("properties", JDict [("command", JDict [("type", JStr "string")])]);
              ("required", JList [JStr "command"])];
     Agent.handler := fun input =>
       Call.on_world
         match Call.kwargs [("command", None)] input with
         | inl e => raise e
         | inr [JStr command] => _run_command command
         | inr _ => Call.not_a_str
         end |}.

Definition complete_tool : Agent.ToolDef :=
  {| Agent.name := "complete";
     Agent.description :=
       "Signal that you are done. Call this when you have finished the entire task. Include a summary and any relevant output.";
     Agent.input_schema :=
       JDict [("type", JStr "object");
              ("properties",
               JDict [("summary", described "string" "Summary of what was accomplished");
                      ("pr_url", described "string" "PR URL if one was created");
                      ("pr_number", described "integer" "PR number if one was created")]);
              ("required", JList [JStr "summary"])];
     Agent.handler := _handle_complete |}.

End Create.

End AgentFactory.

(** * Notions for further properties of the executor *)

Module LoopSpec.

Import Agent AgentSpec.

(** The identifiers of the tool-use blocks of a response, in order. *)
Definition tool_use_ids (blocks : list ContentBlock) : list string :=
  omap (fun b => match b with ToolUseBlock id _ _ => Some id | _ => None end) blocks.

(** The call that an entry of a user turn answers. *)
Definition answers (entry : json) : option string :=
  match entry with
  | JDict kv =>
      match Dict.get "type" kv, Dict.get "tool_use_id" kv with
      | Some (JStr "tool_result"), Some (JStr id) => Some id
      | _, _ => None
      end
  | _ => None
  end.

(** The text that a [tool_result] event shows. *)
Definition result_text (e : AgentEvent) : option string :=
  match ev_data e with
  | JDict kv => match Dict.get "result" kv with Some (JStr r) => Some r | _ => None end
  | _ => None
  end.

Section Notions.

Context {W : Type} `{!Clock W} `{!JsonModule}.

(** What the loop leaves alone in an agent: all but its events, its
    history and its flags. *)
Definition same_config (a a' : BaseAgent (W := W)) : Prop :=
  role a' = role a /\ system_prompt a' = system_prompt a /\
  max_iterations a' = max_iterations a /\ model a' = model a /\
  tools a' = tools a /\ _event_callback a' = _event_callback a /\
  _client a' = _client a.

(** The events that the loop of an agent of role [r] emits. *)
Inductive loop_event (r : string) : AgentEvent -> Prop :=
| ev_agent_message text ts :
    loop_event r {| ev_role := r; ev_type := "agent_message";
                    ev_data := JDict [("content", JStr text)]; ev_timestamp := ts |}
| ev_tool_call id n input ts :
    loop_event r {| ev_role := r; ev_type := "tool_call";
                    ev_data := call_data id n input; ev_timestamp := ts |}
| ev_tool_result id n result_str ts :
    loop_event r {| ev_role := r; ev_type := "tool_result";
                    ev_data := result_data id n result_str; ev_timestamp := ts |}
| ev_completed ts :
    loop_event r {| ev_role := r; ev_type := "status_change";
                    ev_data := JDict [("status", JStr (r +:+ "_completed"))];
                    ev_timestamp := ts |}
| ev_max_iterations n ts :
    loop_event r {| ev_role := r; ev_type := "error";
                    ev_data := JDict [("message",
                                       JStr ("Max iterations (" +:+ Str.of_nat n
                                             +:+ ") reached"))];
                    ev_timestamp := ts |}.

(** From [s] to [s'] the agent kept its configuration and its events grew
    by events of the loop. *)
Definition emits (s s' : State W) : Prop :=
  same_config (fst s) (fst s') /\
  exists new, _events (fst s') = _events (fst s) ++ new /\
              Forall (loop_event (role (fst s))) new.

(** The status event that ends a run. *)
Definition completed_event (a : BaseAgent (W := W)) (w : W) : AgentEvent :=
  emitted a w "status_change" (status a "_completed").

(** A count of the requests made to the decision-maker, kept in the world:
    every request adds one, and neither a tool handler nor the event
    callback touches it. *)
Section Requests.

Variable requests : W -> nat.

Definition counts_requests (a : BaseAgent (W := W)) : Prop :=
  forall kw f w r f' w', _client a kw (f, w) = (r, (f', w')) -> requests w' = S (requests w).

Definition handlers_do_not_count (a : BaseAgent (W := W)) : Prop :=
  forall t, In t (tools a) ->
  forall input f w r f' w', handler t input (f, w) = (r, (f', w')) -> requests w' = requests w.

Definition callback_does_not_count (a : BaseAgent (W := W)) : Prop :=
  forall cb, _event_callback a = Some cb -> forall ev w, requests (cb ev w) = requests w.

End Requests.

End Notions.

End LoopSpec.

(** * Notions for further properties of the file system and the sandbox *)

Module FilesSpec.

(** [w'] is [w] but for its files. *)
Definition same_but_files (w w' : OS.World) : Prop :=
  OS.with_files w (OS.files w') = w'.

(** From [f] to [f'] directories were made where nothing was, and nothing
    else changed. *)
Definition adds_dirs (f f' : gmap (list string) OS.node) : Prop :=
  SandboxSpec.grows f f' /\
  forall c n, OS.node_at f' c = Some n ->
              OS.node_at f c = Some n \/ (OS.node_at f c = None /\ n = OS.Dir).

(** The directory that [destroy] removes: the parent of a workspace named
    [repo], else the workspace. *)
Definition destroyed_root (sandbox : Sandbox.Sandbox) : Path :=
  let ws := Sandbox.workspace sandbox in
  if String.eqb (default "" (last (parts ws))) "repo" then parent ws else ws.

End FilesSpec.

(** * Notions for further properties of the verifier and of the event bus *)

Module VerifierSpec.

(** A string of white-space characters. *)
Definition all_space (s : string) : bool :=
  match Str.lstrip s with EmptyString => true | _ => false end.

(** What the six patterns look for in a normalized command: one of three
    words anywhere; [gh] before a white-space character; [git] between the
    start or a white-space character and a white-space character; [create],
    white space and [pr]. *)
Inductive mentions : string -> Prop :=
| mentions_word word pre post :
    In word ["gitkraken"; "commit"; "push"] -> mentions (pre +:+ word +:+ post)
| mentions_gh pre sp post :
    Str.isspace sp = true -> mentions (pre +:+ "gh" +:+ sp +:+ post)
| mentions_git_first sp post :
    Str.isspace sp = true -> mentions ("git" +:+ sp +:+ post)
| mentions_git pre sp0 sp post :
    Str.isspace sp0 = true -> Str.isspace sp = true ->
    mentions (pre +:+ sp0 +:+ "git" +:+ sp +:+ post)
| mentions_create_pr pre sp post :
    sp <> "" -> all_space sp = true ->
    mentions (pre +:+ "create" +:+ sp +:+ "pr" +:+ post).

End VerifierSpec.

Module BusSpec.

Import EventBus.

(** The subscriber table of a bus holds no empty list, no queue twice in a
    list, and only queues that have been allocated. *)
Definition well_formed (b : Bus) : Prop :=
  forall sid l, _subscribers b !! sid = Some l ->
                l <> [] /\ NoDup l /\ Forall (fun q => q < allocated b) l.

(** The generator and the bus after a schedule. *)
Fixpoint after (schedule : list Action) (g : Generator) (b : Bus) : Generator * Bus :=
  match schedule with
  | [] => (g, b)
  | Publish sid ev :: rest => after rest g (publish sid ev b)
  | Begin :: rest => let (g', b') := begin g b in after rest g' b'
  | Next ts :: rest => let '(_, g', b') := anext ts g b in after rest g' b'
  end.

(** The generator holds the queue [q] for the session [sid]. *)
Definition holds (g : Generator) (sid : string) (q : nat) : Prop :=
  g = Waiting sid q \/ g = Looping sid q \/ g = Handling sid q.

(** Where a subscription to [sid] that began on the bus [b] stands: not
    begun, and the table and the count of queues are those of [b]; or under
    way with the queue made first, and the table is that of [b] with this
    queue; or over, and the table is that of [b]. *)
Definition stands (sid : string) (b : Bus) (g : Generator) (b' : Bus) : Prop :=
  well_formed b' /\
  ((g = subscribe sid /\ _subscribers b' = _subscribers b /\ allocated b' = allocated b) \/
   (holds g sid (allocated b) /\
    _subscribers b' = _subscribers (snd (register sid b)) /\
    allocated b' = S (allocated b)) \/
   (g = Exhausted /\ _subscribers b' = _subscribers b)).

End BusSpec.

(** * Notions for further properties of the controller *)

Module RunSpec.

Import Controller ControllerSpec.

Section Notions.

Context `{!Sandbox.SandboxProvider World} `{!Clock World} `{!JsonModule}.
Variable settings : Settings.
Variable _new_id : World -> string.
Variable create_orchestrator_agent :
  Sandbox.Sandbox -> string -> string -> (Agent.AgentEvent -> World -> World) ->
  (string -> string -> string -> option json -> M World string) ->
  Agent.BaseAgent (W := World).

(** The [try] block of [run]. *)
Definition attempt (repo_url prompt : string) : Method json :=
  start_agent settings _new_id create_orchestrator_agent repo_url ;;
  output <- on_agent (Agent.run (JDict [("prompt", JStr prompt);
                                        ("repo_url", JStr repo_url)])) ;;
  result <- record_output settings _new_id "changes" output ;;
  keep_alive ;;
  ret result.

(** The two [except] clauses of [run]. *)
Definition clauses_of_run : list ((exn -> bool) * (exn -> Method json)) :=
  [ (is_CancelledError,
     fun _ =>
       on_world (modify (fun w => with_interrupted w true)) ;;
       end_interrupted);
    (is_Exception,
     fun exc =>
       w <- world ;;
       if _interrupted w then end_interrupted
       else
         _emit_event "orchestrator" "error" (JDict [("message", JStr (exn_str exc))]) ;;
         _persist_event "orchestrator" "error" (JDict [("message", JStr (exn_str exc))]) ;;
         _update_run_status RunStatus.failed ;;
         _update_session_status SessionStatus.failed ;;
         ret (JDict [("status", JStr "failed"); ("error", JStr (exn_str exc))])) ].

(** The [try] block of [continue_run] and its two [except] clauses. *)
Definition followup (user_message : string) : Method json :=
  _update_run_status RunStatus.running ;;
  _update_session_status SessionStatus.running ;;
  _emit_event "orchestrator" "status_change" (JDict [("status", JStr "running")]) ;;
  _emit_event "user" "user_message" (JDict [("content", JStr user_message)]) ;;
  _persist_event "user" "user_message" (JDict [("content", JStr user_message)]) ;;
  output <- on_agent (Agent.resume user_message) ;;
  record_output settings _new_id "changes_followup" output.

Definition clauses_of_continue_run : list ((exn -> bool) * (exn -> Method json)) :=
  [ (is_CancelledError,
     fun _ =>
       on_world (modify (fun w => with_interrupted w true)) ;;
       end_interrupted);
    (is_Exception,
     fun exc =>
       _emit_event "orchestrator" "error" (JDict [("message", JStr (exn_str exc))]) ;;
       _update_run_status RunStatus.failed ;;
       _update_session_status SessionStatus.failed ;;
       ret (JDict [("error", JStr (exn_str exc))])) ].

(** A method that leaves the identifiers of the controller alone. *)
Definition keeps_ids {A} (m : Method A) : Prop :=
  forall (s : CState) r s', m s = (r, s') -> same_ids (fst s) (fst s').

(** The rows that the controller stores for its own events and for the
    events of its agent. *)
Definition error_row (o : Orchestrator) (message : string) : Event :=
  {| event_run_id := run_id o; event_role := "orchestrator"; event_type := "error";
     event_data := JDict [("message", JStr message)] |}.

Definition interrupted_row (o : Orchestrator) : Event :=
  {| event_run_id := run_id o; event_role := "orchestrator";
     event_type := "status_change"; event_data := interrupted_status |}.

Definition row_of (o : Orchestrator) (e : Agent.AgentEvent) : Event :=
  {| event_run_id := run_id o; event_role := Agent.ev_role e;
     event_type := Agent.ev_type e; event_data := Agent.ev_data e |}.

(** The rows of the run and of the session are in the store. *)
Definition rows_exist (o : Orchestrator) (w : World) : Prop :=
  is_Some (runs (db w) !! run_id o) /\ is_Some (sessions (db w) !! session_id o).

(** The sandbox has no hand in the store: a command leaves it alone. *)
Definition commands_keep_store : Prop :=
  forall sb cmd timeout (w : World) r w',
    Sandbox.run_command sb cmd timeout w = (r, w') -> db w' = db w.

End Notions.

End RunSpec.

(** * Further scenarios *)

Module Cases.

Import Sandbox Agent Scenario.

(** A world that counts the requests made to the decision-maker. *)
Record Metered : Type := { meter : nat; tick : Z }.

#[export] Instance metered_clock : Clock Metered :=
  {| now := tick; isoformat := fun _ => "2025-01-01T00:00:00+00:00" |}.

Definition metered0 : Metered := {| meter := 0; tick := 0 |}.

(** A decision-maker that asks for the tool [plan] whatever it is told, and
    is counted. *)
Definition counting_client : Kwargs -> Task (W := Metered) Response :=
  fun kw s =>
    (inr {| content := [ToolUseBlock ("toolu_" +:+ Str.of_nat (length (kw_messages kw)))
                                     "plan" (JDict [])] |},
     (fst s, {| meter := S (meter (snd s)); tick := tick (snd s) |})).

Definition counting_agent : BaseAgent (W := Metered) :=
  let agent : BaseAgent (W := Metered) := __init__ counting_client [] in
  {| role := "planner"; system_prompt := ""; max_iterations := 3;
     model := model agent; tools := []; _events := []; _event_callback := None;
     _client := counting_client; _messages := []; flags := flags agent |}.

(** A decision-maker whose answer comes back after [interrupt] was called. *)
Definition late_answer : Response := {| content := [TextBlock "All done."] |}.

Definition interrupted_while_asked : Kwargs -> Task (W := OS.World) Response :=
  fun _ => interrupt ;; ret late_answer.

Definition asked0 : BaseAgent (W := OS.World) := __init__ interrupted_while_asked [].

(** An agent with the [complete] tool, and a response that ends with a call
    of it. *)
Definition completes : Response :=
  {| content := [ TextBlock "The change is in place.";
                  ToolUseBlock "toolu_9" "complete"
                               (JDict [("summary", JStr "Fixed the bug")]) ] |}.

Definition finisher0 : BaseAgent (W := OS.World) :=
  __init__ (scripted [completes]) [AgentFactory.complete_tool].

(** A final answer with a fence that is never closed. *)
Definition unclosed : Response :=
  {| content := [ TextBlock "Result: ```json {summary: 1}" ] |}.

Definition fenced0 : BaseAgent (W := OS.World) := __init__ (scripted [unclosed]) [].

(** An agent whose history ends with a user turn. *)
Definition waiting_agent : BaseAgent (W := OS.World) :=
  with_messages implementer0 [ {| msg_role := "user"; msg_content := CStr "Fix the bug" |} ].

(** The host with a file of two bytes that are not UTF-8. *)
Definition two_bytes : string := String (ascii_of_nat 255) (String (ascii_of_nat 216) "").

Definition binary_host : OS.World :=
  OS.with_files host0 (<[ ["tmp"; "ramp_x"; "repo"; "logo.png"] := OS.File two_bytes ]> files0).

(** The no-break space U+00A0 and the ideographic space U+3000. *)
Definition nbsp : string := String (ascii_of_nat 194) (String (ascii_of_nat 160) "").
Definition ideographic_space : string :=
  String (ascii_of_nat 227) (String (ascii_of_nat 128) (String (ascii_of_nat 128) "")).

(** A subscriber asks for an item, an event is published while it waits,
    the wait is over; it asks again and nothing comes; it asks once more. *)
Definition watched : list EventBus.Action :=
  [ EventBus.Begin; EventBus.Publish "s1" (JStr "hello"); EventBus.Next "12:00";
    EventBus.Next "12:01"; EventBus.Next "12:02" ].

(** A bus with one subscriber to the session [s1]. *)
Definition subscribed_bus : EventBus.Bus := snd (EventBus.register "s1" EventBus.__init__).

(** The work of a run whose decision-maker has nothing to say, and of a run
    that is cancelled while the decision-maker is asked. *)
Definition speechless_attempt :=
  RunSpec.attempt settings0 new_id0 (orchestrator_agent0 (scripted []))
    "https://github.com/acme/app" "Improve the app" (controller0, world0).

Definition cancelled_client : Kwargs -> Task (W := Controller.World) Response :=
  fun _ => raise (Raise CancelledError "").

Definition cancelled_attempt :=
  RunSpec.attempt settings0 new_id0 (orchestrator_agent0 cancelled_client)
    "https://github.com/acme/app" "Improve the app" (controller0, world0).

(** A controller whose agent has nothing to say to a follow-up. *)
Definition speechless_controller : Controller.Orchestrator :=
  Controller.with_agent controller0
    (Some (orchestrator_agent0 (scripted []) sandbox0 "https://github.com/acme/app" ""
             (fun _ w => w) (fun _ _ _ _ => ret ""))).

Definition speechless_followup :=
  RunSpec.followup settings0 new_id0 "Also update the docs" (speechless_controller, world0).

End Cases.

(** * Sanity checks of the model on concrete inputs *)

Example len_ascii : Str.len "hello" = 5.
Proof. reflexivity. Qed.

Example upto_ascii : Str.upto 3 "hello" = "hel".
Proof. reflexivity. Qed.

Example upto_two_bytes :
  Str.upto 1 (String (ascii_of_nat 195) (String (ascii_of_nat 169) "b"))
  = String (ascii_of_nat 195) (String (ascii_of_nat 169) "").
Proof. reflexivity. Qed.

Example strip_lower : str_lower (Str.strip "  Git Push  ") = "git push".
Proof. reflexivity. Qed.

(** The no-break space and the ideographic space are white space. *)
Example strip_unicode :
  Str.strip (" git" +:+ Cases.nbsp +:+ "status" +:+ Cases.ideographic_space)
  = "git" +:+ Cases.nbsp +:+ "status".
Proof. reflexivity. Qed.

Example gh_before_stripped_space :
  existsb (fun p => Re.search p (str_lower (Str.strip ("gh " +:+ Cases.nbsp))))
          Verifier._FORBIDDEN_COMMAND_PATTERNS = false.
Proof. reflexivity. Qed.

Example git_before_nbsp :
  existsb (fun p => Re.search p (str_lower (Str.strip ("git" +:+ Cases.nbsp +:+ "status"))))
          Verifier._FORBIDDEN_COMMAND_PATTERNS = true.
Proof. reflexivity. Qed.

Example of_nat_120 : Str.of_nat 120 = "120".
Proof. reflexivity. Qed.

Example split_path : Str.split_on "/" "a//b/" = ["a"; ""; "b"; ""].
Proof. reflexivity. Qed.

Example parse_abs : parse "/tmp/ramp_x/repo" = {| root := "/"; parts := ["tmp"; "ramp_x"; "repo"] |}.
Proof. reflexivity. Qed.

Example parse_dots : parse "./a//b/../c/" = {| root := ""; parts := ["a"; "b"; ".."; "c"] |}.
Proof. reflexivity. Qed.

Example join_abs : joinpath (parse "/ws") "/etc/passwd" = parse "/etc/passwd".
Proof. reflexivity. Qed.

Example join_dotdot :
  to_str (joinpath (parse "/ws") "../../etc/passwd") = "/ws/../../etc/passwd".
Proof. reflexivity. Qed.

Example forbidden_git_push :
  existsb (fun p => Re.search p (str_lower (Str.strip "  Git push origin main ")))
          Verifier._FORBIDDEN_COMMAND_PATTERNS = true.
Proof. reflexivity. Qed.

Example allowed_pytest :
  existsb (fun p => Re.search p (str_lower (Str.strip "pytest -q")))
          Verifier._FORBIDDEN_COMMAND_PATTERNS = false.
Proof. reflexivity. Qed.

Example create_pr_spaces :
  Re.search (Re.Seq (Re.lit "create") (Re.Seq (Re.Plus Re.Space) (Re.lit "pr")))
            "please create   pr" = true.
Proof. reflexivity. Qed.

Example digit_is_not_git :
  Re.search (Re.Seq (Re.Alt Re.Bol Re.Space) (Re.Seq (Re.lit "git") Re.Space))
            "digit 3" = false.
Proof. reflexivity. Qed.

Example dumps_dict :
  PyJson.dumps (JDict [("prompt", JStr "hi"); ("n", JInt 3); ("l", JList [JNone; JBool true])])
  = "{" +:+ PyJson.dq +:+ "prompt" +:+ PyJson.dq +:+ ": " +:+ PyJson.dq +:+ "hi" +:+ PyJson.dq
    +:+ ", " +:+ PyJson.dq +:+ "n" +:+ PyJson.dq +:+ ": 3, "
    +:+ PyJson.dq +:+ "l" +:+ PyJson.dq +:+ ": [null, true]}".
Proof. reflexivity. Qed.

Example loads_dumps :
  PyJson.loads (PyJson.dumps (JDict [("summary", JStr "done"); ("pr_number", JInt 12);
                                     ("files", JList [JStr "a.py"; JStr "b.py"])]))
  = Some (JDict [("summary", JStr "done"); ("pr_number", JInt 12);
                 ("files", JList [JStr "a.py"; JStr "b.py"])]).
Proof. reflexivity. Qed.

Example loads_empty : PyJson.loads "" = None.
Proof. reflexivity. Qed.

Example loads_prose : PyJson.loads "All done." = None.
Proof. reflexivity. Qed.

(** * Properties of the executor *)

Module AgentFacts.

Import Agent AgentSpec.

Lemma bracketed_app l1 l2 : bracketed l1 -> bracketed l2 -> bracketed (l1 ++ l2).
Proof.
  induction 1 as [| i rest _ IH]; intros H2; simpl; [assumption |].
  constructor. now apply IH.
Qed.

Lemma bracketed_count_le l : bracketed l ->
  forall i, count Result i l = count Call i l.
Proof.
  induction 1 as [| j rest _ IH]; intros i; [reflexivity |].
  unfold count in *. simpl. destruct (String.eqb j i); simpl; now rewrite IH.
Qed.

Lemma count_call_ids i l : count Call i l = length (List.filter (String.eqb i) (call_ids l)).
Proof.
  unfold count, call_ids. induction l as [| [k j] l IH]; [reflexivity |].
  simpl. destruct k; simpl.
  - rewrite (String.eqb_sym j i). destruct (String.eqb i j); simpl; now rewrite IH.
  - exact IH.
Qed.

Lemma NoDup_filter_eqb i (l : list string) :
  List.NoDup l -> List.In i l -> length (List.filter (String.eqb i) l) = 1.
Proof.
  induction 1 as [| x l Hx Hnd IH]; intros Hin; [destruct Hin |].
  simpl. destruct (String.eqb_spec i x) as [-> | Hne].
  - simpl. f_equal.
    assert (Hnone : forall l', ~ List.In x l' -> List.filter (String.eqb x) l' = []).
    { induction l' as [| y l' IH']; intros Hy; [reflexivity |].
      simpl. destruct (String.eqb_spec x y) as [-> | _].
      - exfalso. apply Hy. now left.
      - apply IH'. intros H. apply Hy. now right. }
    now rewrite Hnone.
  - destruct Hin as [-> | Hin]; [congruence | now apply IH].
Qed.

(** With distinct call identifiers, a call has exactly one result. *)
Lemma bracketed_exactly_one l i :
  bracketed l -> List.NoDup (call_ids l) -> List.In (Call, i) l -> count Result i l = 1.
Proof.
  intros Hb Hnd Hin. rewrite (bracketed_count_le l Hb), count_call_ids.
  apply NoDup_filter_eqb; [assumption |].
  unfold call_ids. clear Hb Hnd. induction l as [| [k j] l IH]; [destruct Hin |].
  destruct Hin as [Heq | Hin].
  - inversion Heq; subst. simpl. now left.
  - simpl. destruct k; simpl; [right |]; now apply IH.
Qed.

(** The result of a call comes after it, with nothing in between. *)
Lemma bracketed_follows l i :
  bracketed l -> List.In (Call, i) l ->
  exists before after, l = before ++ (Call, i) :: (Result, i) :: after /\ bracketed before.
Proof.
  induction 1 as [| j rest Hb IH]; intros Hin; [destruct Hin |].
  destruct Hin as [Heq | [Heq | Hin]].
  - inversion Heq; subst. exists [], rest. split; [reflexivity | constructor].
  - discriminate Heq.
  - destruct (IH Hin) as (b & a & -> & Hbb).
    exists ((Call, j) :: (Result, j) :: b), a. split; [reflexivity | now constructor].
Qed.

Lemma brackets_of_bracketed blocks : bracketed (brackets_of blocks).
Proof.
  induction blocks as [| b bs IH]; [constructor |].
  destruct b; simpl; try assumption. now constructor.
Qed.

Lemma tool_events_app l1 l2 : tool_events (l1 ++ l2) = tool_events l1 ++ tool_events l2.
Proof. unfold tool_events. apply omap_app. Qed.

Section Facts.

Context {W : Type} `{!Clock W} `{!JsonModule}.


Lemma emit_eq type_ data (a : BaseAgent) (w : W) :
  _emit type_ data (a, w) =
  (inr (emitted a w type_ data),
   (with_events a (_events a ++ [emitted a w type_ data]),
    notified a w (emitted a w type_ data))).
Proof. reflexivity. Qed.

Lemma for_block_tool_use id n input acc (s : State W) :
  for_block (ToolUseBlock id n input) acc s =
  match (match _find_tool (fst s) n with
         | Some t => dispatch t input
         | None => ret (unknown_tool n, JStr (unknown_tool n))
         end) (called id n input s) with
  | (inl e, s1) => (inl e, s1)
  | (inr (result_str, tool_content), s1) =>
      (inr (fst acc, snd acc ++ [tool_result_entry id tool_content]),
       answered id n result_str s1)
  end.
Proof.
  destruct s as [a w]. unfold for_block, bind, self, gets. simpl.
  destruct (_find_tool a n) as [t |].
  - destruct (dispatch t input _) as [[e | [rs tc]] [a2 w2]]; reflexivity.
  - reflexivity.
Qed.

Lemma await_events {A} (t : Task A) (s : State W) r s' :
  await t s = (r, s') -> same_events s s' /\ tools (fst s') = tools (fst s).
Proof.
  unfold await, zoom. destruct (t _) as [r0 [f w']]. intros [= <- <-]. now split.
Qed.

Lemma await_agent {A} (t : Task A) (s : State W) r s' :
  await t s = (r, s') -> fst s' = with_flags (fst s) (flags (fst s')).
Proof.
  unfold await, zoom. destruct (t _) as [r0 [f w']]. intros [= <- <-]. reflexivity.
Qed.

Lemma dispatch_events t input (s : State W) r s' :
  dispatch t input s = (r, s') ->
  same_events s s' /\
  match r with inl e => is_Exception e = false | inr _ => True end.
Proof.
  unfold dispatch, try_except, bind.
  destruct (await (handler t input) s) as [[e | v] s1] eqn:Ha;
    apply await_events in Ha as [Ha _].
  - destruct (is_Exception e) eqn:He.
    + unfold ret. intros [= <- <-]. now split.
    + intros [= <- <-]. now split.
  - destruct v; unfold ret; intros [= <- <-]; now split.
Qed.

Lemma tool_view_other (ev : AgentEvent) :
  String.eqb (ev_type ev) "tool_call" = false ->
  String.eqb (ev_type ev) "tool_result" = false ->
  tool_events [ev] = [].
Proof. intros H1 H2. unfold tool_events, tool_view. simpl. now rewrite H1, H2. Qed.

(** What one block adds to the events: nothing that concerns tools, or
    the call and its result; a handler that raises past [except Exception]
    leaves the call alone. *)
Lemma for_block_events b acc (a : BaseAgent) (w : W) r s' :
  for_block b acc (a, w) = (r, s') ->
  exists new,
    _events (fst s') = _events a ++ new /\
    match r with
    | inr _ => tool_events new = brackets_of [b]
    | inl e => is_Exception e = false /\
               exists id n input, b = ToolUseBlock id n input /\
                                  tool_events new = [(Call, id)]
    end.
Proof.
  destruct b as [text | id n input | ty].
  - simpl. intros [= <- <-]. eexists. split; reflexivity.
  - rewrite for_block_tool_use.
    assert (Hev : forall s1 : State W, same_events (called id n input (a, w)) s1 ->
              _events (fst s1) =
              _events a ++ [emitted a w "tool_call" (call_data id n input)]).
    { intros s1 Hs. exact Hs. }
    destruct (_find_tool (fst (a, w)) n) as [t |].
    + destruct (dispatch t input _) as [[e | [rs tc]] s1] eqn:Hd;
        apply dispatch_events in Hd as [Hsame He]; apply Hev in Hsame.
      * intros [= <- <-]. eexists. split; [exact Hsame |].
        split; [assumption |]. now exists id, n, input.
      * intros [= <- <-]. simpl. rewrite Hsame, <- app_assoc.
        eexists. split; reflexivity.
    + unfold ret. intros [= <- <-]. simpl. rewrite <- app_assoc.
      eexists. split; reflexivity.
  - simpl. unfold ret. intros [= <- <-]. exists []. split; [now rewrite app_nil_r | reflexivity].
Qed.

Lemma brackets_of_cons b bs : brackets_of (b :: bs) = brackets_of [b] ++ brackets_of bs.
Proof. unfold brackets_of. simpl. now rewrite app_nil_r. Qed.

(** The blocks of one response. *)
Lemma for_blocks_events blocks : forall acc (a : BaseAgent) (w : W) r s',
  for_blocks blocks acc (a, w) = (r, s') ->
  exists new,
    _events (fst s') = _events a ++ new /\
    match r with
    | inr _ => tool_events new = brackets_of blocks
    | inl e => is_Exception e = false /\
               exists done id, tool_events new = brackets_of done ++ [(Call, id)]
    end.
Proof.
  induction blocks as [| b bs IH]; intros acc a w r s'; simpl.
  - unfold ret. intros [= <- <-]. exists []. split; [now rewrite app_nil_r | reflexivity].
  - unfold bind.
    destruct (for_block b acc (a, w)) as [[e | acc'] [a1 w1]] eqn:Hb;
      apply for_block_events in Hb as (new1 & Hev1 & Hr1); simpl in Hev1.
    + intros [= <- <-]. exists new1. split; [assumption |].
      destruct Hr1 as (He & id & n & input & _ & Hn). split; [assumption |].
      exists [], id. assumption.
    + intros Hrest. apply IH in Hrest as (new2 & Hev2 & Hr2).
      exists (new1 ++ new2). split.
      * rewrite Hev2, Hev1. now rewrite app_assoc.
      * rewrite tool_events_app, Hr1. destruct r as [e | r].
        -- destruct Hr2 as (He & done & id & Hn). split; [assumption |].
           exists (b :: done), id. rewrite Hn, (brackets_of_cons b done).
           now rewrite app_assoc.
        -- rewrite Hr2. symmetry. apply brackets_of_cons.
Qed.

Lemma update_eq (f : BaseAgent (W := W) -> BaseAgent) (s : State W) :
  update f s = (inr tt, (f (fst s), snd s)).
Proof. reflexivity. Qed.

Lemma output_eq (s : State W) :
  output s = (inr {| out_role := role (fst s); out_result := _result (flags (fst s));
                     out_events := _events (fst s) |}, s).
Proof. reflexivity. Qed.

(** The code after the [while], in its two cases. *)
Lemma after_while_done (a : BaseAgent) (w : W) :
  _done (flags a) = true ->
  after_while (a, w) =
  (let ev := emitted a w "status_change" (status a "_completed") in
   (inr {| out_role := role a; out_result := _result (flags a);
           out_events := _events a ++ [ev] |},
    (with_events a (_events a ++ [ev]), notified a w ev))).
Proof. intros Hd. unfold after_while, bind, self, gets. simpl. now rewrite Hd. Qed.

Lemma after_while_not_done (a : BaseAgent) (w : W) :
  _done (flags a) = false ->
  after_while (a, w) =
  (let ev := emitted a w "error" (max_iterations_error a) in
   (inr {| out_role := role a;
           out_result := JDict [("error", JStr "max_iterations_reached")];
           out_events := _events a ++ [ev] |},
    (with_events a (_events a ++ [ev]), notified a w ev))).
Proof. intros Hd. unfold after_while, bind, self, gets. simpl. now rewrite Hd. Qed.

Lemma after_while_events (a : BaseAgent) (w : W) :
  exists out s' ev,
    after_while (a, w) = (inr out, s') /\
    out_events out = _events a ++ [ev] /\ tool_events [ev] = [].
Proof.
  destruct (_done (flags a)) eqn:Hd.
  - rewrite (after_while_done a w Hd). simpl. eexists _, _, _.
    split; [reflexivity |]. split; reflexivity.
  - rewrite (after_while_not_done a w Hd). simpl. eexists _, _, _.
    split; [reflexivity |]. split; reflexivity.
Qed.

(** One pass through the body of the loop. *)
Lemma body_events schema (a : BaseAgent) (w : W) r s' :
  body schema (a, w) = (r, s') ->
  exists new,
    _events (fst s') = _events a ++ new /\
    match r with
    | inr step =>
        bracketed (tool_events new) /\
        match step with
        | Return out => out_events out = _events (fst s')
        | _ => True
        end
    | inl e => True
    end.
Proof.
  unfold body, bind at 1, self at 1, gets at 1. cbn [fst snd].
  destruct (_interrupted (flags a)).
  { unfold break_interrupted, bind, ret. rewrite update_eq. intros [= <- <-].
    exists []. simpl. split; [now rewrite app_nil_r |]. split; [constructor | exact I]. }
  unfold bind at 1.
  destruct (await _ (a, w)) as [[e | response] [a1 w1]] eqn:Ha;
    apply await_events in Ha as [Ha _]; unfold same_events in Ha; simpl in Ha.
  { intros [= <- <-]. exists []. simpl. split; [now rewrite app_nil_r | exact I]. }
  unfold bind at 1, self at 1, gets at 1. cbn [fst snd].
  destruct (_interrupted (flags a1)).
  { unfold break_interrupted, bind, ret. rewrite update_eq. intros [= <- <-].
    exists []. simpl. split; [now rewrite app_nil_r, Ha |]. split; [constructor | exact I]. }
  unfold bind at 1.
  destruct (for_blocks (content response) ([], []) (a1, w1)) as [[e | [texts results]] [a2 w2]] eqn:Hf;
    apply for_blocks_events in Hf as (new & Hev & Hr); simpl in Hev; rewrite Ha in Hev.
  { intros [= <- <-]. exists new. split; [assumption | exact I]. }
  destruct (existsb is_tool_use (content response)).
  { unfold bind, ret. rewrite update_eq. intros [= <- <-]. exists new. simpl.
    split; [assumption |]. split; [| exact I]. rewrite Hr. apply brackets_of_bracketed. }
  unfold bind at 1, self at 1, gets at 1. cbn [fst snd]. unfold bind at 1.
  assert (Hb : bracketed (tool_events new)) by (rewrite Hr; apply brackets_of_bracketed).
  destruct (_done (flags a2)).
  - unfold ret at 1. unfold bind, self, gets. cbn [fst snd]. rewrite emit_eq, output_eq.
    unfold ret. intros [= <- <-]. simpl. rewrite Hev, <- app_assoc. eexists. split; [reflexivity |].
    rewrite tool_events_app. simpl. rewrite app_nil_r. now split.
  - destruct (_parse_output _) as [e | v].
    + unfold raise. intros [= <- <-]. exists new. split; [assumption | exact I].
    + rewrite update_eq. unfold bind, self, gets. cbn [fst snd]. rewrite emit_eq, output_eq.
      unfold ret. intros [= <- <-]. simpl. rewrite Hev, <- app_assoc. eexists.
      split; [reflexivity |]. rewrite tool_events_app. simpl. rewrite app_nil_r. now split.
Qed.

(** The whole loop: if it returns, the tool events it added are calls
    answered one by one. *)
Lemma while_events schema n : forall (a : BaseAgent) (w : W) out s',
  while_ schema n (a, w) = (inr out, s') ->
  exists new, out_events out = _events a ++ new /\ bracketed (tool_events new).
Proof.
  induction n as [| n IH]; intros a w out s'; simpl.
  - destruct (after_while_events a w) as (out' & s1 & ev & -> & Hout & Hev).
    intros [= <- <-]. exists [ev]. split; [assumption |]. rewrite Hev. constructor.
  - unfold bind at 1, self at 1, gets at 1. cbn [fst snd].
    destruct (_done (flags a)).
    + destruct (after_while_events a w) as (out' & s1 & ev & -> & Hout & Hev).
      intros [= <- <-]. exists [ev]. split; [assumption |]. rewrite Hev. constructor.
    + unfold bind.
      destruct (body schema (a, w)) as [[e | step] [a1 w1]] eqn:Hb; [discriminate |].
      apply body_events in Hb as (new & Hev & Hbr & Hstep). simpl in Hev.
      destruct step as [| | out'].
      * intros Hw. apply IH in Hw as (new2 & Hout & Hbr2).
        exists (new ++ new2). rewrite Hout, Hev, app_assoc. split; [reflexivity |].
        rewrite tool_events_app. now apply bracketed_app.
      * destruct (after_while_events a1 w1) as (out' & s1 & ev & -> & Hout & Hev').
        intros [= <- <-]. exists (new ++ [ev]). rewrite Hout, Hev, app_assoc.
        split; [reflexivity |]. rewrite tool_events_app, Hev', app_nil_r. assumption.
      * unfold ret. intros [= <- <-]. exists new. simpl in Hstep. rewrite Hstep. now split.
Qed.

(** ** The body of the loop, case by case *)

Lemma body_continue schema (s : State W) response s1 texts results s2 :
  _interrupted (flags (fst s)) = false ->
  await (_client (fst s) (request schema (fst s))) s = (inr response, s1) ->
  _interrupted (flags (fst s1)) = false ->
  existsb is_tool_use (content response) = true ->
  for_blocks (content response) ([], []) s1 = (inr (texts, results), s2) ->
  body schema s = (inr Continue, extended response results s2).
Proof.
  intros Hi Ha Hi1 Ht Hf. destruct s as [a w]. destruct s1 as [a1 w1].
  unfold body, bind at 1, self at 1, gets at 1. cbn [fst snd] in *. rewrite Hi.
  unfold bind at 1. fold (request schema a). rewrite Ha.
  unfold bind at 1, self at 1, gets at 1. cbn [fst snd]. rewrite Hi1.
  unfold bind at 1. rewrite Hf, Ht. unfold bind, ret. rewrite update_eq. reflexivity.
Qed.

Lemma for_block_text text acc (a : BaseAgent) (w : W) :
  for_block (TextBlock text) acc (a, w) =
  (let ev := emitted a w "agent_message" (JDict [("content", JStr text)]) in
   (inr (fst acc ++ [text], snd acc),
    (with_events a (_events a ++ [ev]), notified a w ev))).
Proof. reflexivity. Qed.

(** Without a tool-use block nothing is awaited: the flags stay, the texts
    are collected. *)
Lemma for_blocks_no_tool_use blocks : forall acc (s : State W),
  existsb is_tool_use blocks = false ->
  exists s',
    for_blocks blocks acc s = (inr (fst acc ++ texts_of blocks, snd acc), s') /\
    flags (fst s') = flags (fst s) /\ role (fst s') = role (fst s) /\
    exists new, _events (fst s') = _events (fst s) ++ new.
Proof.
  induction blocks as [| b bs IH]; intros acc s Hn.
  - exists s. simpl. rewrite app_nil_r. destruct acc. unfold ret. simpl.
    repeat split. exists []. now rewrite app_nil_r.
  - simpl in Hn. apply orb_false_iff in Hn as [Hb Hn].
    destruct b as [text | id n input | ty]; [| discriminate Hb |].
    + destruct s as [a w]. cbn [for_blocks texts_of omap]. unfold bind at 1.
      rewrite for_block_text. cbv zeta.
      destruct (IH (fst acc ++ [text], snd acc)
                   (with_events a (_events a ++ [emitted a w "agent_message"
                                                   (JDict [("content", JStr text)])]),
                    notified a w (emitted a w "agent_message"
                                    (JDict [("content", JStr text)]))) Hn)
        as (s' & -> & Hfl & Hro & new & Hev).
      exists s'. cbn [fst snd] in *. split.
      { change (texts_of (TextBlock text :: bs)) with ([text] ++ texts_of bs).
        now rewrite app_assoc. }
      split; [assumption |]. split; [assumption |].
      eexists. simpl in Hev. rewrite Hev, <- app_assoc. reflexivity.
    + cbn [for_blocks for_block]. unfold bind at 1. unfold ret at 1.
      destruct (IH acc s Hn) as (s' & -> & Hrest).
      exists s'. split; [reflexivity | assumption].
Qed.

Lemma for_blocks_app pre post acc (s : State W) :
  for_blocks (pre ++ post) acc s =
  match for_blocks pre acc s with
  | (inr acc1, s1) => for_blocks post acc1 s1
  | (inl e, s1) => (inl e, s1)
  end.
Proof.
  revert acc s. induction pre as [| b pre IH]; intros acc s; [reflexivity |].
  simpl. unfold bind. destruct (for_block b acc s) as [[e | acc1] s1]; [reflexivity |].
  apply IH.
Qed.

Lemma for_block_results b acc (s : State W) r s' :
  for_block b acc s = (inr r, s') -> exists more, snd r = snd acc ++ more.
Proof.
  destruct b as [text | id n input | ty].
  - destruct s. simpl. intros [= <- <-].
    exists []. simpl. now rewrite app_nil_r.
  - rewrite for_block_tool_use.
    destruct ((match _find_tool (fst s) n with
               | Some t => dispatch t input
               | None => ret (unknown_tool n, JStr (unknown_tool n))
               end) (called id n input s)) as [[e | [rs tc]] s1]; [discriminate |].
    intros [= <- <-]. eexists. reflexivity.
  - simpl. unfold ret. intros [= <- <-]. exists []. now rewrite app_nil_r.
Qed.

Lemma for_blocks_results blocks : forall acc (s : State W) r s',
  for_blocks blocks acc s = (inr r, s') -> exists more, snd r = snd acc ++ more.
Proof.
  induction blocks as [| b bs IH]; intros acc s r s'; simpl.
  - unfold ret. intros [= <- <-]. exists []. now rewrite app_nil_r.
  - unfold bind. destruct (for_block b acc s) as [[e | acc1] s1] eqn:Hb; [discriminate |].
    intros Hrest. apply for_block_results in Hb as (m1 & Hm1).
    apply IH in Hrest as (m2 & Hm2). exists (m1 ++ m2).
    now rewrite Hm2, Hm1, app_assoc.
Qed.

Lemma upto_all s : forall n : N, (N.of_nat (Str.len s) <= n)%N -> Str.upto n s = s.
Proof.
  induction s as [| c s IH]; intros n Hn; [reflexivity |].
  simpl in *. destruct (Str.is_cont c).
  - now rewrite IH.
  - destruct (N.eqb_spec n 0) as [-> | Hne]; [lia |].
    rewrite IH; [reflexivity | lia].
Qed.

Lemma dispatch_raised t input (s : State W) e s1 :
  await (handler t input) s = (inl e, s1) ->
  is_Exception e = true ->
  dispatch t input s =
  (inr ("Error: " +:+ exn_str e, JStr ("Error: " +:+ exn_str e)), s1).
Proof.
  intros Ha He. unfold dispatch, try_except, bind. rewrite Ha, He. reflexivity.
Qed.

Lemma body_with_tool_block schema (s : State W) response s1 pre b post acc1 s2 acc2 s3 r s4 :
  _interrupted (flags (fst s)) = false ->
  await (_client (fst s) (request schema (fst s))) s = (inr response, s1) ->
  _interrupted (flags (fst s1)) = false ->
  content response = pre ++ b :: post ->
  is_tool_use b = true ->
  for_blocks pre ([], []) s1 = (inr acc1, s2) ->
  for_block b acc1 s2 = (inr acc2, s3) ->
  for_blocks post acc2 s3 = (inr r, s4) ->
  body schema s = (inr Continue, extended response (snd r) s4) /\
  (forall x, In x (snd acc2) -> In x (snd r)).
Proof.
  intros Hi Ha Hi1 Hc Hb Hpre Hblock Hpost. split.
  - destruct r as [texts results].
    apply (body_continue schema s response s1 texts results s4); try assumption.
    + rewrite Hc, existsb_app. simpl. rewrite Hb. apply orb_true_r.
    + rewrite Hc, for_blocks_app, Hpre. simpl. unfold bind. now rewrite Hblock.
  - intros x Hx. apply for_blocks_results in Hpost as (more & ->).
    apply in_or_app. now left.
Qed.

Lemma while_continue schema n (s s' : State W) :
  _done (flags (fst s)) = false ->
  body schema s = (inr Continue, s') ->
  while_ schema (S n) s = while_ schema n s'.
Proof.
  intros Hd Hb. destruct s as [a w]. simpl. unfold bind at 1, self at 1, gets at 1.
  cbn [fst snd] in *. rewrite Hd. unfold bind. now rewrite Hb.
Qed.

Lemma while_return schema n (s s' : State W) out :
  _done (flags (fst s)) = false ->
  body schema s = (inr (Return out), s') ->
  while_ schema (S n) s = (inr out, s').
Proof.
  intros Hd Hb. destruct s as [a w]. simpl. unfold bind at 1, self at 1, gets at 1.
  cbn [fst snd] in *. rewrite Hd. unfold bind. now rewrite Hb.
Qed.

(** ** The claims about the loop *)

(** C4.  Within one invocation of the loop, the tool events that the
    blocks of a response add are, block by block, the [tool_call] and then
    the [tool_result] with the identifier of the block, whether the tool is
    registered and returns, registered and raises, or unknown; only an
    exception that [except Exception] does not catch, which is how an
    interruption reaches the loop, leaves a call without its result.  When
    the loop returns, every [tool_call] is followed at once by the
    [tool_result] with its identifier, and with distinct identifiers by
    exactly one. *)
Theorem tool_call_answered_once :
  (forall blocks acc (s : State W) r s',
      for_blocks blocks acc s = (inr r, s') ->
      exists new, _events (fst s') = _events (fst s) ++ new /\
                  tool_events new = brackets_of blocks) /\
  (forall blocks acc (s : State W) e s',
      for_blocks blocks acc s = (inl e, s') ->
      is_Exception e = false /\
      exists new done id, _events (fst s') = _events (fst s) ++ new /\
                          tool_events new = brackets_of done ++ [(Call, id)]) /\
  (forall (s : State W) out s',
      _loop s = (inr out, s') ->
      exists new,
        out_events out = _events (fst s) ++ new /\
        bracketed (tool_events new) /\
        (forall i, In (Call, i) (tool_events new) ->
           exists before after,
             tool_events new = before ++ (Call, i) :: (Result, i) :: after) /\
        (List.NoDup (call_ids (tool_events new)) ->
         forall i, In (Call, i) (tool_events new) -> count Result i (tool_events new) = 1)).
Proof.
  split; [| split].
  - intros blocks acc [a w] r s' Hrun.
    apply for_blocks_events in Hrun as (new & Hev & Hr). now exists new.
  - intros blocks acc [a w] e s' Hrun.
    apply for_blocks_events in Hrun as (new & Hev & He & d & id & Hr).
    split; [assumption |]. now exists new, d, id.
  - intros [a w] out s' Hrun. unfold _loop, bind at 1, self at 1, gets at 1 in Hrun.
    cbn [fst snd] in Hrun. apply while_events in Hrun as (new & Hout & Hbr).
    exists new. split; [assumption |]. split; [assumption |]. split.
    + intros i Hin. destruct (bracketed_follows _ i Hbr Hin) as (b & af & Heq & _).
      now exists b, af.
    + intros Hnd i Hin. now apply bracketed_exactly_one.
Qed.

(** C6, amended.  When the handler of a registered tool raises an
    exception, the block does not raise: the text [Error: <message>] is
    the content of the tool result for the next user turn, the
    [tool_result] event carries the first 5000 characters of that text (all
    of it when it is no longer), and the iteration ends in [continue] with
    the result in the user turn appended to the history. *)
Theorem handler_exception_becomes_result :
  (forall id n input acc (s : State W) t e s1,
      _find_tool (fst s) n = Some t ->
      await (handler t input) (called id n input s) = (inl e, s1) ->
      is_Exception e = true ->
      let text := "Error: " +:+ exn_str e in
      for_block (ToolUseBlock id n input) acc s =
        (inr (fst acc, snd acc ++ [tool_result_entry id (JStr text)]),
         answered id n text s1) /\
      last (_events (fst (answered id n text s1))) =
        Some (emitted (fst s1) (snd s1) "tool_result"
                (JDict [("tool", JStr n); ("id", JStr id);
                        ("result", JStr (Str.upto 5000 text))])) /\
      ((N.of_nat (Str.len text) <= 5000)%N -> Str.upto 5000 text = text)) /\
  (forall schema (s : State W) response s1 pre id n input post acc1 s2 t e s3 r s4,
      _interrupted (flags (fst s)) = false ->
      await (_client (fst s) (request schema (fst s))) s = (inr response, s1) ->
      _interrupted (flags (fst s1)) = false ->
      content response = pre ++ ToolUseBlock id n input :: post ->
      for_blocks pre ([], []) s1 = (inr acc1, s2) ->
      _find_tool (fst s2) n = Some t ->
      await (handler t input) (called id n input s2) = (inl e, s3) ->
      is_Exception e = true ->
      for_blocks post
        (fst acc1, snd acc1 ++ [tool_result_entry id (JStr ("Error: " +:+ exn_str e))])
        (answered id n ("Error: " +:+ exn_str e) s3) = (inr r, s4) ->
      body schema s = (inr Continue, extended response (snd r) s4) /\
      In (tool_result_entry id (JStr ("Error: " +:+ exn_str e))) (snd r) /\
      (forall k, _done (flags (fst s)) = false ->
                 while_ schema (S k) s = while_ schema k (extended response (snd r) s4))).
Proof.
  assert (Hblock : forall id n input acc (s : State W) t e s1,
      _find_tool (fst s) n = Some t ->
      await (handler t input) (called id n input s) = (inl e, s1) ->
      is_Exception e = true ->
      for_block (ToolUseBlock id n input) acc s =
        (inr (fst acc, snd acc ++ [tool_result_entry id (JStr ("Error: " +:+ exn_str e))]),
         answered id n ("Error: " +:+ exn_str e) s1)).
  { intros id n input acc s t e s1 Ht Ha He.
    rewrite for_block_tool_use, Ht, (dispatch_raised t input _ e s1 Ha He). reflexivity. }
  split.
  - intros id n input acc s t e s1 Ht Ha He text. split; [now apply (Hblock _ _ _ _ _ t) |].
    split.
    + unfold answered. cbn [fst snd _events with_events]. apply last_snoc.
    + apply upto_all.
  - intros schema s response s1 pre id n input post acc1 s2 t e s3 r s4
           Hi Ha Hi1 Hc Hpre Ht Hh He Hpost.
    destruct (body_with_tool_block schema s response s1 pre (ToolUseBlock id n input) post
                acc1 s2 _ _ r s4 Hi Ha Hi1 Hc eq_refl Hpre
                (Hblock id n input acc1 s2 t e s3 Ht Hh He) Hpost) as [Hbody Hin].
    split; [assumption |]. split.
    + apply Hin. cbn [snd]. apply in_or_app. right. now left.
    + intros k Hd. now apply while_continue.
Qed.

(** C10, amended.  A tool-use block that names no tool of the agent does
    not raise: the [tool_call] event is emitted, then the [tool_result]
    event with the same identifier, whose result is the first 5000
    characters of [Error: unknown tool '<name>'] (all of it when it is no
    longer); the whole text is the content of the tool result for the next
    user turn, and the iteration ends in [continue]. *)
Theorem unknown_tool_becomes_result :
  (forall id n input acc (s : State W),
      _find_tool (fst s) n = None ->
      let text := "Error: unknown tool '" +:+ n +:+ "'" in
      let call := emitted (fst s) (snd s) "tool_call"
                    (JDict [("tool", JStr n); ("input", input); ("id", JStr id)]) in
      let s1 := called id n input s in
      let result := emitted (fst s1) (snd s1) "tool_result"
                      (JDict [("tool", JStr n); ("id", JStr id);
                              ("result", JStr (Str.upto 5000 text))]) in
      for_block (ToolUseBlock id n input) acc s =
        (inr (fst acc, snd acc ++ [tool_result_entry id (JStr text)]),
         answered id n text s1) /\
      _events (fst (answered id n text s1)) = _events (fst s) ++ [call; result] /\
      ((N.of_nat (Str.len text) <= 5000)%N -> Str.upto 5000 text = text)) /\
  (forall schema (s : State W) response s1 pre id n input post acc1 s2 r s4,
      _interrupted (flags (fst s)) = false ->
      await (_client (fst s) (request schema (fst s))) s = (inr response, s1) ->
      _interrupted (flags (fst s1)) = false ->
      content response = pre ++ ToolUseBlock id n input :: post ->
      for_blocks pre ([], []) s1 = (inr acc1, s2) ->
      _find_tool (fst s2) n = None ->
      for_blocks post
        (fst acc1, snd acc1 ++ [tool_result_entry id (JStr (unknown_tool n))])
        (answered id n (unknown_tool n) (called id n input s2)) = (inr r, s4) ->
      body schema s = (inr Continue, extended response (snd r) s4) /\
      In (tool_result_entry id (JStr (unknown_tool n))) (snd r) /\
      (forall k, _done (flags (fst s)) = false ->
                 while_ schema (S k) s = while_ schema k (extended response (snd r) s4))).
Proof.
  assert (Hblock : forall id n input acc (s : State W),
      _find_tool (fst s) n = None ->
      for_block (ToolUseBlock id n input) acc s =
        (inr (fst acc, snd acc ++ [tool_result_entry id (JStr (unknown_tool n))]),
         answered id n (unknown_tool n) (called id n input s))).
  { intros id n input acc s Ht. rewrite for_block_tool_use, Ht. reflexivity. }
  split.
  - intros id n input acc s Ht text call s1 result. split; [now apply Hblock |]. split.
    + unfold answered, s1, called. cbn [fst snd _events with_events].
      now rewrite <- app_assoc.
    + apply upto_all.
  - intros schema s response s1 pre id n input post acc1 s2 r s4
           Hi Ha Hi1 Hc Hpre Ht Hpost.
    destruct (body_with_tool_block schema s response s1 pre (ToolUseBlock id n input) post
                acc1 s2 _ _ r s4 Hi Ha Hi1 Hc eq_refl Hpre
                (Hblock id n input acc1 s2 Ht) Hpost) as [Hbody Hin].
    split; [assumption |]. split.
    + apply Hin. cbn [snd]. apply in_or_app. right. now left.
    + intros k Hd. now apply while_continue.
Qed.

Lemma parse_output_empty : json_loads "" = None ->
  _parse_output "" = inr (JDict [("summary", JStr "")]).
Proof. intros Hl. unfold _parse_output. simpl. now rewrite Hl. Qed.

(** C9.  A response without a tool-use block whose accumulated text is
    empty ends the run: the result is exactly [{summary: ""}] and the last
    event is the [status_change] to [<role>_completed].  The run is one
    that was not interrupted and whose [done] flag is not set; [json.loads]
    rejects the empty string. *)
Theorem empty_response_completes schema (s : State W) response s1 n :
  json_loads "" = None ->
  _done (flags (fst s)) = false ->
  _interrupted (flags (fst s)) = false ->
  await (_client (fst s) (request schema (fst s))) s = (inr response, s1) ->
  _interrupted (flags (fst s1)) = false ->
  _done (flags (fst s1)) = false ->
  existsb is_tool_use (content response) = false ->
  Str.join nl (texts_of (content response)) = "" ->
  exists out s' ev,
    while_ schema (S n) s = (inr out, s') /\
    out_result out = JDict [("summary", JStr "")] /\
    out_role out = role (fst s) /\
    last (out_events out) = Some ev /\
    ev_type ev = "status_change" /\
    ev_data ev = JDict [("status", JStr (role (fst s) +:+ "_completed"))].
Proof.
  intros Hl Hd Hi Ha Hi1 Hd1 Ht Htext.
  destruct (for_blocks_no_tool_use (content response) ([], []) s1 Ht)
    as (s2 & Hf & Hfl & Hro & new & Hev).
  pose proof (await_agent _ _ _ _ Ha) as Hag.
  assert (Hrole : role (fst s2) = role (fst s)) by (rewrite Hro, Hag; reflexivity).
  destruct s as [a w], s1 as [a1 w1], s2 as [a2 w2]. cbn [fst snd] in *.
  eexists _, _, _. split.
  - apply while_return; [assumption |].
    unfold body, bind at 1, self at 1, gets at 1. cbn [fst snd]. rewrite Hi.
    unfold bind at 1. fold (request schema a). rewrite Ha.
    unfold bind at 1, self at 1, gets at 1. cbn [fst snd]. rewrite Hi1.
    unfold bind at 1. rewrite Hf, Ht. cbn [fst snd app]. rewrite Htext.
    unfold bind at 1, self at 1, gets at 1. cbn [fst snd]. rewrite Hfl, Hd1.
    rewrite (parse_output_empty Hl). unfold bind at 1. rewrite update_eq.
    unfold bind at 1, self at 1, gets at 1. cbn [fst snd].
    unfold bind at 1. rewrite emit_eq. unfold bind at 1. rewrite output_eq.
    unfold ret. reflexivity.
  - cbn. split; [reflexivity |]. split; [assumption |].
    split; [apply last_snoc |]. split; [reflexivity |].
    unfold status. cbn. now rewrite Hrole.
Qed.

Lemma resume_eq user_message (s : State W) :
  resume user_message s = _loop (resumed user_message s).
Proof. destruct s as [a w]. reflexivity. Qed.

(** C7.  In all cases [resume] enters the loop with the [done] flag reset
    and with an event buffer that holds the [<role>_resumed] status change
    and nothing else; when the history ended with an assistant turn, the
    history that enters the loop is the old one followed by a user turn
    whose content is exactly the message. *)
Theorem resume_appends_user_turn :
  (forall user_message (s : State W),
      resume user_message s = _loop (resumed user_message s) /\
      _done (flags (fst (resumed user_message s))) = false /\
      exists ev,
        _events (fst (resumed user_message s)) = [ev] /\
        ev_type ev = "status_change" /\
        ev_data ev = JDict [("status", JStr (role (fst s) +:+ "_resumed"))]) /\
  (forall user_message (s : State W) m,
      last (_messages (fst s)) = Some m ->
      msg_role m = "assistant" ->
      _messages (fst (resumed user_message s)) =
        _messages (fst s) ++ [{| msg_role := "user"; msg_content := CStr user_message |}] /\
      last (_messages (fst (resumed user_message s))) =
        Some {| msg_role := "user"; msg_content := CStr user_message |}).
Proof.
  split.
  - intros user_message s. split; [apply resume_eq |]. split; [reflexivity |].
    eexists. split; [reflexivity |]. split; reflexivity.
  - intros user_message s m Hlast Hrole.
    assert (Heq : _messages (fst (resumed user_message s)) =
                  _messages (fst s) ++ [{| msg_role := "user"; msg_content := CStr user_message |}]).
    { unfold resumed. cbn [fst snd _messages with_events with_flags with_messages].
      unfold append_user_message. rewrite Hlast, Hrole. reflexivity. }
    split; [assumption |]. rewrite Heq. apply last_snoc.
Qed.

(** ** Reaching the cap *)

Lemma while_continues schema n : forall s s' : State W,
  continues schema n s s' -> while_ schema n s = after_while s'.
Proof.
  induction n as [| n IH]; intros s s'; simpl.
  - now intros ->.
  - intros (Hd & s1 & Hb & Hc). rewrite <- (IH s1 s' Hc).
    now apply (while_continue schema n s s1).
Qed.

(** When the loop has used up [max_iterations] and [done] is unset, it
    emits an [error] event and returns [{error: max_iterations_reached}]. *)
Lemma loop_reaches_cap (s s' : State W) :
  continues (_build_tools_schema (fst s)) (max_iterations (fst s)) s s' ->
  _done (flags (fst s')) = false ->
  let ev := emitted (fst s') (snd s') "error" (max_iterations_error (fst s')) in
  _loop s =
  (inr {| out_role := role (fst s');
          out_result := JDict [("error", JStr "max_iterations_reached")];
          out_events := _events (fst s') ++ [ev] |},
   (with_events (fst s') (_events (fst s') ++ [ev]), notified (fst s') (snd s') ev)).
Proof.
  intros Hc Hd ev. destruct s as [a w]. unfold _loop, bind at 1, self at 1, gets at 1.
  cbn [fst snd] in *. rewrite (while_continues _ _ _ _ Hc). destruct s' as [a' w'].
  now rewrite (after_while_not_done a' w' Hd).
Qed.

Lemma continues_all_continue schema n : forall s : State W,
  all_continue schema n s = true -> continues schema n s (passes schema n s).
Proof.
  induction n as [| n IH]; intros s; simpl; [reflexivity |].
  intros Hc. apply andb_true_iff in Hc as [Hd Hc]. apply negb_true_iff in Hd.
  split; [assumption |]. exists (snd (body schema s)).
  destruct (body schema s) as [[e | []] s1]; try discriminate.
  split; [reflexivity |]. now apply IH.
Qed.

End Facts.

End AgentFacts.

(** * The monad *)

Lemma bind_inr {S A B} (m : M S A) (k : A -> M S B) s r s' :
  bind m k s = (inr r, s') -> exists x s1, m s = (inr x, s1) /\ k x s1 = (inr r, s').
Proof.
  unfold bind. destruct (m s) as [[e | x] s1]; [discriminate |]. intros Hk. now exists x, s1.
Qed.

(** * Properties of the local sandbox *)

Module SandboxFacts.

Import Sandbox SandboxSpec.

Lemma node_at_insert_ne (f : gmap (list string) OS.node) loc c n :
  loc <> c -> OS.node_at (<[loc := n]> f) c = OS.node_at f c.
Proof.
  intros Hne. destruct c as [| x c]; [reflexivity |]. simpl. now apply lookup_insert_ne.
Qed.

Lemma node_at_insert_eq (f : gmap (list string) OS.node) loc n :
  loc <> [] -> OS.node_at (<[loc := n]> f) loc = Some n.
Proof.
  intros Hne. destruct loc as [| x c]; [congruence |]. simpl. apply lookup_insert_eq.
Qed.

(** Writing a node where no directory is leaves every resolution that
    ends there as it was. *)
Lemma walk_insert (f : gmap (list string) OS.node) ps : forall cur loc n,
  OS.walk f cur ps = inr loc ->
  OS.node_at f loc <> Some OS.Dir ->
  OS.walk (<[loc := n]> f) cur ps = inr loc.
Proof.
  induction ps as [| p ps IH]; intros cur loc n Hw Hnd; [assumption |].
  simpl in *. destruct (OS.node_at f cur) as [[| data] |] eqn:Hc; try discriminate.
  assert (Hne : loc <> cur) by (intros ->; congruence).
  rewrite (node_at_insert_ne f loc cur n Hne), Hc. now apply IH.
Qed.

Lemma universal_newlines_id s :
  Str.has_char (ascii_of_nat 13) s = false -> OS.universal_newlines s = s.
Proof.
  induction s as [| c s IH]; [reflexivity |]. intros Hc.
  cbn [OS.universal_newlines Str.has_char] in *.
  apply orb_false_iff in Hc as [Hc Hs]. rewrite Ascii.eqb_sym, Hc. now rewrite IH.
Qed.

Lemma write_text_inr p data w w' :
  OS.write_text p data w = (inr tt, w') ->
  exists loc, OS.locate w p = inr loc /\ OS.node_at (OS.files w) loc <> Some OS.Dir /\
              w' = OS.with_files w (<[loc := OS.File data]> (OS.files w)).
Proof.
  unfold OS.write_text, bind, get. destruct (OS.locate w p) as [e | loc]; [discriminate |].
  destruct (OS.node_at (OS.files w) loc) as [[| d] |] eqn:Hn; try discriminate;
    unfold modify; intros [= <-]; exists loc; (split; [reflexivity |]); split;
    try reflexivity; congruence.
Qed.

Lemma is_prefix_app xs ys : is_prefix xs (xs ++ ys) = true.
Proof. induction xs as [| x xs IH]; [reflexivity |]. simpl. now rewrite String.eqb_refl. Qed.

(** The check of the sandbox compares components as they are written: a
    relative path passes it whatever [..] it holds. *)
Lemma relative_path_passes_check ws path :
  root (parse path) = "" -> is_relative_to (joinpath ws path) ws = true.
Proof.
  intros Hr. unfold joinpath. rewrite Hr. cbn [String.eqb]. unfold is_relative_to.
  cbn [root parts]. now rewrite String.eqb_refl, is_prefix_app.
Qed.

Lemma mkdir_parents_eq r rparts w :
  OS.mkdir_parents r rparts w =
  let p := {| root := r; parts := rev rparts |} in
  match OS.os_mkdir p w with
  | inr w' => (inr tt, w')
  | inl OS.ENOENT =>
      match rparts with
      | [] => (inl (OS.oserror OS.ENOENT p), w)
      | _ :: rparts' =>
          match OS.mkdir_parents r rparts' w with
          | (inr _, w1) => OS.mkdir_exist_ok p w1
          | (inl e, w1) => (inl e, w1)
          end
      end
  | inl e => if OS.is_dir w p then (inr tt, w) else (inl (OS.oserror e p), w)
  end.
Proof. destruct rparts; reflexivity. Qed.

Lemma node_at_insert (f : gmap (list string) OS.node) c n c' :
  c <> [] ->
  OS.node_at (<[c := n]> f) c' = if decide (c = c') then Some n else OS.node_at f c'.
Proof.
  intros Hne. destruct c' as [| x c'].
  - destruct (decide (c = [])); [congruence | reflexivity].
  - simpl. apply lookup_insert.
Qed.

(** C8, amended.  When [write_file(S, p, c)] succeeds for a UTF-8 string
    [c], [read_file(S, p)] then returns [c] with every [\r\n] and every
    other [\r] turned into [\n]: exactly [c] when [c] has no carriage
    return. *)
Theorem read_after_write sandbox path content (w w' : OS.World) :
  local_write_file sandbox path content w = (inr tt, w') ->
  OS.utf8_valid content = true ->
  local_read_file sandbox path w' = (inr (OS.universal_newlines content), w') /\
  (Str.has_char (ascii_of_nat 13) content = false ->
   local_read_file sandbox path w' = (inr content, w')).
Proof.
  intros Hw Hu.
  assert (Hread : local_read_file sandbox path w'
                  = (inr (OS.universal_newlines content), w')).
  { unfold local_write_file in Hw. unfold local_read_file.
    destruct (is_relative_to (joinpath (workspace sandbox) path) (workspace sandbox));
      [| discriminate]. cbn [negb] in *.
    apply bind_inr in Hw as ([] & w1 & _ & Hw).
    apply write_text_inr in Hw as (loc & Hloc & Hnd & ->).
    set (target := joinpath (workspace sandbox) path) in *.
    set (f' := <[loc := OS.File content]> (OS.files w1)).
    assert (Hloc' : OS.locate (OS.with_files w1 f') target = inr loc).
    { unfold OS.locate in *. cbn [OS.files OS.cwd OS.with_files]. now apply walk_insert. }
    assert (Hne : loc <> []) by (intros ->; now apply Hnd).
    assert (Hnode : OS.node_at f' loc = Some (OS.File content))
      by now apply node_at_insert_eq.
    unfold bind at 1, get at 1.
    unfold OS.exists_, OS.is_dir, OS.stat. rewrite Hloc'. cbn [OS.files OS.with_files].
    rewrite Hnode. cbn [negb].
    unfold try_except, OS.read_text, bind, get. rewrite Hloc'.
    cbn [OS.files OS.with_files]. rewrite Hnode, Hu. reflexivity. }
  split; [exact Hread |].
  intros Hcr. rewrite <- (universal_newlines_id content Hcr) at 1. exact Hread.
Qed.

(** What the check does reject is rejected before the file system is
    touched. *)
Lemma lexical_escape_rejected sandbox path w :
  is_relative_to (joinpath (workspace sandbox) path) (workspace sandbox) = false ->
  local_read_file sandbox path w = (inl (escapes path), w) /\
  local_write_file sandbox path "" w = (inl (escapes path), w) /\
  local_list_dir sandbox path w = (inl (escapes path), w) /\
  Filesystem.delete_file sandbox path w = (inl (escapes path), w).
Proof.
  intros Hc. unfold local_read_file, local_write_file, local_list_dir, Filesystem.delete_file.
  rewrite Hc. repeat split.
Qed.

(** C1, on the code.  The workspace is [/tmp/ramp_x/repo].  The path
    [../../../etc/passwd] resolves to [/etc/passwd], outside the workspace,
    and [read_file] returns the content of that file; [write_file] with
    [../../etc/passwd] creates [/tmp/etc/passwd]; [list_dir] with [../..]
    lists [/tmp]; the implementer's [_delete] removes [/etc/passwd], given
    with [..] or as an absolute path, where [delete_file] of the file tools
    refuses the absolute path.  None of these raises [PermissionError]. *)
Theorem dotdot_path_leaves_workspace :
  Spec.lies_within (workspace Scenario.sandbox0)
    (joinpath (workspace Scenario.sandbox0) "../../../etc/passwd") = false /\
  local_read_file Scenario.sandbox0 "../../../etc/passwd" Scenario.host0
    = (inr "root:x:0:0", Scenario.host0) /\
  (let r := local_write_file Scenario.sandbox0 "../../etc/passwd" "x" Scenario.host0 in
   fst r = inr tt /\
   OS.files (snd r) !! ["tmp"; "etc"; "passwd"] = Some (OS.File "x")) /\
  fst (local_list_dir Scenario.sandbox0 "../.." Scenario.host0)
    = inr ["../../ramp_x/"] /\
  (let r := Implementer._delete Scenario.sandbox0 "../../../etc/passwd" Scenario.host0 in
   fst r = inr "Deleted ../../../etc/passwd" /\
   OS.files (snd r) !! ["etc"; "passwd"] = None) /\
  (let r := Implementer._delete Scenario.sandbox0 "/etc/passwd" Scenario.host0 in
   fst r = inr "Deleted /etc/passwd" /\
   OS.files (snd r) !! ["etc"; "passwd"] = None) /\
  Filesystem.delete_file Scenario.sandbox0 "/etc/passwd" Scenario.host0
    = (inl (escapes "/etc/passwd"), Scenario.host0).
Proof. vm_compute. repeat split. Qed.

End SandboxFacts.

(** * Properties of the verifier's command filter *)

Module VerifierFacts.

Import Sandbox Verifier.

Section Facts.

Context {W : Type} `{!SandboxProvider W} `{!Unicode}.

Lemma for_pattern_eq patterns normalized (after : M W json) (w : W) :
  for_pattern patterns normalized after w =
  if existsb (fun p => Re.search p normalized) patterns
  then (inr safety_policy, w) else after w.
Proof.
  induction patterns as [| p ps IH]; simpl; [reflexivity |].
  destruct (Re.search p normalized); [reflexivity | exact IH].
Qed.

(** C3.  A command whose stripped, lowercased form matches one of the
    forbidden patterns gets the synthetic result: exit code 2, empty
    output, the banner of the safety policy.  The world is left as it was,
    whatever the provider's [run_command] would have done to it: the
    provider is not called, no process is spawned.  The same holds for the
    handler of the [run_command] tool.  White space, for [strip] and for
    the class [\s] of the patterns, is that of Python on a [str]; the case
    mapping of [lower] is any. *)
Theorem forbidden_command_is_not_run sandbox command (w : W) :
  existsb (fun p => Re.search p (str_lower (Str.strip command)))
          _FORBIDDEN_COMMAND_PATTERNS = true ->
  _run sandbox command w = (inr safety_policy, w) /\
  Dict.get "exit_code" (match safety_policy with JDict kv => kv | _ => [] end)
    = Some (JInt 2) /\
  forall flags,
    Agent.handler (run_command_tool sandbox) (JDict [("command", JStr command)]) (flags, w)
    = (inr safety_policy, (flags, w)).
Proof.
  intros Hm.
  assert (Hrun : _run sandbox command w = (inr safety_policy, w)).
  { unfold _run. now rewrite for_pattern_eq, Hm. }
  split; [assumption |]. split; [reflexivity |].
  intros flags. unfold run_command_tool. cbn [Agent.handler].
  unfold Call.on_world, zoom. simpl. now rewrite Hrun.
Qed.

End Facts.

End VerifierFacts.

(** * Properties of the event bus *)

Module EventBusFacts.

Import EventBus.

(** A wait that times out makes the generator yield the keepalive from the
    [except] clause, which lies outside the [while]: the step after that
    runs the [finally] clause and ends the generator, whatever has been
    published in between. *)
Lemma timeout_then_stop sid q (b : Bus) ts :
  default [] (queues b !! q) = [] ->
  anext ts (Looping sid q) b = (Some (keepalive ts), Handling sid q, b) /\
  forall b' ts', anext ts' (Handling sid q) b' = (None, Exhausted, unregister sid q b').
Proof.
  intros Hq. split; [| reflexivity]. unfold anext, wait_and_yield. now rewrite Hq.
Qed.

Lemma first_wait_times_out sid (b : Bus) ts :
  anext ts (Created sid) b =
  (Some (keepalive ts), Handling sid (allocated b), snd (register sid b)).
Proof.
  unfold anext, register, wait_and_yield. cbn [queues snd].
  rewrite lookup_insert_eq. reflexivity.
Qed.

(** C5, on the code.  A subscriber that saw no event within the timeout
    receives the keepalive and then nothing more: an event published after
    the keepalive is put on its queue and never yielded, and the
    subscription is removed from the bus. *)
Theorem keepalive_ends_subscription sid ev ts ts' :
  received [Next ts; Publish sid ev; Next ts'] (subscribe sid) __init__ = [keepalive ts] /\
  (let '(_, g1, b1) := anext ts (subscribe sid) __init__ in
   let b2 := publish sid ev b1 in
   queues b2 !! 0 = Some [ev] /\
   let '(item, g3, b3) := anext ts' g1 b2 in
   item = None /\ g3 = Exhausted /\ _subscribers b3 !! sid = None).
Proof.
  unfold subscribe. split.
  - unfold received. rewrite first_wait_times_out. reflexivity.
  - rewrite first_wait_times_out. unfold register, __init__.
    cbn [snd allocated _subscribers queues].
    rewrite lookup_empty. cbn [default from_option app]. unfold id. cbn [app].
    unfold publish. cbn [_subscribers queues allocated].
    rewrite lookup_insert_eq. cbn [default from_option fold_left].
    unfold id. cbn [fold_left]. unfold put_nowait. rewrite !lookup_insert_eq. cbn [default from_option app]. unfold id.
    split; [reflexivity |].
    unfold anext, unregister. cbn [_subscribers].
    rewrite lookup_insert_eq. cbn [default from_option remove_first]. unfold id. cbn [remove_first].
    rewrite Nat.eqb_refl. split; [reflexivity |]. split; [reflexivity |].
    apply lookup_delete_eq.
Qed.

End EventBusFacts.

(** * Properties of the controller *)

Module ControllerFacts.

Import Controller ControllerSpec.

Section Facts.

Context `{!SandboxProvider World} `{!Clock World} `{!JsonModule}.
Variable settings : Settings.
Variable _new_id : World -> string.
Variable create_orchestrator_agent :
  Sandbox.Sandbox -> string -> string -> (Agent.AgentEvent -> World -> World) ->
  (string -> string -> string -> option json -> M World string) ->
  Agent.BaseAgent (W := World).


Lemma update_run_status_inr st (s s' : CState) :
  _update_run_status st s = (inr tt, s') ->
  fst s' = fst s /\ run_status_of (fst s) (snd s') = Some st /\
  sessions (db (snd s')) = sessions (db (snd s)).
Proof.
  destruct s as [o w]. unfold _update_run_status, bind, self, world, gets. cbn [fst snd].
  destruct (runs (db w) !! run_id o) as [run |]; [| discriminate].
  unfold on_world, zoom, modify. cbn [fst snd]. intros [= <-]. cbn [fst snd].
  split; [reflexivity |]. split; [| reflexivity].
  unfold run_status_of. cbn [db with_db runs]. now rewrite lookup_insert_eq.
Qed.

Lemma update_session_status_inr st (s s' : CState) :
  _update_session_status st s = (inr tt, s') ->
  fst s' = fst s /\ session_status_of (fst s) (snd s') = Some st /\
  runs (db (snd s')) = runs (db (snd s)).
Proof.
  destruct s as [o w]. unfold _update_session_status, bind, self, world, gets. cbn [fst snd].
  destruct (sessions (db w) !! session_id o) as [row |]; [| discriminate].
  unfold on_world, zoom, modify. cbn [fst snd]. intros [= <-]. cbn [fst snd].
  split; [reflexivity |]. split; [| reflexivity].
  unfold session_status_of. cbn [db with_db sessions]. now rewrite lookup_insert_eq.
Qed.

Lemma emit_event_db o role type_ data w : db (emit_event o role type_ data w) = db w.
Proof. unfold emit_event. now destruct (event_callback o). Qed.

Lemma _emit_event_eq role type_ data (s : CState) :
  _emit_event role type_ data s = (inr tt, (fst s, emit_event (fst s) role type_ data (snd s))).
Proof. destruct s. reflexivity. Qed.

Lemma keeps_ret {A} (x : A) : keeps (ret x).
Proof. intros s r s' [= <- <-]. reflexivity. Qed.

Lemma keeps_raise {A} e : keeps (raise e : Method A).
Proof. intros s r s' [= <- <-]. reflexivity. Qed.

Lemma keeps_bind {A B} (m : Method A) (k : A -> Method B) :
  keeps m -> (forall x, keeps (k x)) -> keeps (bind m k).
Proof.
  intros Hm Hk s r s'. unfold bind. destruct (m s) as [[e | x] s1] eqn:Hs.
  - intros [= <- <-]. eauto.
  - intros Hx. rewrite (Hk x _ _ _ Hx). eauto.
Qed.

Lemma keeps_on_world {A} (m : M World A) : keeps (on_world m).
Proof.
  intros s r s'. unfold on_world, zoom. destruct (m (snd s)). intros [= <- <-]. reflexivity.
Qed.

Lemma keeps_self : keeps self.
Proof. intros s r s' [= <- <-]. reflexivity. Qed.

Lemma keeps_world : keeps world.
Proof. intros s r s' [= <- <-]. reflexivity. Qed.

Lemma keeps_lift {A} (x : exn + A) : keeps (lift x).
Proof. destruct x; [apply keeps_raise | apply keeps_ret]. Qed.

Lemma keeps_no_row {A} : keeps (no_row : Method A).
Proof. apply keeps_raise. Qed.

Lemma keeps_if {A} (b : bool) (m1 m2 : Method A) :
  keeps m1 -> keeps m2 -> keeps (if b then m1 else m2).
Proof. now destruct b. Qed.

Create HintDb keeps.
#[local] Hint Resolve keeps_ret keeps_raise keeps_on_world keeps_self keeps_world
  keeps_lift keeps_no_row keeps_if : keeps.
#[local] Hint Extern 2 (keeps (bind _ _)) => apply keeps_bind; [| intros ?] : keeps.
#[local] Hint Extern 3 (keeps (match ?x with _ => _ end)) => destruct x : keeps.

Lemma keeps_update_run_status st : keeps (_update_run_status st).
Proof. unfold _update_run_status. auto 10 with keeps. Qed.

Lemma keeps_update_session_status st : keeps (_update_session_status st).
Proof. unfold _update_session_status. auto 10 with keeps. Qed.

Lemma keeps_emit_event role type_ data : keeps (_emit_event role type_ data).
Proof. unfold _emit_event. auto with keeps. Qed.

Lemma keeps_persist_events evs : keeps (_persist_events_batch evs).
Proof. unfold _persist_events_batch. auto with keeps. Qed.

Lemma keeps_get_diff : keeps _get_diff.
Proof. unfold _get_diff. auto 10 with keeps. Qed.

Lemma keeps_persist_artifact t name content metadata :
  keeps (_persist_artifact settings _new_id t name content metadata).
Proof. unfold _persist_artifact. auto with keeps. Qed.

#[local] Hint Resolve keeps_update_run_status keeps_update_session_status
  keeps_emit_event keeps_persist_events keeps_get_diff keeps_persist_artifact : keeps.

Lemma keeps_record_output name output : keeps (record_output settings _new_id name output).
Proof. unfold record_output. auto 20 with keeps. Qed.

Lemma lift_inr {A} (x : exn + A) (s s' : CState) v :
  lift x s = (inr v, s') -> x = inr v /\ s' = s.
Proof.
  unfold lift, raise, ret. destruct x; cbv beta; [discriminate |]. now intros [= <- <-].
Qed.

(** Once the agent has returned, the run and the session are marked
    completed whatever the result says. *)
Lemma record_output_completed name output (s : CState) r s' :
  record_output settings _new_id name output s = (inr r, s') ->
  fst s' = fst s /\
  run_status_of (fst s) (snd s') = Some RunStatus.completed /\
  session_status_of (fst s) (snd s') = Some SessionStatus.completed /\
  exists summary pr_url pr_number,
    json_get (Agent.out_result output) "summary" = inr summary /\
    json_get (Agent.out_result output) "pr_url" = inr pr_url /\
    json_get (Agent.out_result output) "pr_number" = inr pr_number /\
    r = JDict [("status", JStr "completed"); ("summary", summary);
               ("pr_url", pr_url); ("pr_number", pr_number)].
Proof.
  intros Hr. pose proof (keeps_record_output _ _ _ _ _ Hr) as Hkeep.
  split; [assumption |]. unfold record_output in Hr.
  apply bind_inr in Hr as (? & s1 & H1 & Hr). apply keeps_persist_events in H1.
  apply bind_inr in Hr as (diff & s2 & H2 & Hr). apply keeps_get_diff in H2.
  apply bind_inr in Hr as (? & s3 & H3 & Hr).
  apply bind_inr in Hr as (pr_url & s4 & H4 & Hr). apply lift_inr in H4 as [H4 ->].
  apply bind_inr in Hr as (pr_number & s5 & H5 & Hr). apply lift_inr in H5 as [H5 ->].
  apply bind_inr in Hr as (? & s6 & H6 & Hr).
  apply bind_inr in Hr as ([] & s7 & Hrun & Hr).
  apply bind_inr in Hr as ([] & s8 & Hses & Hr).
  apply bind_inr in Hr as ([] & s9 & Hemit & Hr).
  apply bind_inr in Hr as (summary & s10 & Hsum & Hr).
  apply lift_inr in Hsum as [Hsum ->].
  unfold ret in Hr. injection Hr as <- <-.
  rewrite _emit_event_eq in Hemit. injection Hemit as <-.
  pose proof (keeps_update_run_status _ _ _ _ Hrun) as Hk7.
  pose proof (keeps_update_session_status _ _ _ _ Hses) as Hk8.
  apply update_run_status_inr in Hrun as (_ & Hrs & _).
  apply update_session_status_inr in Hses as (_ & Hss & Hruns).
  cbn [fst snd] in *. rewrite Hk8, Hk7 in Hkeep.
  unfold run_status_of, session_status_of in *.
  rewrite emit_event_db. rewrite Hk7, Hkeep in *. rewrite Hruns.
  split; [assumption |]. split; [assumption |]. now exists summary, pr_url, pr_number.
Qed.

Lemma start_agent_ids repo_url (s s1 : CState) :
  start_agent settings _new_id create_orchestrator_agent repo_url s = (inr tt, s1) ->
  same_ids (fst s) (fst s1).
Proof.
  unfold start_agent. intros Hs.
  apply bind_inr in Hs as (? & sa & H1 & Hs). apply keeps_update_run_status in H1.
  apply bind_inr in Hs as (? & sb & H2 & Hs). apply keeps_update_session_status in H2.
  apply bind_inr in Hs as (? & sc & H3 & Hs). apply keeps_emit_event in H3.
  apply bind_inr in Hs as (? & sd & H4 & Hs). apply keeps_emit_event in H4.
  apply bind_inr in Hs as (sbx & se & H5 & Hs). apply keeps_on_world in H5.
  apply bind_inr in Hs as (? & sf & H6 & Hs). injection H6 as _ <-.
  apply bind_inr in Hs as (o & sg & H7 & Hs). injection H7 as <- <-.
  injection Hs as <-. unfold same_ids. cbn [fst snd]. rewrite H5, H4, H3, H2, H1.
  now split.
Qed.

Lemma on_agent_ids {A} (m : Agent.Method A) (s s' : CState) r :
  on_agent m s = (r, s') -> same_ids (fst s) (fst s').
Proof.
  unfold on_agent. destruct (_agent (fst s)) as [a |].
  - destruct (m (a, snd s)) as [r0 [a' w']]. intros [= <- <-]. now split.
  - intros [= <- <-]. now split.
Qed.

(** [run] when nothing raises: its result is that of the steps after the
    agent's return, and only the registries change after them. *)
Lemma run_eq repo_url prompt (s s1 s2 s3 : CState) out r :
  start_agent settings _new_id create_orchestrator_agent repo_url s = (inr tt, s1) ->
  on_agent (Agent.run (JDict [("prompt", JStr prompt); ("repo_url", JStr repo_url)])) s1
    = (inr out, s2) ->
  record_output settings _new_id "changes" out s2 = (inr r, s3) ->
  run settings _new_id create_orchestrator_agent repo_url prompt s
  = (inr r, snd (forget_task (snd (keep_alive s3)))).
Proof.
  intros H1 H2 H3. unfold run, try_finally, try_excepts, bind.
  rewrite H1, H2, H3. reflexivity.
Qed.


End Facts.
End ControllerFacts.

(** * The claims on the scenarios *)

Module Witness.

Import Sandbox Agent Scenario Run AgentSpec ControllerSpec.

(** An outcome is its result and its state. *)
Lemma outcome_eta {A B : Type} (x : A * B) (a : A) : fst x = a -> x = (a, snd x).
Proof. intros <-. now destruct x. Qed.

(** ** C3 *)

Lemma forbidden_command_is_not_run_witness :
  Verifier._run sandbox0 "git push origin main" host0
    = (inr Verifier.safety_policy, host0) /\
  OS.spawned host0 = [].
Proof.
  split; [| reflexivity].
  apply (VerifierFacts.forbidden_command_is_not_run sandbox0 "git push origin main" host0).
  reflexivity.
Defined.

(** ** C4 *)

Lemma tool_call_answered_once_witness :
  exists new,
    out_events implementer_output = _events implementer0 ++ new /\
    bracketed (tool_events new) /\
    (forall i, In (Call, i) (tool_events new) ->
       exists before after,
         tool_events new
         = before ++ (Call, i) :: (Result, i) :: after) /\
    (List.NoDup (call_ids (tool_events new)) ->
     forall i, In (Call, i) (tool_events new) ->
               count Result i (tool_events new) = 1).
Proof.
  apply (proj2 (proj2 AgentFacts.tool_call_answered_once)
           (implementer0, host0) implementer_output (snd implementer_run)).
  apply outcome_eta. vm_compute. reflexivity.
Defined.

(** ** C6 *)

Lemma handler_exception_becomes_result_witness :
  fst (for_block (ToolUseBlock "toolu_2" "read_file" (JDict [("path", JStr "missing.txt")]))
                 ([], []) (implementer0, host0))
  = inr ([], [tool_result_entry "toolu_2" (JStr "Error: Not found: missing.txt")]).
Proof.
  destruct (proj1 AgentFacts.handler_exception_becomes_result
              "toolu_2" "read_file" (JDict [("path", JStr "missing.txt")]) ([], [])
              (implementer0, host0) read_file_tool
              (Raise FileNotFoundError "Not found: missing.txt")
              (snd (await (handler read_file_tool (JDict [("path", JStr "missing.txt")]))
                          (called "toolu_2" "read_file"
                             (JDict [("path", JStr "missing.txt")]) (implementer0, host0)))))
    as (Hblock & _ & _).
  - reflexivity.
  - apply outcome_eta. vm_compute. reflexivity.
  - reflexivity.
  - rewrite Hblock. reflexivity.
Defined.

(** The handler of [explain] raises with a message of 5000 characters: the
    event carries 5000 characters of the 5007 of the text. *)
Lemma long_error_is_cut_in_the_event :
  let s := snd (for_block (ToolUseBlock "toolu_1" "explain" (JDict [])) ([], [])
                          (explainer0, host0)) in
  fst (for_block (ToolUseBlock "toolu_1" "explain" (JDict [])) ([], []) (explainer0, host0))
  = inr ([], [tool_result_entry "toolu_1" (JStr ("Error: " +:+ long_name))]) /\
  (ev_data <$> last (_events (fst s)))
  = Some (JDict [("tool", JStr "explain"); ("id", JStr "toolu_1");
                 ("result", JStr (Str.upto 5000 ("Error: " +:+ long_name)))]) /\
  String.length (Str.upto 5000 ("Error: " +:+ long_name)) = 5000%nat /\
  String.length ("Error: " +:+ long_name) = 5007%nat /\
  (ev_data <$> last (_events (fst s)))
  <> Some (JDict [("tool", JStr "explain"); ("id", JStr "toolu_1");
                  ("result", JStr ("Error: " +:+ long_name))]).
Proof.
  cbv zeta. split; [vm_compute; reflexivity |]. split; [vm_compute; reflexivity |].
  split; [vm_compute; reflexivity |]. split; [vm_compute; reflexivity |].
  intros Heq.
  apply (f_equal (fun o : option json =>
                    match o with
                    | Some (JDict [_; _; (_, JStr t)]) => String.length t
                    | _ => 0
                    end)) in Heq.
  vm_compute in Heq. discriminate Heq.
Qed.

(** ** C10 *)

Lemma unknown_tool_becomes_result_witness :
  fst (for_block (ToolUseBlock "toolu_3" "search" (JDict [("query", JStr "TODO")]))
                 ([], []) (implementer0, host0))
  = inr ([], [tool_result_entry "toolu_3" (JStr "Error: unknown tool 'search'")]).
Proof.
  destruct (proj1 AgentFacts.unknown_tool_becomes_result
              "toolu_3" "search" (JDict [("query", JStr "TODO")]) ([], [])
              (implementer0, host0) eq_refl) as (Hblock & _ & _).
  rewrite Hblock. reflexivity.
Defined.

(** A tool-use block names a tool of 5000 characters that the agent does
    not have: the event carries 5000 characters of the 5022 of the text. *)
Lemma long_unknown_tool_is_cut_in_the_event :
  let s := snd (for_block (ToolUseBlock "toolu_1" long_name (JDict [])) ([], [])
                          (implementer0, host0)) in
  fst (for_block (ToolUseBlock "toolu_1" long_name (JDict [])) ([], []) (implementer0, host0))
  = inr ([], [tool_result_entry "toolu_1"
                (JStr ("Error: unknown tool '" +:+ long_name +:+ "'"))]) /\
  (ev_data <$> last (_events (fst s)))
  = Some (JDict [("tool", JStr long_name); ("id", JStr "toolu_1");
                 ("result", JStr (Str.upto 5000 ("Error: unknown tool '" +:+ long_name +:+ "'")))]) /\
  String.length (Str.upto 5000 ("Error: unknown tool '" +:+ long_name +:+ "'")) = 5000%nat /\
  (ev_data <$> last (_events (fst s)))
  <> Some (JDict [("tool", JStr long_name); ("id", JStr "toolu_1");
                  ("result", JStr ("Error: unknown tool '" +:+ long_name +:+ "'"))]).
Proof.
  cbv zeta. split; [vm_compute; reflexivity |]. split; [vm_compute; reflexivity |].
  split; [vm_compute; reflexivity |].
  intros Heq.
  apply (f_equal (fun o : option json =>
                    match o with
                    | Some (JDict [_; _; (_, JStr t)]) => String.length t
                    | _ => 0
                    end)) in Heq.
  vm_compute in Heq. discriminate Heq.
Qed.

(** ** C9 *)

Lemma empty_response_completes_witness :
  exists out s' ev,
    while_ (_build_tools_schema silent0) 40 (silent0, host0) = (inr out, s') /\
    out_result out = JDict [("summary", JStr "")] /\
    out_role out = "implementer" /\
    last (out_events out) = Some ev /\
    ev_type ev = "status_change" /\
    ev_data ev = JDict [("status", JStr "implementer_completed")].
Proof.
  apply (AgentFacts.empty_response_completes (_build_tools_schema silent0)
           (silent0, host0) {| content := [] |}
           (snd (await (_client silent0
                          (request (_build_tools_schema silent0) silent0))
                       (silent0, host0))) 39);
    first [apply outcome_eta; vm_compute; reflexivity | reflexivity].
Defined.

(** ** C7 *)

Lemma resume_appends_user_turn_witness :
  last (_messages (fst (resumed "Also add a /ready endpoint" (answered_agent, host0))))
  = Some {| msg_role := "user"; msg_content := CStr "Also add a /ready endpoint" |}.
Proof.
  apply (proj2 AgentFacts.resume_appends_user_turn "Also add a /ready endpoint"
           (answered_agent, host0)
           {| msg_role := "assistant";
              msg_content := CList [Block (TextBlock "Nothing to change.")] |});
    reflexivity.
Defined.

(** ** C8 *)

Lemma read_after_write_witness :
  local_read_file sandbox0 "notes/todo.txt"
    (snd (local_write_file sandbox0 "notes/todo.txt" "buy milk" host0))
  = (inr "buy milk", snd (local_write_file sandbox0 "notes/todo.txt" "buy milk" host0)).
Proof.
  apply (SandboxFacts.read_after_write sandbox0 "notes/todo.txt" "buy milk" host0).
  - apply outcome_eta. vm_compute. reflexivity.
  - reflexivity.
  - reflexivity.
Defined.

(** A carriage return does not come back, and the workspace itself cannot
    be written as a file. *)
Lemma carriage_return_is_not_read_back :
  let content := "a" +:+ cr +:+ "b" in
  let written := local_write_file sandbox0 "notes.txt" content host0 in
  fst written = inr tt /\
  OS.utf8_valid content = true /\
  fst (local_read_file sandbox0 "notes.txt" (snd written)) = inr ("a" +:+ nl +:+ "b") /\
  fst (local_read_file sandbox0 "notes.txt" (snd written)) <> inr content /\
  fst (local_write_file sandbox0 "." "x" host0)
  = inl (Raise IsADirectoryError "[Errno 21] Is a directory: '/tmp/ramp_x/repo'").
Proof.
  cbv zeta. split; [vm_compute; reflexivity |]. split; [reflexivity |].
  split; [vm_compute; reflexivity |]. split; [| vm_compute; reflexivity].
  vm_compute. discriminate.
Qed.

(** ** C2 *)



End Witness.
(** * Facts about strings *)

Module StrFacts.

Lemma append_nil (t : string) : "" +:+ t = t.
Proof. reflexivity. Qed.

Lemma append_cons c (s t : string) : String c s +:+ t = String c (s +:+ t).
Proof. reflexivity. Qed.

Lemma index_skip p s t :
  String.index (String.length p) s (p +:+ t)
  = option_map (fun i => String.length p + i) (String.index 0 s t).
Proof.
  induction p as [| c p IH].
  - rewrite append_nil. cbn [String.length]. now destruct (String.index 0 s t).
  - rewrite append_cons. cbn [String.length String.index]. rewrite IH.
    now destruct (String.index 0 s t).
Qed.

Lemma length_append (s t : string) :
  String.length (s +:+ t) = String.length s + String.length t.
Proof.
  induction s as [| c s IH]; [reflexivity |].
  rewrite append_cons. cbn [String.length]. now rewrite IH.
Qed.

Lemma append_assoc (s t u : string) : (s +:+ t) +:+ u = s +:+ (t +:+ u).
Proof.
  induction s as [| c s IH]; [reflexivity |]. rewrite !append_cons. now rewrite IH.
Qed.

Lemma prefix_append (s t : string) : String.prefix s (s +:+ t) = true.
Proof.
  induction s as [| c s IH]; [now destruct t |].
  rewrite append_cons. cbn [String.prefix]. destruct (ascii_dec c c); [exact IH | congruence].
Qed.

Lemma index_prefix c (s t : string) : String.index 0 (String c s) (String c s +:+ t) = Some 0.
Proof.
  pose proof (prefix_append (String c s) t) as Hp. rewrite append_cons in *.
  cbn [String.index]. now rewrite Hp.
Qed.

End StrFacts.


(** * Further properties of the executor *)

Module AgentMore.

Import Agent AgentSpec LoopSpec StrFacts.

Lemma len_upto s : forall n : N, Str.len (Str.upto n s) <= N.to_nat n.
Proof.
  induction s as [| c s IH]; intros n; simpl; [lia |].
  destruct (Str.is_cont c) eqn:Hc; simpl; rewrite ?Hc.
  - apply IH.
  - destruct (N.eqb_spec n 0) as [-> | Hne]; simpl; [lia |].
    rewrite Hc. specialize (IH (N.pred n)). lia.
Qed.

Section Facts.

Context {W : Type} `{!Clock W} `{!JsonModule}.

Lemma same_config_refl (a : BaseAgent (W := W)) : same_config a a.
Proof. unfold same_config. tauto. Qed.

Lemma same_config_trans (a b c : BaseAgent (W := W)) :
  same_config a b -> same_config b c -> same_config a c.
Proof. unfold same_config. intuition congruence. Qed.

Lemma emits_refl (s : State W) : emits s s.
Proof.
  split; [now repeat split |]. exists []. split; [now rewrite app_nil_r | constructor].
Qed.

Lemma emits_trans (s1 s2 s3 : State W) : emits s1 s2 -> emits s2 s3 -> emits s1 s3.
Proof.
  intros [Hc1 (n1 & He1 & Hf1)] [Hc2 (n2 & He2 & Hf2)].
  split; [now apply (same_config_trans _ (fst s2)) |].
  exists (n1 ++ n2). split; [now rewrite He2, He1, app_assoc |].
  apply Forall_app. split; [assumption |].
  destruct Hc1 as [Hr _]. now rewrite <- Hr.
Qed.

Lemma emit_emits type_ data (a : BaseAgent) (w : W) :
  loop_event (role a) (emitted a w type_ data) ->
  emits (a, w) (snd (_emit type_ data (a, w))).
Proof.
  intros Hev. rewrite AgentFacts.emit_eq. cbn [fst snd].
  split; [now repeat split |]. eexists. split; [reflexivity |]. now constructor.
Qed.

Lemma update_emits (f : BaseAgent (W := W) -> BaseAgent) (s : State W) :
  same_config (fst s) (f (fst s)) -> _events (f (fst s)) = _events (fst s) ->
  emits s (snd (update f s)).
Proof.
  intros Hc He. rewrite AgentFacts.update_eq. cbn [fst snd]. split; [assumption |].
  exists []. split; [now rewrite app_nil_r | constructor].
Qed.

Lemma await_emits {A} (t : Task A) (s : State W) : emits s (snd (await t s)).
Proof.
  unfold await, zoom. destruct (t _) as [r0 [f w']]. cbn [fst snd].
  split; [now repeat split |]. exists []. split; [now rewrite app_nil_r | constructor].
Qed.

Lemma dispatch_emits t input (s : State W) : emits s (snd (dispatch t input s)).
Proof.
  unfold dispatch, try_except, bind.
  pose proof (await_emits (handler t input) s) as Ha.
  destruct (await (handler t input) s) as [[e | v] s1]; cbn [snd] in Ha.
  - destruct (is_Exception e); assumption.
  - destruct v; assumption.
Qed.

Lemma called_emits id n input (s : State W) : emits s (called id n input s).
Proof.
  split; [now repeat split |]. eexists. split; [reflexivity |].
  constructor; [| constructor]. apply ev_tool_call.
Qed.

Lemma answered_emits id n result_str (s : State W) : emits s (answered id n result_str s).
Proof.
  split; [now repeat split |]. eexists. split; [reflexivity |].
  constructor; [| constructor]. apply ev_tool_result.
Qed.

Lemma for_block_emits b acc (s : State W) : emits s (snd (for_block b acc s)).
Proof.
  destruct b as [text | id n input | ty].
  - destruct s as [a w]. rewrite AgentFacts.for_block_text. cbn [snd].
    split; [now repeat split |]. eexists. split; [reflexivity |].
    constructor; [| constructor]. apply ev_agent_message.
  - rewrite AgentFacts.for_block_tool_use.
    pose proof (called_emits id n input s) as Hc.
    assert (Hd : emits (called id n input s)
                   (snd ((match _find_tool (fst s) n with
                          | Some t => dispatch t input
                          | None => ret (unknown_tool n, JStr (unknown_tool n))
                          end) (called id n input s)))).
    { destruct (_find_tool (fst s) n); [apply dispatch_emits | apply emits_refl]. }
    destruct ((match _find_tool (fst s) n with
               | Some t => dispatch t input
               | None => ret (unknown_tool n, JStr (unknown_tool n))
               end) (called id n input s)) as [[e | [rs tc]] s1]; cbn [snd] in *.
    + now apply (emits_trans _ _ _ Hc).
    + apply (emits_trans _ _ _ Hc). apply (emits_trans _ _ _ Hd). apply answered_emits.
  - apply emits_refl.
Qed.

Lemma for_blocks_emits blocks : forall acc (s : State W),
  emits s (snd (for_blocks blocks acc s)).
Proof.
  induction blocks as [| b bs IH]; intros acc s; [apply emits_refl |].
  simpl. unfold bind. pose proof (for_block_emits b acc s) as Hb.
  destruct (for_block b acc s) as [[e | acc1] s1]; cbn [snd] in *; [assumption |].
  apply (emits_trans _ _ _ Hb). apply IH.
Qed.

Lemma after_while_emits (s : State W) : emits s (snd (after_while s)).
Proof.
  destruct s as [a w]. destruct (_done (flags a)) eqn:Hd.
  - rewrite (AgentFacts.after_while_done a w Hd). cbn [snd].
    split; [now repeat split |]. eexists. split; [reflexivity |].
    constructor; [| constructor]. apply ev_completed.
  - rewrite (AgentFacts.after_while_not_done a w Hd). cbn [snd].
    split; [now repeat split |]. eexists. split; [reflexivity |].
    constructor; [| constructor]. apply ev_max_iterations.
Qed.

Lemma break_interrupted_emits (s : State W) : emits s (snd (break_interrupted s)).
Proof.
  unfold break_interrupted, bind, ret. rewrite AgentFacts.update_eq. cbn [fst snd].
  split; [now repeat split |]. exists []. split; [now rewrite app_nil_r | constructor].
Qed.

Lemma completing_emits (s : State W) :
  emits s (snd ((a3 <- self ;; _emit "status_change" (status a3 "_completed") ;;
                 out <- output ;; ret (Return out)) s)).
Proof.
  destruct s as [a w]. unfold bind, self, gets. cbn [fst snd].
  rewrite AgentFacts.emit_eq, AgentFacts.output_eq. cbn [fst snd ret].
  split; [now repeat split |]. eexists. split; [reflexivity |].
  constructor; [| constructor]. apply ev_completed.
Qed.

Lemma body_emits schema (s : State W) : emits s (snd (body schema s)).
Proof.
  destruct s as [a w]. unfold body, bind at 1, self at 1, gets at 1. cbn [fst snd].
  destruct (_interrupted (flags a)); [apply break_interrupted_emits |].
  unfold bind at 1. pose proof (await_emits (_client a (request schema a)) (a, w)) as Ha.
  fold (request schema a).
  destruct (await (_client a (request schema a)) (a, w)) as [[e | response] [a1 w1]];
    cbn [snd] in Ha; [assumption |].
  apply (emits_trans _ _ _ Ha).
  unfold bind at 1, self at 1, gets at 1. cbn [fst snd].
  destruct (_interrupted (flags a1)); [apply break_interrupted_emits |].
  unfold bind at 1. pose proof (for_blocks_emits (content response) ([], []) (a1, w1)) as Hf.
  destruct (for_blocks (content response) ([], []) (a1, w1)) as [[e | [texts results]] [a2 w2]];
    cbn [snd] in Hf; [assumption |].
  apply (emits_trans _ _ _ Hf).
  destruct (existsb is_tool_use (content response)).
  { unfold bind, ret. rewrite AgentFacts.update_eq. cbn [fst snd].
    split; [now repeat split |]. exists []. split; [now rewrite app_nil_r | constructor]. }
  unfold bind at 1, self at 1, gets at 1. cbn [fst snd]. unfold bind at 1.
  destruct (_done (flags a2)).
  - unfold ret at 1. apply completing_emits.
  - destruct (_parse_output _) as [e | v]; [apply emits_refl |].
    rewrite AgentFacts.update_eq. cbn [fst snd].
    apply (emits_trans _ (with_flags a2 (set_result v (flags a2)), w2)).
    + split; [now repeat split |]. exists [].
      split; [now rewrite app_nil_r | constructor].
    + apply completing_emits.
Qed.

Lemma while_emits schema n : forall s : State W, emits s (snd (while_ schema n s)).
Proof.
  induction n as [| n IH]; intros s; [apply after_while_emits |].
  destruct s as [a w]. simpl. unfold bind at 1, self at 1, gets at 1. cbn [fst snd].
  destruct (_done (flags a)); [apply after_while_emits |].
  unfold bind. pose proof (body_emits schema (a, w)) as Hb.
  destruct (body schema (a, w)) as [[e | step] s1]; cbn [snd] in Hb; [assumption |].
  apply (emits_trans _ _ _ Hb). destruct step as [| | out].
  - apply IH.
  - apply after_while_emits.
  - apply emits_refl.
Qed.

Lemma loop_emits (s : State W) : emits s (snd (_loop s)).
Proof. destruct s as [a w]. unfold _loop, bind, self, gets. cbn [fst snd]. apply while_emits. Qed.


Lemma while_output schema n : forall (s : State W) out s',
  while_ schema n s = (inr out, s') ->
  out_events out = _events (fst s') /\ out_role out = role (fst s').
Proof.
  assert (Hafter : forall (s : State W) out s',
            after_while s = (inr out, s') ->
            out_events out = _events (fst s') /\ out_role out = role (fst s')).
  { intros [a w] out s'. destruct (_done (flags a)) eqn:Hd.
    - rewrite (AgentFacts.after_while_done a w Hd). intros [= <- <-]. now split.
    - rewrite (AgentFacts.after_while_not_done a w Hd). intros [= <- <-]. now split. }
  induction n as [| n IH]; intros s out s'; [apply Hafter |].
  destruct s as [a w]. simpl. unfold bind at 1, self at 1, gets at 1. cbn [fst snd].
  destruct (_done (flags a)); [apply Hafter |].
  unfold bind. destruct (body schema (a, w)) as [[e | step] s1] eqn:Hb; [discriminate |].
  destruct step as [| | out1]; [apply IH | apply Hafter |].
  unfold ret. intros [= <- <-]. revert Hb.
  unfold body, bind at 1, self at 1, gets at 1. cbn [fst snd].
  destruct (_interrupted (flags a)).
  { unfold break_interrupted, bind, ret. rewrite AgentFacts.update_eq. discriminate. }
  unfold bind at 1.
  destruct (await _ (a, w)) as [[e | response] [a1 w1]]; [discriminate |].
  unfold bind at 1, self at 1, gets at 1. cbn [fst snd].
  destruct (_interrupted (flags a1)).
  { unfold break_interrupted, bind, ret. rewrite AgentFacts.update_eq. discriminate. }
  unfold bind at 1.
  destruct (for_blocks (content response) ([], []) (a1, w1)) as [[e | [texts results]] [a2 w2]];
    [discriminate |].
  destruct (existsb is_tool_use (content response)).
  { unfold bind, ret. rewrite AgentFacts.update_eq. discriminate. }
  unfold bind at 1, self at 1, gets at 1. cbn [fst snd]. unfold bind at 1.
  destruct (_done (flags a2)).
  - unfold ret at 1. unfold bind, self, gets. cbn [fst snd].
    rewrite AgentFacts.emit_eq, AgentFacts.output_eq. unfold ret. intros [= <- <-]. now split.
  - destruct (_parse_output _) as [e | v]; [discriminate |].
    rewrite AgentFacts.update_eq. unfold bind, self, gets. cbn [fst snd].
    rewrite AgentFacts.emit_eq, AgentFacts.output_eq. unfold ret. intros [= <- <-]. now split.
Qed.

(** X1.  Whatever the loop of an agent does and however it ends, it leaves
    the role, the system prompt, the iteration cap, the model, the tools,
    the event callback and the client of the agent as they were; the events
    recorded before it are still there, in their order, in front of the new
    ones; every new event carries the role of the agent and is an agent
    message, a tool call, a tool result, the [<role>_completed] status
    change or the max-iterations error; and an output that the loop returns
    holds exactly these events and the role of the agent. *)
Theorem loop_keeps_configuration_and_events (s : State W) :
  same_config (fst s) (fst (snd (_loop s))) /\
  exists new,
    _events (fst (snd (_loop s))) = _events (fst s) ++ new /\
    Forall (loop_event (role (fst s))) new /\
    Forall (fun e => ev_role e = role (fst s)) new /\
    forall out, fst (_loop s) = inr out ->
                out_events out = _events (fst s) ++ new /\ out_role out = role (fst s).
Proof.
  destruct (loop_emits s) as [Hc (new & Hev & Hall)]. split; [assumption |].
  exists new. split; [assumption |]. split; [assumption |]. split.
  - eapply Forall_impl; [exact Hall |]. intros e He. now destruct He.
  - intros out Hout. destruct s as [a w]. revert Hout Hev Hc.
    unfold _loop, bind, self, gets. cbn [fst snd].
    destruct (while_ _ _ (a, w)) as [r s'] eqn:Hw. cbn [fst snd]. intros -> Hev Hc.
    apply while_output in Hw as [Ho Hr]. rewrite Ho, Hr, Hev.
    split; [reflexivity |]. now destruct Hc.
Qed.

(** X2.  The text that a [tool_result] event of the loop shows has at most
    5000 characters, whatever the tool returned or raised. *)
Theorem tool_result_text_is_bounded (s : State W) :
  exists new,
    _events (fst (snd (_loop s))) = _events (fst s) ++ new /\
    Forall (fun e => ev_type e = "tool_result" ->
                     exists r, result_text e = Some r /\ Str.len r <= 5000) new.
Proof.
  destruct (loop_emits s) as [_ (new & Hev & Hall)]. exists new. split; [assumption |].
  eapply Forall_impl; [exact Hall |]. intros e He Hty.
  destruct He; try discriminate Hty.
  eexists. split; [reflexivity |]. apply (len_upto result_str 5000).
Qed.


(** ** How many requests the loop makes *)

Section Requests.

Variable requests : W -> nat.
Variable a0 : BaseAgent (W := W).
Hypothesis Hclient : counts_requests requests a0.
Hypothesis Htools : handlers_do_not_count requests a0.
Hypothesis Hcallback : callback_does_not_count requests a0.

Lemma find_tool_in_In ts n (t : ToolDef (W := W)) : find_tool_in ts n = Some t -> In t ts.
Proof.
  induction ts as [| t' ts IH]; simpl; [discriminate |].
  destruct (String.eqb (name t') n); [intros [= ->]; now left | right; now apply IH].
Qed.

Lemma notified_requests (a : BaseAgent) (w : W) ev :
  same_config a0 a -> requests (notified a w ev) = requests w.
Proof.
  intros (_ & _ & _ & _ & _ & Hcb & _). unfold notified.
  destruct (_event_callback a) as [cb |] eqn:Hc; [| reflexivity].
  apply Hcallback. now rewrite <- Hcb.
Qed.

Lemma handler_requests t input (s : State W) :
  same_config a0 (fst s) -> In t (tools (fst s)) ->
  requests (snd (snd (await (handler t input) s))) = requests (snd s).
Proof.
  intros (_ & _ & _ & _ & Ht & _) Hin. unfold await, zoom.
  destruct (handler t input _) as [r [f' w']] eqn:Hh. cbn [fst snd].
  rewrite Ht in Hin. exact (Htools t Hin _ _ _ _ _ _ Hh).
Qed.

Lemma dispatch_requests t input (s : State W) :
  same_config a0 (fst s) -> In t (tools (fst s)) ->
  requests (snd (snd (dispatch t input s))) = requests (snd s).
Proof.
  intros Hc Hin. unfold dispatch, try_except, bind.
  pose proof (handler_requests t input s Hc Hin) as Hh.
  destruct (await (handler t input) s) as [[e | v] s1]; cbn [snd] in *.
  - now destruct (is_Exception e).
  - now destruct v.
Qed.

Lemma for_block_requests b acc (s : State W) :
  same_config a0 (fst s) ->
  requests (snd (snd (for_block b acc s))) = requests (snd s).
Proof.
  intros Hc. destruct b as [text | id n input | ty].
  - destruct s as [a w]. rewrite AgentFacts.for_block_text. cbn [fst snd].
    now apply notified_requests.
  - rewrite AgentFacts.for_block_tool_use.
    assert (Hcalled : requests (snd (called id n input s)) = requests (snd s))
      by (apply notified_requests; exact Hc).
    assert (Hd : requests (snd (snd ((match _find_tool (fst s) n with
                                      | Some t => dispatch t input
                                      | None => ret (unknown_tool n, JStr (unknown_tool n))
                                      end) (called id n input s))))
                 = requests (snd s)).
    { destruct (_find_tool (fst s) n) as [t |] eqn:Hf; [| exact Hcalled].
      rewrite dispatch_requests; [exact Hcalled | exact Hc |].
      apply find_tool_in_In in Hf. exact Hf. }
    pose proof (for_block_emits (ToolUseBlock id n input) acc s) as Hem.
    rewrite AgentFacts.for_block_tool_use in Hem.
    pose proof (called_emits id n input s) as Hce.
    assert (Hde : emits (called id n input s)
                    (snd ((match _find_tool (fst s) n with
                           | Some t => dispatch t input
                           | None => ret (unknown_tool n, JStr (unknown_tool n))
                           end) (called id n input s)))).
    { destruct (_find_tool (fst s) n); [apply dispatch_emits | apply emits_refl]. }
    destruct ((match _find_tool (fst s) n with
               | Some t => dispatch t input
               | None => ret (unknown_tool n, JStr (unknown_tool n))
               end) (called id n input s)) as [[e | [rs tc]] s1]; cbn [snd] in *;
      [exact Hd |].
    unfold answered. cbn [snd]. rewrite notified_requests; [exact Hd |].
    apply (same_config_trans _ (fst s)); [exact Hc |].
    destruct Hce as [Hc1 _]. destruct Hde as [Hc2 _].
    exact (same_config_trans _ _ _ Hc1 Hc2).
  - reflexivity.
Qed.

Lemma for_blocks_requests blocks : forall acc (s : State W),
  same_config a0 (fst s) ->
  requests (snd (snd (for_blocks blocks acc s))) = requests (snd s).
Proof.
  induction blocks as [| b bs IH]; intros acc s Hc; [reflexivity |].
  simpl. unfold bind. pose proof (for_block_requests b acc s Hc) as Hb.
  pose proof (for_block_emits b acc s) as [Hc1 _].
  destruct (for_block b acc s) as [[e | acc1] s1]; cbn [snd] in *; [exact Hb |].
  rewrite IH; [exact Hb |]. exact (same_config_trans _ _ _ Hc Hc1).
Qed.

Lemma after_while_requests (s : State W) :
  same_config a0 (fst s) -> requests (snd (snd (after_while s))) = requests (snd s).
Proof.
  intros Hc. destruct s as [a w]. destruct (_done (flags a)) eqn:Hd.
  - rewrite (AgentFacts.after_while_done a w Hd). cbn [fst snd]. now apply notified_requests.
  - rewrite (AgentFacts.after_while_not_done a w Hd). cbn [fst snd].
    now apply notified_requests.
Qed.

Lemma completing_requests (s : State W) :
  same_config a0 (fst s) ->
  requests (snd (snd ((a3 <- self ;; _emit "status_change" (status a3 "_completed") ;;
                       out <- output ;; ret (Return out)) s))) = requests (snd s).
Proof.
  intros Hc. destruct s as [a w]. unfold bind, self, gets. cbn [fst snd].
  rewrite AgentFacts.emit_eq, AgentFacts.output_eq. cbn [fst snd ret].
  now apply notified_requests.
Qed.

(** One pass through the body makes at most one request. *)
Lemma body_requests schema (s : State W) :
  same_config a0 (fst s) ->
  requests (snd (snd (body schema s))) <= S (requests (snd s)).
Proof.
  intros Hc. destruct s as [a w]. unfold body, bind at 1, self at 1, gets at 1.
  cbn [fst snd] in *.
  destruct (_interrupted (flags a)).
  { unfold break_interrupted, bind, ret. rewrite AgentFacts.update_eq. cbn [fst snd]. lia. }
  unfold bind at 1. fold (request schema a).
  pose proof (await_emits (_client a (request schema a)) (a, w)) as [Hc1 _].
  assert (Hreq : requests (snd (snd (await (_client a (request schema a)) (a, w))))
                 = S (requests w)).
  { unfold await, zoom. cbn [fst snd].
    destruct (_client a (request schema a) (flags a, w)) as [r [f' w']] eqn:Hcl.
    cbn [fst snd]. destruct Hc as (_ & _ & _ & _ & _ & _ & Hcli). rewrite Hcli in Hcl.
    exact (Hclient _ _ _ _ _ _ Hcl). }
  destruct (await (_client a (request schema a)) (a, w)) as [[e | response] [a1 w1]];
    cbn [fst snd] in *; [lia |].
  pose proof (same_config_trans _ _ _ Hc Hc1) as Hc01.
  unfold bind at 1, self at 1, gets at 1. cbn [fst snd].
  destruct (_interrupted (flags a1)).
  { unfold break_interrupted, bind, ret. rewrite AgentFacts.update_eq. cbn [fst snd]. lia. }
  unfold bind at 1.
  pose proof (for_blocks_requests (content response) ([], []) (a1, w1) Hc01) as Hf.
  pose proof (for_blocks_emits (content response) ([], []) (a1, w1)) as [Hc2 _].
  destruct (for_blocks (content response) ([], []) (a1, w1)) as [[e | [texts results]] [a2 w2]];
    cbn [fst snd] in *; [lia |].
  pose proof (same_config_trans _ _ _ Hc01 Hc2) as Hc02.
  destruct (existsb is_tool_use (content response)).
  { unfold bind, ret. rewrite AgentFacts.update_eq. cbn [fst snd]. lia. }
  unfold bind at 1, self at 1, gets at 1. cbn [fst snd]. unfold bind at 1.
  destruct (_done (flags a2)).
  - unfold ret at 1. rewrite (completing_requests (a2, w2) Hc02). cbn [snd]. lia.
  - destruct (_parse_output _) as [e | v]; [unfold raise; cbn [fst snd]; lia |].
    rewrite AgentFacts.update_eq. cbn [fst snd].
    rewrite (completing_requests (with_flags a2 (set_result v (flags a2)), w2)).
    + cbn [snd]. lia.
    + exact Hc02.
Qed.

Lemma while_requests schema n : forall s : State W,
  same_config a0 (fst s) ->
  requests (snd (snd (while_ schema n s))) <= requests (snd s) + n.
Proof.
  induction n as [| n IH]; intros s Hc.
  - simpl. rewrite after_while_requests by assumption. lia.
  - destruct s as [a w]. simpl. unfold bind at 1, self at 1, gets at 1. cbn [fst snd].
    destruct (_done (flags a)).
    { rewrite after_while_requests by assumption. cbn [snd]. lia. }
    unfold bind. pose proof (body_requests schema (a, w) Hc) as Hb.
    pose proof (body_emits schema (a, w)) as [Hc1 _].
    destruct (body schema (a, w)) as [[e | step] s1]; cbn [fst snd] in *; [lia |].
    pose proof (same_config_trans _ _ _ Hc Hc1) as Hc01.
    destruct step as [| | out].
    + specialize (IH s1 Hc01). lia.
    + rewrite after_while_requests by assumption. lia.
    + unfold ret. cbn [snd]. lia.
Qed.

End Requests.

(** X3.  The loop asks the decision-maker at most [max_iterations] times,
    however it ends: with a count of the requests kept in the world, which
    every call of the client raises by one and which neither a tool handler
    nor the event callback touches, the count after the loop exceeds the
    count before it by at most [max_iterations]. *)
Theorem loop_makes_at_most_max_iterations_requests
    (requests : W -> nat) (a : BaseAgent (W := W)) (w : W) :
  counts_requests requests a ->
  handlers_do_not_count requests a ->
  callback_does_not_count requests a ->
  requests (snd (snd (_loop (a, w)))) <= requests w + max_iterations a.
Proof.
  intros Hclient Htools Hcallback. unfold _loop, bind, self, gets. cbn [fst snd].
  apply (while_requests requests a Hclient Htools Hcallback _ _ (a, w)).
  apply same_config_refl.
Qed.

(** ** Interruption *)

(** X4.  Once [interrupt] has been called on an agent, a later [run] makes
    no request: it replaces the history by the context, emits the
    [<role>_started] and the [<role>_completed] status changes and returns
    the result [{status: interrupted, summary: Run interrupted}].  The
    agent has a positive iteration cap. *)
Theorem run_after_interrupt_returns_interrupted context (a : BaseAgent (W := W)) (w : W) :
  0 < max_iterations a ->
  let started := emitted a w "status_change" (status a "_started") in
  let w1 := notified a w started in
  let completed := emitted a w1 "status_change" (status a "_completed") in
  exists s',
    (await interrupt ;; run context) (a, w) =
      (inr {| out_role := role a; out_result := interrupted_result;
              out_events := _events a ++ [started; completed] |}, s') /\
    _messages (fst s') = [{| msg_role := "user"; msg_content := CStr (json_dumps context) |}] /\
    _done (flags (fst s')) = true /\
    snd s' = notified a w1 completed.
Proof.
  intros Hmax. cbv zeta. destruct (max_iterations a) as [| n] eqn:Hn; [lia |].
  unfold bind at 1. unfold await at 1, zoom, interrupt, modify. cbn [fst snd].
  unfold run. unfold bind at 1. rewrite AgentFacts.update_eq. cbn [fst snd].
  unfold bind at 1. rewrite AgentFacts.update_eq. cbn [fst snd].
  unfold bind at 1, self at 1, gets at 1. cbn [fst snd].
  unfold bind at 1. rewrite AgentFacts.emit_eq. cbn [fst snd].
  unfold _loop, bind at 1, self at 1, gets at 1.
  cbn [fst snd max_iterations with_events with_flags with_messages]. rewrite Hn.
  cbn [while_]. unfold bind at 1, self at 1, gets at 1. cbn [fst snd flags with_events
    with_flags with_messages _done set_done set_interrupted].
  unfold bind at 1. unfold body, bind at 1, self at 1, gets at 1.
  cbn [fst snd flags with_events with_flags with_messages _interrupted set_done
         set_interrupted].
  unfold break_interrupted, bind at 1. rewrite AgentFacts.update_eq. unfold ret at 1.
  cbn [fst snd]. rewrite AgentFacts.after_while_done by reflexivity.
  cbv zeta. eexists. split.
  - cbn [role with_events with_flags with_messages _events flags _result set_result
           set_done set_interrupted]. rewrite <- app_assoc. reflexivity.
  - cbn. repeat split; reflexivity.
Qed.

(** X5.  When the interruption arrives while the request is awaited, the
    response is dropped: none of its blocks is emitted or dispatched, the
    history is not extended, and the loop ends with the result
    [{status: interrupted, summary: Run interrupted}] and the
    [<role>_completed] status change. *)
Theorem interrupt_during_request_drops_response schema n (s s1 : State W) response :
  _done (flags (fst s)) = false ->
  _interrupted (flags (fst s)) = false ->
  await (_client (fst s) (request schema (fst s))) s = (inr response, s1) ->
  _interrupted (flags (fst s1)) = true ->
  let completed := emitted (fst s) (snd s1) "status_change" (status (fst s) "_completed") in
  exists s',
    while_ schema (S n) s =
      (inr {| out_role := role (fst s); out_result := interrupted_result;
              out_events := _events (fst s) ++ [completed] |}, s') /\
    _messages (fst s') = _messages (fst s) /\
    snd s' = notified (fst s) (snd s1) completed.
Proof.
  intros Hd Hi Ha Hi1. cbv zeta. pose proof (AgentFacts.await_agent _ _ _ _ Ha) as Hag.
  destruct s as [a w], s1 as [a1 w1]. cbn [fst snd] in *.
  simpl. unfold bind at 1, self at 1, gets at 1. cbn [fst snd]. rewrite Hd.
  unfold bind at 1. unfold body, bind at 1, self at 1, gets at 1. cbn [fst snd]. rewrite Hi.
  unfold bind at 1. fold (request schema a). rewrite Ha.
  unfold bind at 1, self at 1, gets at 1. cbn [fst snd]. rewrite Hi1.
  unfold break_interrupted, bind at 1. rewrite AgentFacts.update_eq. unfold ret at 1.
  cbn [fst snd]. rewrite AgentFacts.after_while_done by reflexivity. cbv zeta.
  rewrite Hag. eexists. split; [reflexivity |]. split; reflexivity.
Qed.

(** ** The end of a run *)

Lemma while_done schema n (s : State W) :
  _done (flags (fst s)) = true -> while_ schema n s = after_while s.
Proof.
  intros Hd. destruct n as [| n]; [reflexivity |]. destruct s as [a w]. simpl.
  unfold bind at 1, self at 1, gets at 1. cbn [fst snd] in *. now rewrite Hd.
Qed.

Lemma dispatch_complete kv (s : State W) :
  dispatch AgentFactory.complete_tool (JDict kv) s =
  (inr ("Session complete.", JStr "Session complete."),
   (with_flags (fst s) (set_result (JDict kv) (set_done true (flags (fst s)))), snd s)).
Proof. destruct s as [a w]. reflexivity. Qed.

(** X6.  When a response ends with a call of the [complete] tool, the run
    ends with that response: the keyword arguments of the call are the
    result, the call is answered with [Session complete.], the history
    receives the assistant turn and the user turn with the tool results,
    and the loop returns after the [<role>_completed] status change without
    another request, whatever is left of the iteration cap. *)
Theorem complete_tool_ends_the_run schema n (s s1 s2 : State W) response pre id kv acc :
  _done (flags (fst s)) = false ->
  _interrupted (flags (fst s)) = false ->
  await (_client (fst s) (request schema (fst s))) s = (inr response, s1) ->
  _interrupted (flags (fst s1)) = false ->
  content response = pre ++ [ToolUseBlock id "complete" (JDict kv)] ->
  for_blocks pre ([], []) s1 = (inr acc, s2) ->
  _find_tool (fst s2) "complete" = Some AgentFactory.complete_tool ->
  exists out s' call answer completed,
    while_ schema (S n) s = (inr out, s') /\
    out_result out = JDict kv /\
    out_role out = role (fst s) /\
    out_events out = _events (fst s2) ++ [call; answer; completed] /\
    ev_type call = "tool_call" /\
    ev_type answer = "tool_result" /\
    ev_data answer = result_data id "complete" "Session complete." /\
    ev_type completed = "status_change" /\
    ev_data completed = JDict [("status", JStr (role (fst s) +:+ "_completed"))] /\
    _messages (fst s') =
      _messages (fst s2) ++
      [{| msg_role := "assistant"; msg_content := CList (map Block (content response)) |};
       {| msg_role := "user";
          msg_content :=
            CList (map Entry (snd acc ++
                              [tool_result_entry id (JStr "Session complete.")])) |}].
Proof.
  intros Hd Hi Ha Hi1 Hc Hpre Hfind.
  assert (Hrole : role (fst s2) = role (fst s)).
  { pose proof (await_emits (_client (fst s) (request schema (fst s))) s) as [Hc1 _].
    rewrite Ha in Hc1. cbn [snd] in Hc1.
    pose proof (for_blocks_emits pre ([], []) s1) as [Hc2 _].
    rewrite Hpre in Hc2. cbn [snd] in Hc2.
    destruct Hc1 as [H1 _], Hc2 as [H2 _]. congruence. }
  set (s3 := called id "complete" (JDict kv) s2).
  set (s4 := (with_flags (fst s3) (set_result (JDict kv) (set_done true (flags (fst s3)))),
              snd s3)).
  set (s5 := answered id "complete" "Session complete." s4).
  set (results := snd acc ++ [tool_result_entry id (JStr "Session complete.")]).
  assert (Hblock : for_block (ToolUseBlock id "complete" (JDict kv)) acc s2
                   = (inr (fst acc, results), s5)).
  { rewrite AgentFacts.for_block_tool_use, Hfind. fold s3. now rewrite dispatch_complete. }
  assert (Hbody : body schema s = (inr Continue, extended response results s5)).
  { apply (AgentFacts.body_continue schema s response s1 (fst acc) results s5);
      try assumption.
    - rewrite Hc, existsb_app. simpl. apply orb_true_r.
    - rewrite Hc, AgentFacts.for_blocks_app, Hpre. cbn [for_blocks]. unfold bind.
      now rewrite Hblock. }
  rewrite (AgentFacts.while_continue schema n s _ Hd Hbody).
  rewrite while_done by reflexivity.
  destruct (extended response results s5) as [a6 w6] eqn:He6.
  rewrite AgentFacts.after_while_done
    by (injection He6 as <- <-; reflexivity).
  cbv zeta. injection He6 as <- <-. destruct s2 as [a2 w2]. cbn [fst snd] in *.
  eexists _, _, _, _, _. split; [reflexivity |].
  cbn [out_result out_role out_events].
  split; [reflexivity |]. split; [exact Hrole |].
  split; [cbn; rewrite <- !app_assoc; reflexivity |].
  split; [reflexivity |]. split; [reflexivity |]. split; [reflexivity |].
  split; [reflexivity |].
  split; [unfold emitted, status; cbn [ev_data role with_messages with_events with_flags];
          now rewrite Hrole |].
  reflexivity.
Qed.

(** ** The final answer *)

Lemma first_fence pre rest :
  Str.has_char "`" pre = false ->
  String.index 0 "```json" (pre +:+ ("```json" +:+ rest)) = Some (String.length pre).
Proof.
  induction pre as [| c pre IH]; intros Hp.
  - rewrite append_nil. apply index_prefix.
  - cbn [Str.has_char] in Hp. apply orb_false_iff in Hp as [Hc Hp].
    rewrite append_cons. cbn [String.index String.prefix String.length].
    destruct (ascii_dec "`" c) as [<- | _]; [discriminate Hc |].
    now rewrite (IH Hp).
Qed.

Lemma parse_output_unclosed pre rest :
  Str.has_char "`" pre = false ->
  Str.contains "```" rest = false ->
  _parse_output (pre +:+ ("```json" +:+ rest)) = inl (Raise ValueError "substring not found").
Proof.
  intros Hp Hr. unfold _parse_output, Str.index_from. rewrite (first_fence pre rest Hp).
  replace (String.length pre + 7) with (String.length (pre +:+ "```json"))
    by (rewrite length_append; reflexivity).
  rewrite <- append_assoc, index_skip.
  unfold Str.contains, Str.index_from in Hr.
  destruct (String.index 0 "```" rest); [discriminate | reflexivity].
Qed.

(** X7.  A final answer that opens a [json] fence and never closes it makes
    the loop raise [ValueError]: when a response without a tool-use block
    has a text that holds no backquote before the fence and no fence after
    it, the search for the closing fence fails outside any [try], the
    exception leaves the loop, and no [<role>_completed] status change is
    emitted.  The run was not interrupted and [done] is unset. *)
Theorem unclosed_json_fence_raises schema n (s s1 : State W) response pre rest :
  _done (flags (fst s)) = false ->
  _interrupted (flags (fst s)) = false ->
  await (_client (fst s) (request schema (fst s))) s = (inr response, s1) ->
  _interrupted (flags (fst s1)) = false ->
  _done (flags (fst s1)) = false ->
  existsb is_tool_use (content response) = false ->
  Str.join nl (texts_of (content response)) = pre +:+ ("```json" +:+ rest) ->
  Str.has_char "`" pre = false ->
  Str.contains "```" rest = false ->
  exists s' new,
    while_ schema (S n) s = (inl (Raise ValueError "substring not found"), s') /\
    _events (fst s') = _events (fst s) ++ new /\
    Forall (fun e => ev_type e = "agent_message") new.
Proof.
  intros Hd Hi Ha Hi1 Hd1 Ht Htext Hp Hr.
  assert (Hblocks : forall blocks acc (s2 : State W),
            existsb is_tool_use blocks = false ->
            exists new, _events (fst (snd (for_blocks blocks acc s2))) = _events (fst s2) ++ new /\
                        Forall (fun e => ev_type e = "agent_message") new).
  { induction blocks as [| b bs IH]; intros acc s2 Hn.
    - exists []. split; [now rewrite app_nil_r | constructor].
    - simpl in Hn. apply orb_false_iff in Hn as [Hb Hn].
      destruct b as [text | id0 n0 input | ty]; [| discriminate Hb |].
      + destruct s2 as [a2 w2]. cbn [for_blocks]. unfold bind at 1.
        rewrite AgentFacts.for_block_text. cbv zeta.
        destruct (IH (fst acc ++ [text], snd acc)
                     (with_events a2 (_events a2 ++ [emitted a2 w2 "agent_message"
                                                       (JDict [("content", JStr text)])]),
                      notified a2 w2 (emitted a2 w2 "agent_message"
                                        (JDict [("content", JStr text)]))) Hn)
          as (new & Hev & Hall).
        eexists. split; [rewrite Hev; cbn [fst _events with_events];
                         rewrite <- app_assoc; reflexivity |].
        constructor; [reflexivity | assumption].
      + cbn [for_blocks for_block]. unfold bind at 1, ret at 1. now apply IH. }
  destruct (AgentFacts.for_blocks_no_tool_use (content response) ([], []) s1 Ht)
    as (s2 & Hf & Hfl & _ & _).
  destruct (Hblocks (content response) ([], []) s1 Ht) as (new & Hev & Hall).
  rewrite Hf in Hev. cbn [snd] in Hev.
  pose proof (AgentFacts.await_events _ _ _ _ Ha) as [Hsame _]. unfold same_events in Hsame.
  destruct s as [a w], s1 as [a1 w1], s2 as [a2 w2]. cbn [fst snd] in *.
  exists (a2, w2), new. split.
  - simpl. unfold bind at 1, self at 1, gets at 1. cbn [fst snd]. rewrite Hd.
    unfold bind at 1. unfold body, bind at 1, self at 1, gets at 1. cbn [fst snd]. rewrite Hi.
    unfold bind at 1. fold (request schema a). rewrite Ha.
    unfold bind at 1, self at 1, gets at 1. cbn [fst snd]. rewrite Hi1.
    unfold bind at 1. rewrite Hf, Ht. cbn [fst snd app]. rewrite Htext.
    unfold bind at 1, self at 1, gets at 1. cbn [fst snd]. rewrite Hfl, Hd1.
    rewrite (parse_output_unclosed pre rest Hp Hr). reflexivity.
  - cbn [fst]. split; [now rewrite Hev, Hsame | assumption].
Qed.

(** ** The history *)

Lemma for_block_answers b acc (s : State W) r s' :
  for_block b acc s = (inr r, s') ->
  exists more, snd r = snd acc ++ more /\
               Forall2 (fun e id => exists tc, e = tool_result_entry id tc)
                       more (tool_use_ids [b]) /\
               _messages (fst s') = _messages (fst s).
Proof.
  destruct b as [text | id n input | ty].
  - destruct s as [a w]. rewrite AgentFacts.for_block_text. intros [= <- <-].
    exists []. cbn. rewrite app_nil_r. repeat split. constructor.
  - rewrite AgentFacts.for_block_tool_use.
    assert (Hm : _messages (fst (snd ((match _find_tool (fst s) n with
                                       | Some t => dispatch t input
                                       | None => ret (unknown_tool n, JStr (unknown_tool n))
                                       end) (called id n input s))))
                 = _messages (fst s)).
    { destruct (_find_tool (fst s) n) as [t |]; [| reflexivity].
      unfold dispatch, try_except, bind, await, zoom.
      destruct (handler t input _) as [[e | v] [f' w']]; cbn [fst snd].
      - now destruct (is_Exception e).
      - now destruct v. }
    destruct ((match _find_tool (fst s) n with
               | Some t => dispatch t input
               | None => ret (unknown_tool n, JStr (unknown_tool n))
               end) (called id n input s)) as [[e | [rs tc]] s1]; [discriminate |].
    intros [= <- <-]. cbn [fst snd] in *. eexists. split; [reflexivity |]. split.
    + constructor; [now exists tc | constructor].
    + exact Hm.
  - simpl. unfold ret. intros [= <- <-]. exists []. rewrite app_nil_r.
    repeat split. constructor.
Qed.

Lemma for_blocks_answers blocks : forall acc (s : State W) r s',
  for_blocks blocks acc s = (inr r, s') ->
  exists more, snd r = snd acc ++ more /\
               Forall2 (fun e id => exists tc, e = tool_result_entry id tc)
                       more (tool_use_ids blocks) /\
               _messages (fst s') = _messages (fst s).
Proof.
  induction blocks as [| b bs IH]; intros acc s r s'; cbn [for_blocks].
  - unfold ret. intros [= <- <-]. exists []. rewrite app_nil_r. repeat split. constructor.
  - unfold bind. destruct (for_block b acc s) as [[e | acc1] s1] eqn:Hb; [discriminate |].
    intros Hrest. apply for_block_answers in Hb as (m1 & Hm1 & Hf1 & Hs1).
    apply IH in Hrest as (m2 & Hm2 & Hf2 & Hs2). exists (m1 ++ m2).
    split; [now rewrite Hm2, Hm1, app_assoc |]. split; [| congruence].
    replace (tool_use_ids (b :: bs)) with (tool_use_ids [b] ++ tool_use_ids bs)
      by (destruct b; reflexivity).
    now apply Forall2_app.
Qed.

(** X8.  An iteration that ends in [continue] appends two turns to the
    history and nothing else: the assistant turn with the blocks of the
    response, and a user turn whose entries are, one for one and in the
    order of the blocks, the [tool_result] entries for the identifiers of
    the tool-use blocks of the response. *)
Theorem tool_results_answer_tool_uses schema (s s' : State W) :
  body schema s = (inr Continue, s') ->
  exists blocks results,
    _messages (fst s') =
      _messages (fst s) ++
      [{| msg_role := "assistant"; msg_content := CList (map Block blocks) |};
       {| msg_role := "user"; msg_content := CList (map Entry results) |}] /\
    Forall2 (fun e id => exists tc, e = tool_result_entry id tc)
            results (tool_use_ids blocks) /\
    omap answers results = tool_use_ids blocks.
Proof.
  destruct s as [a w]. unfold body, bind at 1, self at 1, gets at 1. cbn [fst snd].
  destruct (_interrupted (flags a)).
  { unfold break_interrupted, bind, ret. rewrite AgentFacts.update_eq. discriminate. }
  unfold bind at 1.
  destruct (await _ (a, w)) as [[e | response] [a1 w1]] eqn:Ha; [discriminate |].
  apply AgentFacts.await_agent in Ha. cbn [fst] in Ha.
  unfold bind at 1, self at 1, gets at 1. cbn [fst snd].
  destruct (_interrupted (flags a1)).
  { unfold break_interrupted, bind, ret. rewrite AgentFacts.update_eq. discriminate. }
  unfold bind at 1.
  destruct (for_blocks (content response) ([], []) (a1, w1)) as [[e | [texts results]] [a2 w2]]
    eqn:Hf; [discriminate |].
  apply for_blocks_answers in Hf as (more & Hmore & Hall & Hmsg). cbn [fst snd app] in *.
  subst results.
  destruct (existsb is_tool_use (content response)).
  - unfold bind, ret. rewrite AgentFacts.update_eq. intros [= <-]. cbn [fst snd].
    exists (content response), more. split.
    + cbn [_messages with_messages]. rewrite Hmsg, Ha. reflexivity.
    + split; [assumption |]. clear - Hall.
      induction Hall as [| e id l ids (tc & ->) _ IH]; [reflexivity |].
      cbn. now rewrite IH.
  - unfold bind at 1, self at 1, gets at 1. cbn [fst snd]. unfold bind at 1.
    destruct (_done (flags a2)).
    + unfold ret at 1. unfold bind, self, gets. cbn [fst snd].
      rewrite AgentFacts.emit_eq, AgentFacts.output_eq. discriminate.
    + destruct (_parse_output _) as [e | v]; [discriminate |].
      rewrite AgentFacts.update_eq. unfold bind, self, gets. cbn [fst snd].
      rewrite AgentFacts.emit_eq, AgentFacts.output_eq. discriminate.
Qed.

(** X9.  A follow-up to a history that ends with a user turn is merged into
    that turn, so that the history never holds two user turns in a row at
    its end: [resume] enters the loop with a history as long as before,
    the same but for its last turn, whose content is the old string, an
    empty line and the message, or the old list and a [text] entry with the
    message. *)
Theorem resume_merges_into_last_user_turn user_message (s : State W) m :
  last (_messages (fst s)) = Some m ->
  msg_role m = "user" ->
  exists s0,
    resume user_message s = _loop s0 /\
    _messages (fst s0) =
      removelast (_messages (fst s)) ++
      [{| msg_role := "user";
          msg_content :=
            match msg_content m with
            | CStr t => CStr (t +:+ nl +:+ nl +:+ user_message)
            | CList l => CList (l ++ [Entry (JDict [("type", JStr "text");
                                                    ("text", JStr user_message)])])
            end |}] /\
    length (_messages (fst s0)) = length (_messages (fst s)).
Proof.
  intros Hlast Hrole. exists (resumed user_message s).
  split; [apply AgentFacts.resume_eq |].
  assert (Heq : _messages (fst (resumed user_message s)) =
                removelast (_messages (fst s)) ++
                [{| msg_role := "user";
                    msg_content :=
                      match msg_content m with
                      | CStr t => CStr (t +:+ nl +:+ nl +:+ user_message)
                      | CList l => CList (l ++ [Entry (JDict [("type", JStr "text");
                                                              ("text", JStr user_message)])])
                      end |}]).
  { unfold resumed. cbn [fst snd _messages with_events with_flags with_messages].
    unfold append_user_message. rewrite Hlast, Hrole. cbn [String.eqb Ascii.eqb Bool.eqb].
    destruct (msg_content m); reflexivity. }
  split; [assumption |]. rewrite Heq, length_app. cbn [length].
  destruct (_messages (fst s)) as [| m0 ms] using rev_ind; [discriminate Hlast |].
  rewrite removelast_last, length_app. reflexivity.
Qed.
End Facts.

End AgentMore.

(** * Further properties of the local sandbox and of the file tools *)

Module SandboxMore.

Import Sandbox SandboxSpec FilesSpec.

Lemma walk_insert_any (f : gmap (list string) OS.node) ps : forall cur c at_ n,
  OS.walk f cur ps = inr c ->
  OS.node_at f at_ <> Some OS.Dir ->
  OS.walk (<[at_ := n]> f) cur ps = inr c.
Proof.
  induction ps as [| p ps IH]; intros cur c at_ n Hw Hnd; [assumption |].
  simpl in *. destruct (OS.node_at f cur) as [[| data] |] eqn:Hc; try discriminate.
  assert (Hne : at_ <> cur) by (intros ->; congruence).
  rewrite (SandboxFacts.node_at_insert_ne f at_ cur n Hne), Hc. now apply IH.
Qed.

Lemma node_at_None_ne (f : gmap (list string) OS.node) c : OS.node_at f c <> Some OS.Dir -> c <> [].
Proof. intros Hn ->. now apply Hn. Qed.

Lemma same_but_files_refl w : same_but_files w w.
Proof. now destruct w. Qed.

Lemma same_but_files_trans w1 w2 w3 :
  same_but_files w1 w2 -> same_but_files w2 w3 -> same_but_files w1 w3.
Proof. unfold same_but_files. intros <- <-. reflexivity. Qed.

Lemma adds_dirs_refl f : adds_dirs f f.
Proof. split; [now intros c n | intros c n Hc; now left]. Qed.

Lemma adds_dirs_trans f1 f2 f3 : adds_dirs f1 f2 -> adds_dirs f2 f3 -> adds_dirs f1 f3.
Proof.
  intros [Hg1 Ho1] [Hg2 Ho2]. split.
  - intros c n Hc. apply Hg2. now apply Hg1.
  - intros c n Hc. destruct (Ho2 c n Hc) as [H2 | [H2 ->]].
    + now apply Ho1.
    + destruct (OS.node_at f1 c) as [n1 |] eqn:H1; [| now right].
      apply Hg1 in H1. congruence.
Qed.

Lemma adds_dirs_insert (f : gmap (list string) OS.node) c :
  OS.node_at f c = None -> adds_dirs f (<[c := OS.Dir]> f).
Proof.
  intros Hn. assert (Hne : c <> []) by (intros ->; discriminate Hn). split.
  - intros c' n Hc. rewrite SandboxFacts.node_at_insert by assumption.
    destruct (decide (c = c')) as [<- | _]; [congruence | assumption].
  - intros c' n. rewrite SandboxFacts.node_at_insert by assumption.
    destruct (decide (c = c')) as [<- | _]; [intros [= <-]; now right | now left].
Qed.

(** What [os.mkdir] does when it succeeds. *)
Lemma os_mkdir_inr p (w w' : OS.World) :
  OS.os_mkdir p w = inr w' ->
  exists c, OS.locate w p = inr c /\ OS.node_at (OS.files w) c = None /\
            w' = OS.with_files w (<[c := OS.Dir]> (OS.files w)).
Proof.
  unfold OS.os_mkdir. destruct (OS.locate w p) as [e | c]; [discriminate |].
  destruct (OS.node_at (OS.files w) c) eqn:Hn; [discriminate |].
  intros [= <-]. now exists c.
Qed.

Lemma os_mkdir_effect p (w w' : OS.World) :
  OS.os_mkdir p w = inr w' ->
  same_but_files w w' /\ adds_dirs (OS.files w) (OS.files w') /\ OS.is_dir w' p = true.
Proof.
  intros Hm. apply os_mkdir_inr in Hm as (c & Hloc & Hn & ->).
  split; [reflexivity |]. split; [now apply adds_dirs_insert |].
  unfold OS.is_dir, OS.stat, OS.locate in *. cbn [OS.files OS.cwd OS.with_files].
  rewrite (SandboxFacts.walk_insert _ _ _ _ _ Hloc) by congruence.
  rewrite SandboxFacts.node_at_insert_eq; [reflexivity |]. intros ->. discriminate Hn.
Qed.

Lemma mkdir_exist_ok_effect p (w : OS.World) r w' :
  OS.mkdir_exist_ok p w = (r, w') ->
  same_but_files w w' /\ adds_dirs (OS.files w) (OS.files w') /\
  (r = inr tt -> OS.is_dir w' p = true).
Proof.
  unfold OS.mkdir_exist_ok. destruct (OS.os_mkdir p w) as [e | w1] eqn:Hm.
  - assert (Hsame : same_but_files w w /\ adds_dirs (OS.files w) (OS.files w))
      by (split; [apply same_but_files_refl | apply adds_dirs_refl]).
    destruct e; try (intros [= <- <-]; split; [tauto |]; split; [tauto | discriminate]);
      destruct (OS.is_dir w p) eqn:Hd; intros [= <- <-];
      (split; [tauto |]); (split; [tauto |]); first [discriminate | intros _; exact Hd].
  - intros [= <- <-]. apply os_mkdir_effect in Hm as (H1 & H2 & H3). tauto.
Qed.

(** [mkdir(parents=True, exist_ok=True)] only ever makes directories, and
    when it returns the directory is there. *)
Lemma mkdir_parents_effect r rparts : forall (w : OS.World) res w',
  OS.mkdir_parents r rparts w = (res, w') ->
  same_but_files w w' /\ adds_dirs (OS.files w) (OS.files w') /\
  (res = inr tt -> OS.is_dir w' {| root := r; parts := rev rparts |} = true).
Proof.
  induction rparts as [| x rparts IH]; intros w res w'; rewrite SandboxFacts.mkdir_parents_eq;
    cbv zeta.
  - destruct (OS.os_mkdir _ w) as [e | w1] eqn:Hm.
    + assert (Hsame : same_but_files w w /\ adds_dirs (OS.files w) (OS.files w))
        by (split; [apply same_but_files_refl | apply adds_dirs_refl]).
      destruct e; try (intros [= <- <-]; split; [tauto |]; split; [tauto | discriminate]);
        destruct (OS.is_dir w _) eqn:Hd; intros [= <- <-];
        (split; [tauto |]); (split; [tauto |]); first [discriminate | intros _; exact Hd].
    + intros [= <- <-]. apply os_mkdir_effect in Hm as (H1 & H2 & H3). tauto.
  - destruct (OS.os_mkdir _ w) as [e | w1] eqn:Hm.
    + assert (Hsame : same_but_files w w /\ adds_dirs (OS.files w) (OS.files w))
        by (split; [apply same_but_files_refl | apply adds_dirs_refl]).
      destruct e.
      * destruct (OS.mkdir_parents r rparts w) as [[e1 | []] w1] eqn:Hrec;
          apply IH in Hrec as (Hs1 & Ha1 & _).
        -- intros [= <- <-]. split; [assumption |]. split; [assumption | discriminate].
        -- intros Hlast. apply mkdir_exist_ok_effect in Hlast as (Hs2 & Ha2 & Hd2).
           split; [now apply (same_but_files_trans _ w1) |].
           split; [now apply (adds_dirs_trans _ (OS.files w1)) | assumption].
      * destruct (OS.is_dir w _) eqn:Hd; intros [= <- <-];
          (split; [tauto |]); (split; [tauto |]); first [discriminate | intros _; exact Hd].
      * destruct (OS.is_dir w _) eqn:Hd; intros [= <- <-];
          (split; [tauto |]); (split; [tauto |]); first [discriminate | intros _; exact Hd].
      * destruct (OS.is_dir w _) eqn:Hd; intros [= <- <-];
          (split; [tauto |]); (split; [tauto |]); first [discriminate | intros _; exact Hd].
    + intros [= <- <-]. apply os_mkdir_effect in Hm as (H1 & H2 & H3). tauto.
Qed.

(** ** Reading *)

Lemma sorted_iterdir_state p (w : OS.World) : snd (OS.sorted_iterdir p w) = w.
Proof.
  unfold OS.sorted_iterdir, bind, get. destruct (OS.locate w p) as [e | c]; [reflexivity |].
  now destruct (OS.node_at (OS.files w) c) as [[| d] |].
Qed.

Lemma read_text_state p (w : OS.World) : snd (OS.read_text p w) = w.
Proof.
  unfold OS.read_text, bind, get. destruct (OS.locate w p) as [e | c]; [reflexivity |].
  destruct (OS.node_at (OS.files w) c) as [[| d] |]; try reflexivity.
  now destruct (OS.utf8_valid d).
Qed.

(** X10.  [read_file] and [list_dir] of the local sandbox leave the world
    as it is, whatever the path and whether they return or raise. *)
Theorem reading_changes_nothing sandbox path (w : OS.World) :
  snd (local_read_file sandbox path w) = w /\ snd (local_list_dir sandbox path w) = w.
Proof.
  split.
  - unfold local_read_file.
    destruct (negb (is_relative_to _ _)); [reflexivity |].
    unfold bind at 1, get at 1.
    destruct (negb (OS.exists_ w _)); [reflexivity |].
    destruct (OS.is_dir w _).
    + unfold bind. pose proof (sorted_iterdir_state (joinpath (workspace sandbox) path) w) as Hs.
      destruct (OS.sorted_iterdir _ w) as [[e | names] w1]; cbn [snd] in *; now subst.
    + unfold try_except.
      pose proof (read_text_state (joinpath (workspace sandbox) path) w) as Hs.
      destruct (OS.read_text _ w) as [[e | text] w1]; cbn [snd] in *; subst; [| reflexivity].
      now destruct (exn_class_eqb _ _).
  - unfold local_list_dir.
    destruct (negb (is_relative_to _ _)); [reflexivity |].
    unfold bind. pose proof (sorted_iterdir_state (joinpath (workspace sandbox) path) w) as Hs.
    destruct (OS.sorted_iterdir _ w) as [[e | names] w1]; cbn [snd] in *; now subst.
Qed.

(** X11.  [read_file] does not fail on a file that is not UTF-8 text: for
    a path that passes the workspace check and names a file whose bytes do
    not decode, it returns the placeholder [[binary file, N bytes]] with
    the size of the file in bytes. *)
Theorem binary_file_is_described_by_its_size sandbox path (w : OS.World) data :
  is_relative_to (joinpath (workspace sandbox) path) (workspace sandbox) = true ->
  OS.stat w (joinpath (workspace sandbox) path) = inr (OS.File data) ->
  OS.utf8_valid data = false ->
  local_read_file sandbox path w
  = (inr ("[binary file, " +:+ Str.of_nat (String.length data) +:+ " bytes]"), w).
Proof.
  intros Hc Hs Hu. unfold local_read_file. rewrite Hc. cbn [negb].
  unfold bind at 1, get at 1. unfold OS.exists_, OS.is_dir, OS.st_size. rewrite Hs. cbn [negb].
  unfold try_except, OS.read_text, bind, get. unfold OS.stat in Hs.
  destruct (OS.locate w _) as [e | c]; [discriminate |].
  destruct (OS.node_at (OS.files w) c) as [[| d] |]; try discriminate.
  injection Hs as ->. rewrite Hu. reflexivity.
Qed.

(** ** Writing *)

Lemma write_text_effect p data (w : OS.World) r w' :
  OS.write_text p data w = (r, w') ->
  (r = inr tt /\ exists loc, OS.locate w p = inr loc /\
                             OS.node_at (OS.files w) loc <> Some OS.Dir /\
                             w' = OS.with_files w (<[loc := OS.File data]> (OS.files w))) \/
  ((exists e, r = inl e) /\ w' = w).
Proof.
  unfold OS.write_text, bind, get. destruct (OS.locate w p) as [e | loc].
  { intros [= <- <-]. right. split; [now eexists | reflexivity]. }
  destruct (OS.node_at (OS.files w) loc) as [[| d] |] eqn:Hn; unfold modify, raise;
    intros [= <- <-];
    first [ right; split; [now eexists | reflexivity]
          | left; split; [reflexivity |]; exists loc;
            split; [reflexivity |]; split; [congruence | reflexivity] ].
Qed.

(** X12.  [write_file] touches one file: whether it returns or raises, the
    world differs from the old one in its files only; every directory is
    still a directory; every file is still there with its content, except
    the file that the path resolves to, which a successful call leaves
    with the content written. *)
Theorem write_file_touches_one_file sandbox path content (w : OS.World) r w' :
  local_write_file sandbox path content w = (r, w') ->
  same_but_files w w' /\
  (forall c, OS.node_at (OS.files w) c = Some OS.Dir ->
             OS.node_at (OS.files w') c = Some OS.Dir) /\
  (forall c d, OS.node_at (OS.files w) c = Some (OS.File d) ->
               OS.node_at (OS.files w') c = Some (OS.File d) \/
               (r = inr tt /\
                OS.locate w' (joinpath (workspace sandbox) path) = inr c /\
                OS.node_at (OS.files w') c = Some (OS.File content))).
Proof.
  unfold local_write_file.
  destruct (negb (is_relative_to _ _)).
  { intros [= <- <-]. split; [apply same_but_files_refl |]. split; [auto |]. now left. }
  unfold bind, OS.mkdir.
  destruct (OS.mkdir_parents _ _ w) as [[e | []] w1] eqn:Hm;
    apply mkdir_parents_effect in Hm as (Hs1 & [Hg1 Ho1] & _).
  { intros [= <- <-]. split; [assumption |]. split; [intros c; apply Hg1 |].
    intros c d Hc. left. now apply Hg1. }
  intros Hw. apply write_text_effect in Hw as [(-> & loc & Hloc & Hnd & ->) | [_ ->]].
  - assert (Hne : loc <> []) by now apply node_at_None_ne in Hnd.
    split; [unfold same_but_files in *; rewrite <- Hs1; reflexivity |].
    cbn [OS.files OS.with_files]. split.
    + intros c Hc. apply Hg1 in Hc. rewrite SandboxFacts.node_at_insert by assumption.
      destruct (decide (loc = c)) as [<- | _]; [contradiction | assumption].
    + intros c d Hc. apply Hg1 in Hc. rewrite SandboxFacts.node_at_insert by assumption.
      destruct (decide (loc = c)) as [<- | _]; [right | now left].
      split; [reflexivity |]. split; [| reflexivity].
      unfold OS.locate in *. cbn [OS.files OS.cwd OS.with_files].
      apply SandboxFacts.walk_insert; assumption.
  - split; [assumption |]. split; [intros c; apply Hg1 |].
    intros c d Hc. left. now apply Hg1.
Qed.

(** Reading back what was written. *)
Lemma read_back sandbox path content (w w' : OS.World) :
  local_write_file sandbox path content w = (inr tt, w') ->
  OS.utf8_valid content = true ->
  local_read_file sandbox path w' = (inr (OS.universal_newlines content), w').
Proof.
  intros Hw Hu. unfold local_write_file in Hw. unfold local_read_file.
  destruct (is_relative_to (joinpath (workspace sandbox) path) (workspace sandbox));
    [| discriminate]. cbn [negb] in *.
  apply bind_inr in Hw as ([] & w1 & _ & Hw).
  apply SandboxFacts.write_text_inr in Hw as (loc & Hloc & Hnd & ->).
  set (target := joinpath (workspace sandbox) path) in *.
  set (f' := <[loc := OS.File content]> (OS.files w1)).
  assert (Hloc' : OS.locate (OS.with_files w1 f') target = inr loc).
  { unfold OS.locate in *. cbn [OS.files OS.cwd OS.with_files].
    now apply SandboxFacts.walk_insert. }
  assert (Hne : loc <> []) by (intros ->; now apply Hnd).
  assert (Hnode : OS.node_at f' loc = Some (OS.File content))
    by now apply SandboxFacts.node_at_insert_eq.
  unfold bind at 1, get at 1.
  unfold OS.exists_, OS.is_dir, OS.stat. rewrite Hloc'. cbn [OS.files OS.with_files].
  rewrite Hnode. cbn [negb].
  unfold try_except, OS.read_text, bind, get. rewrite Hloc'.
  cbn [OS.files OS.with_files]. rewrite Hnode, Hu. reflexivity.
Qed.

(** X13.  The last write wins: once [write_file(S, p, c1)] has succeeded,
    [write_file(S, p, c2)] succeeds as well for every UTF-8 string [c2],
    and [read_file] then returns the second content (with its line ends
    read as [\n]). *)
Theorem second_write_succeeds_and_wins sandbox path c1 c2 (w w1 : OS.World) :
  local_write_file sandbox path c1 w = (inr tt, w1) ->
  OS.utf8_valid c2 = true ->
  exists w2,
    local_write_file sandbox path c2 w1 = (inr tt, w2) /\
    local_read_file sandbox path w2 = (inr (OS.universal_newlines c2), w2).
Proof.
  intros Hw Hu.
  assert (Hsecond : exists w2, local_write_file sandbox path c2 w1 = (inr tt, w2)).
  { unfold local_write_file in *.
    destruct (is_relative_to (joinpath (workspace sandbox) path) (workspace sandbox));
      [| discriminate]. cbn [negb] in *.
    set (target := joinpath (workspace sandbox) path) in *.
    apply bind_inr in Hw as ([] & wa & Hm & Hw).
    unfold OS.mkdir in *. apply mkdir_parents_effect in Hm as (_ & _ & Hdir).
    specialize (Hdir eq_refl). rewrite rev_involutive in Hdir.
    apply SandboxFacts.write_text_inr in Hw as (loc & Hloc & Hnd & ->).
    assert (Hne : loc <> []) by now apply node_at_None_ne in Hnd.
    set (wb := OS.with_files wa (<[loc := OS.File c1]> (OS.files wa))).
    (* the parent is still a directory *)
    assert (Hdir' : OS.is_dir wb {| root := root (parent target);
                                    parts := parts (parent target) |} = true).
    { unfold OS.is_dir, OS.stat, OS.locate in *. cbn [OS.files OS.cwd OS.with_files wb].
      destruct (OS.walk (OS.files wa) _ (parts {| root := root (parent target);
                                                   parts := parts (parent target) |}))
        as [e | c] eqn:Hwalk; [discriminate |].
      rewrite (walk_insert_any _ _ _ _ loc (OS.File c1) Hwalk Hnd).
      destruct (OS.node_at (OS.files wa) c) as [[| d] |] eqn:Hc; try discriminate.
      rewrite SandboxFacts.node_at_insert_ne by (intros ->; congruence). now rewrite Hc. }
    assert (Hmk : OS.mkdir_parents (root (parent target)) (rev (parts (parent target))) wb
                  = (inr tt, wb)).
    { rewrite SandboxFacts.mkdir_parents_eq. cbv zeta. rewrite rev_involutive.
      unfold OS.os_mkdir, OS.is_dir, OS.stat in *.
      destruct (OS.locate wb _) as [e | c]; [discriminate |].
      destruct (OS.node_at (OS.files wb) c) as [[| d] |]; try discriminate. reflexivity. }
    unfold bind. rewrite Hmk.
    unfold OS.write_text, bind, get.
    assert (Hloc' : OS.locate wb target = inr loc).
    { unfold OS.locate in *. cbn [OS.files OS.cwd OS.with_files wb].
      now apply SandboxFacts.walk_insert. }
    rewrite Hloc'. cbn [OS.files OS.with_files wb].
    rewrite SandboxFacts.node_at_insert_eq by assumption. eexists. reflexivity. }
  destruct Hsecond as (w2 & Hw2). exists w2. split; [assumption |].
  now apply (read_back sandbox path c2 w1).
Qed.

(** ** Removing *)


Lemma walk_delete (f : gmap (list string) OS.node) ps : forall cur c at_ d,
  OS.walk f cur ps = inr c ->
  OS.node_at f at_ = Some (OS.File d) ->
  OS.walk (delete at_ f) cur ps = inr c.
Proof.
  induction ps as [| p ps IH]; intros cur c at_ d Hw Hf; [assumption |].
  simpl in *. destruct (OS.node_at f cur) as [[| data] |] eqn:Hc; try discriminate.
  assert (Hne : at_ <> cur) by (intros ->; congruence).
  assert (Hcur : OS.node_at (delete at_ f) cur = Some OS.Dir).
  { destruct cur as [| x cur]; [reflexivity |]. simpl in *.
    now rewrite lookup_delete_ne. }
  rewrite Hcur. now apply (IH _ _ _ d).
Qed.

(** What [unlink] does. *)
Lemma unlink_effect p (w : OS.World) r w' :
  OS.unlink p w = (r, w') ->
  (r = inr tt /\ exists c d, OS.locate w p = inr c /\
                             OS.node_at (OS.files w) c = Some (OS.File d) /\
                             w' = OS.with_files w (delete c (OS.files w))) \/
  ((exists e, r = inl e) /\ w' = w).
Proof.
  unfold OS.unlink, bind, get. destruct (OS.locate w p) as [e | c].
  { intros [= <- <-]. right. split; [now eexists | reflexivity]. }
  destruct (OS.node_at (OS.files w) c) as [[| d] |] eqn:Hn; unfold modify, raise;
    intros [= <- <-];
    first [ right; split; [now eexists | reflexivity]
          | left; split; [reflexivity |]; exists c, d; now repeat split ].
Qed.

(** X15.  [delete_file] of the file tools removes at most the one file that
    the path resolves to.  When it returns, the path does not exist any
    more: either the message is [Deleted <path>] and the world is the old
    one without that file, or the message is [<path> not found] and the
    world is unchanged.  When it raises (the path fails the workspace
    check, or it names a directory), the world is unchanged. *)
Theorem delete_file_removes_one_file sandbox path (w : OS.World) r w' :
  Filesystem.delete_file sandbox path w = (r, w') ->
  let target := joinpath (workspace sandbox) path in
  match r with
  | inr msg =>
      OS.exists_ w' target = false /\
      ((msg = "Deleted " +:+ path /\
        exists c d, OS.locate w target = inr c /\
                    OS.node_at (OS.files w) c = Some (OS.File d) /\
                    w' = OS.with_files w (delete c (OS.files w))) \/
       (msg = path +:+ " not found" /\ w' = w))
  | inl _ => w' = w
  end.
Proof.
  unfold Filesystem.delete_file. cbv zeta.
  destruct (negb (is_relative_to _ _)); [now intros [= <- <-] |].
  unfold bind at 1, get at 1.
  destruct (OS.exists_ w (joinpath (workspace sandbox) path)) eqn:He.
  - unfold bind.
    destruct (OS.unlink _ w) as [[e | []] w1] eqn:Hu;
      apply unlink_effect in Hu as [(Hr & c & d & Hloc & Hn & ->) | [[e0 He0] ->]];
      try discriminate Hr; try discriminate He0.
    + now intros [= <- <-].
    + unfold ret. intros [= <- <-]. split.
      * unfold OS.exists_, OS.stat, OS.locate in *. cbn [OS.files OS.cwd OS.with_files].
        rewrite (walk_delete _ _ _ _ c d Hloc Hn).
        assert (Hne : c <> []) by (intros ->; discriminate Hn).
        destruct c as [| x c]; [congruence |]. simpl. now rewrite lookup_delete_eq.
      * left. split; [reflexivity |]. now exists c, d.
  - unfold ret. intros [= <- <-]. split; [assumption |]. right. now split.
Qed.

(** X16.  On a relative path the [delete_file] tool of the implementer,
    which does not check the path, does exactly what [delete_file] of the
    file tools does: the two differ on absolute paths only. *)
Theorem implementer_delete_agrees_on_relative_paths sandbox path (w : OS.World) :
  root (parse path) = "" ->
  Implementer._delete sandbox path w = Filesystem.delete_file sandbox path w.
Proof.
  intros Hr. unfold Implementer._delete, Filesystem.delete_file.
  now rewrite (SandboxFacts.relative_path_passes_check (workspace sandbox) path Hr).
Qed.

End SandboxMore.

(** * Properties of the command tools *)

Module ShellFacts.

Import Sandbox.

Lemma upto_prefix s : forall n : N, String.prefix (Str.upto n s) s = true.
Proof.
  induction s as [| c s IH]; intros n; [reflexivity |].
  cbn [Str.upto]. destruct (Str.is_cont c).
  - cbn [String.prefix]. destruct (ascii_dec c c); [apply IH | congruence].
  - destruct (n =? 0)%N; [reflexivity |].
    cbn [String.prefix]. destruct (ascii_dec c c); [apply IH | congruence].
Qed.

Section Facts.

Context {W : Type} `{!SandboxProvider W}.

(** X17.  The result of a command reaches the agent cut to size: the
    [run_command] tool returns the exit code as it is, the first 50000
    characters of the standard output and the first 10000 characters of
    the standard error, each in full when it is not longer; and what the
    provider raises, the tool raises.  The command tool of the orchestrator
    agent does the same with a timeout of 60 seconds. *)
Theorem command_output_is_cut_to_size sandbox command timeout (w : W) :
  match Sandbox.run_command sandbox command timeout w with
  | (inr result, w') =>
      exists out err,
        Shell.run_command sandbox command timeout w
        = (inr (JDict [("exit_code", JInt (exit_code result));
                       ("stdout", JStr out); ("stderr", JStr err)]), w') /\
        (N.of_nat (Str.len out) <= 50000)%N /\
        String.prefix out (stdout result) = true /\
        ((N.of_nat (Str.len (stdout result)) <= 50000)%N -> out = stdout result) /\
        (N.of_nat (Str.len err) <= 10000)%N /\
        String.prefix err (stderr result) = true /\
        ((N.of_nat (Str.len (stderr result)) <= 10000)%N -> err = stderr result)
  | (inl e, w') => Shell.run_command sandbox command timeout w = (inl e, w')
  end /\
  AgentFactory._run_command sandbox command = Shell.run_command sandbox command 60%Z.
Proof.
  split; [| reflexivity]. unfold Shell.run_command, bind.
  destruct (Sandbox.run_command sandbox command timeout w) as [[e | result] w'];
    [reflexivity |].
  eexists _, _. split; [reflexivity |].
  split; [pose proof (AgentMore.len_upto (stdout result) 50000); lia |].
  split; [apply upto_prefix |].
  split; [apply AgentFacts.upto_all |].
  split; [pose proof (AgentMore.len_upto (stderr result) 10000); lia |].
  split; [apply upto_prefix |]. apply AgentFacts.upto_all.
Qed.

End Facts.

End ShellFacts.

(** * Further properties of the verifier's command filter *)

Module VerifierMore.

Import Sandbox Verifier VerifierSpec StrFacts.

(** A literal matches at the head of the subject. *)
Lemma matches_lit c s : forall bol t k,
  Re.matches (Re.lit (String c s)) bol (String c s +:+ t) k = k false t.
Proof.
  revert c. induction s as [| c' s IH]; intros c bol t k.
  - rewrite append_cons, append_nil. cbn [Re.lit Re.matches]. now rewrite Ascii.eqb_refl.
  - rewrite append_cons.
    change (Re.lit (String c (String c' s))) with (Re.Seq (Re.Chr c) (Re.lit (String c' s))).
    cbn [Re.matches]. rewrite Ascii.eqb_refl. apply IH.
Qed.

Lemma search_at_here r bol t :
  Re.matches r bol t (fun _ _ => true) = true -> Re.search_at r bol t = true.
Proof. intros Hm. destruct t; simpl; rewrite Hm; reflexivity. Qed.

Lemma search_at_later r pre : forall bol t,
  pre <> "" -> Re.search_at r false t = true -> Re.search_at r bol (pre +:+ t) = true.
Proof.
  induction pre as [| c pre IH]; intros bol t Hne Ht; [congruence |].
  rewrite append_cons. cbn [Re.search_at]. apply orb_true_iff. right.
  destruct pre as [| c' pre']; [now rewrite append_nil |]. now apply IH.
Qed.

(** A pattern that matches a suffix, wherever the subject begins, is
    found. *)
Lemma search_inside r pre t :
  (forall bol, Re.matches r bol t (fun _ _ => true) = true) ->
  Re.search r (pre +:+ t) = true.
Proof.
  intros Hm. unfold Re.search. destruct pre as [| c pre].
  - rewrite append_nil. apply search_at_here, Hm.
  - apply search_at_later; [discriminate |]. apply search_at_here, Hm.
Qed.

Lemma matches_seq r1 r2 bol s k :
  Re.matches (Re.Seq r1 r2) bol s k
  = Re.matches r1 bol s (fun b s' => Re.matches r2 b s' k).
Proof. reflexivity. Qed.

(** ** White space *)

Lemma space_prefix_app sp rest t :
  Str.space_prefix sp = Some rest -> Str.space_prefix (sp +:+ t) = Some (rest +:+ t).
Proof.
  destruct sp as [| c [| c1 [| c2 s3]]]; unfold Str.space_prefix;
    rewrite ?append_cons, ?append_nil.
  - discriminate.
  - destruct (Str.space_byte c); [intros [= <-]; now rewrite append_nil | discriminate].
  - destruct (Str.space_byte c); [intros [= <-]; now rewrite !append_cons, append_nil |].
    destruct (Str.space_two c c1); [intros [= <-]; now rewrite append_nil | discriminate].
  - destruct (Str.space_byte c); [intros [= <-]; now rewrite !append_cons |].
    destruct (Str.space_two c c1); [intros [= <-]; now rewrite !append_cons |].
    destruct (Str.space_three c c1 c2); [intros [= <-]; reflexivity | discriminate].
Qed.

Lemma isspace_prefix sp t : Str.isspace sp = true -> Str.space_prefix (sp +:+ t) = Some t.
Proof.
  unfold Str.isspace. destruct (Str.space_prefix sp) as [[| c r] |] eqn:Hsp; try discriminate.
  intros _. rewrite (space_prefix_app _ _ t Hsp). now rewrite append_nil.
Qed.

(** A string of white space begins with a white-space character, and what
    follows it is white space. *)
Lemma all_space_step sp :
  sp <> "" -> all_space sp = true ->
  exists rest, Str.space_prefix sp = Some rest /\ all_space rest = true /\
               String.length rest < String.length sp.
Proof.
  unfold all_space. destruct sp as [| c s1]; [congruence |]. intros _.
  unfold Str.space_prefix. cbn [Str.lstrip].
  destruct (Str.space_byte c).
  { intros H. exists s1. repeat split; [exact H | cbn [String.length]; lia]. }
  destruct s1 as [| c1 s2]; [discriminate |].
  destruct (Str.space_two c c1).
  { intros H. exists s2. repeat split; [exact H | cbn [String.length]; lia]. }
  destruct s2 as [| c2 s3]; [discriminate |].
  destruct (Str.space_three c c1 c2); [| discriminate].
  intros H. exists s3. repeat split; [exact H | cbn [String.length]; lia].
Qed.

(** White space, once or more: the repetition with [n] steps to go. *)
Lemma matches_spaces : forall n sp bol t k,
  sp <> "" -> all_space sp = true -> String.length sp <= S n -> k false t = true ->
  ((fix again (n : nat) (b : bool) (t : string) {struct n} : bool :=
      Re.matches Re.Space b t
        (fun b' t' =>
           (k b' t' ||
            match n with
            | 0 => false
            | S n' => if (String.length t' <? String.length t) then again n' b' t' else false
            end)%bool)) n bol (sp +:+ t)) = true.
Proof.
  induction n as [| n IH]; intros sp bol t k Hne Hall Hlen Hk;
    destruct (all_space_step sp Hne Hall) as (rest & Hsp & Hrest & Hlt);
    cbn [Re.matches]; rewrite (space_prefix_app _ _ t Hsp).
  - assert (rest = "") as -> by (destruct rest; [reflexivity | cbn [String.length] in *; lia]).
    rewrite append_nil, Hk. reflexivity.
  - destruct rest as [| c rest'].
    + rewrite append_nil, Hk. reflexivity.
    + apply orb_true_iff. right.
      assert (Hlt' : (String.length (String c rest' +:+ t) <? String.length (sp +:+ t)) = true)
        by (apply Nat.ltb_lt; rewrite !length_append; lia).
      rewrite Hlt'. apply IH; [discriminate | assumption | lia | assumption].
Qed.

Lemma matches_plus_space sp bol t k :
  sp <> "" -> all_space sp = true -> k false t = true ->
  Re.matches (Re.Plus Re.Space) bol (sp +:+ t) k = true.
Proof.
  intros Hne Hall Hk.
  apply (matches_spaces (String.length (sp +:+ t)) sp bol t k Hne Hall); [| assumption].
  rewrite length_append. lia.
Qed.

Section Facts.

Context {W : Type} `{!SandboxProvider W} `{!Unicode}.

Lemma refused_when_found sandbox command (w : W) :
  existsb (fun p => Re.search p (str_lower (Str.strip command)))
          _FORBIDDEN_COMMAND_PATTERNS = true ->
  _run sandbox command w = (inr safety_policy, w).
Proof. intros Hm. unfold _run. now rewrite VerifierFacts.for_pattern_eq, Hm. Qed.

(** X18.  The filter of the verifier is a filter on substrings of the
    stripped, lowercased command.  A command is refused, and not run,
    whenever that form holds [gitkraken], [commit] or [push] anywhere, be it
    inside a longer word or a file name; or [gh] followed by a white-space
    character; or [git] followed by a white-space character, at the start
    or after a white-space character; or [create], white space and [pr].
    White space is that of Python on a [str], the no-break space and the
    other Unicode spaces included; the case mapping of [lower] is any. *)
Theorem command_that_mentions_git_is_refused sandbox command (w : W) :
  mentions (str_lower (Str.strip command)) ->
  _run sandbox command w = (inr safety_policy, w).
Proof.
  intros Hm. apply refused_when_found. destruct Hm as
    [word pre post Hin | pre sp post Hc | sp post Hc | pre sp0 sp post Hc0 Hc
     | pre sp post Hne Hall].
  - assert (Hfound : forall c s, word = String c s ->
              Re.search (Re.lit word) (pre +:+ word +:+ post) = true).
    { intros c s ->. apply search_inside. intros bol. apply matches_lit. }
    cbn [existsb _FORBIDDEN_COMMAND_PATTERNS].
    destruct Hin as [<- | [<- | [<- | []]]].
    + rewrite (Hfound _ _ eq_refl). now rewrite !orb_true_r.
    + rewrite (Hfound _ _ eq_refl). now rewrite !orb_true_r.
    + rewrite (Hfound _ _ eq_refl). now rewrite !orb_true_r.
  - cbn [existsb _FORBIDDEN_COMMAND_PATTERNS].
    assert (Hfound : Re.search (Re.Seq (Re.lit "gh") Re.Space)
                       (pre +:+ "gh" +:+ sp +:+ post) = true).
    { apply search_inside. intros bol. cbn [Re.matches].
      rewrite (matches_lit "g" "h"). now rewrite (isspace_prefix _ _ Hc). }
    rewrite Hfound. now rewrite !orb_true_r.
  - cbn [existsb _FORBIDDEN_COMMAND_PATTERNS].
    assert (Hfound : Re.search (Re.Seq (Re.Alt Re.Bol Re.Space) (Re.Seq (Re.lit "git") Re.Space))
                       ("git" +:+ sp +:+ post) = true).
    { unfold Re.search. apply search_at_here. cbn [Re.matches].
      rewrite (matches_lit "g" "it"). now rewrite (isspace_prefix _ _ Hc). }
    now rewrite Hfound.
  - cbn [existsb _FORBIDDEN_COMMAND_PATTERNS].
    assert (Hfound : Re.search (Re.Seq (Re.Alt Re.Bol Re.Space) (Re.Seq (Re.lit "git") Re.Space))
                       (pre +:+ sp0 +:+ "git" +:+ sp +:+ post) = true).
    { apply search_inside. intros bol. cbn [Re.matches].
      rewrite (isspace_prefix _ _ Hc0), (matches_lit "g" "it").
      rewrite (isspace_prefix _ _ Hc). apply orb_true_r. }
    now rewrite Hfound.
  - cbn [existsb _FORBIDDEN_COMMAND_PATTERNS].
    assert (Hfound : Re.search (Re.Seq (Re.lit "create")
                                  (Re.Seq (Re.Plus Re.Space) (Re.lit "pr")))
                       (pre +:+ "create" +:+ sp +:+ "pr" +:+ post) = true).
    { apply search_inside. intros bol.
      rewrite matches_seq, (matches_lit "c" "reate"), matches_seq.
      apply matches_plus_space; [assumption | assumption |].
      apply (matches_lit "p" "r"). }
    rewrite Hfound. now rewrite !orb_true_r.
Qed.

(** X19.  A command in whose stripped, lowercased form none of the six
    patterns is found is handed to the sandbox as it was given, not in that
    form, with a timeout of 120 seconds, and its result comes back cut to
    size as from the [run_command] tool.  White space, for [strip] and for
    the class [\s] of the patterns, is that of Python on a [str]; the case
    mapping of [lower] is any. *)
Theorem allowed_command_is_run_as_given sandbox command (w : W) :
  existsb (fun p => Re.search p (str_lower (Str.strip command)))
          _FORBIDDEN_COMMAND_PATTERNS = false ->
  _run sandbox command w = Shell.run_command sandbox command 120%Z w.
Proof. intros Hm. unfold _run. now rewrite VerifierFacts.for_pattern_eq, Hm. Qed.

End Facts.

End VerifierMore.

(** * Further properties of the event bus *)

Module EventBusMore.

Import EventBus BusSpec.

Lemma put_all ev (l : list nat) : forall qs : gmap nat (list json),
  NoDup l ->
  forall q, fold_left (fun qs q => put_nowait ev q qs) l qs !! q
            = if decide (q ∈ l) then Some (default [] (qs !! q) ++ [ev]) else qs !! q.
Proof.
  induction l as [| x l IH]; intros qs Hnd q.
  - cbn [fold_left]. destruct (decide (q ∈ [])) as [Hin | _]; [| reflexivity].
    now apply not_elem_of_nil in Hin.
  - apply NoDup_cons in Hnd as [Hx Hnd]. cbn [fold_left]. rewrite (IH _ Hnd).
    unfold put_nowait. destruct (decide (q = x)) as [-> | Hne].
    + destruct (decide (x ∈ l)) as [Hin | _]; [contradiction |].
      destruct (decide (x ∈ x :: l)) as [_ | Hnin];
        [| exfalso; apply Hnin, list_elem_of_here].
      now rewrite lookup_insert_eq.
    + rewrite lookup_insert_ne by congruence.
      destruct (decide (q ∈ l)) as [Hin | Hnin];
        destruct (decide (q ∈ x :: l)) as [Hin' | Hnin']; try reflexivity.
      * exfalso. apply Hnin'. now apply list_elem_of_further.
      * exfalso. apply elem_of_cons in Hin' as [-> | Hin']; [congruence | contradiction].
Qed.

(** X20.  [publish] reaches the queues subscribed to the session and no
    other: it leaves the subscriber table alone; an event for a session
    without a subscriber is dropped, the bus stays as it is; and when the
    session has subscribers, each queue among them receives the event at
    its end while every other queue keeps its content. *)
Theorem publish_reaches_the_session_only sid ev (b : Bus) :
  _subscribers (publish sid ev b) = _subscribers b /\
  allocated (publish sid ev b) = allocated b /\
  (_subscribers b !! sid = None -> publish sid ev b = b) /\
  (forall l, _subscribers b !! sid = Some l -> NoDup l ->
     forall q, queues (publish sid ev b) !! q
               = if decide (q ∈ l) then Some (default [] (queues b !! q) ++ [ev])
                 else queues b !! q).
Proof.
  split; [reflexivity |]. split; [reflexivity |]. split.
  - intros Hn. unfold publish. rewrite Hn. now destruct b.
  - intros l Hl Hnd q. unfold publish. cbn [queues]. rewrite Hl. cbn [default from_option].
    now apply put_all.
Qed.

Lemma remove_first_fresh q (l : list nat) : q ∉ l -> remove_first q (l ++ [q]) = l.
Proof.
  induction l as [| x l IH]; intros Hq; simpl.
  - now rewrite Nat.eqb_refl.
  - apply not_elem_of_cons in Hq as [Hne Hq].
    destruct (Nat.eqb_spec x q) as [-> | _]; [congruence |]. now rewrite IH.
Qed.

Lemma fresh_not_in (b : Bus) sid l :
  well_formed b -> _subscribers b !! sid = Some l -> allocated b ∉ l.
Proof.
  intros Hwf Hl Hin. destruct (Hwf sid l Hl) as (_ & _ & Hall).
  rewrite Forall_forall in Hall. specialize (Hall _ Hin). lia.
Qed.

Lemma register_well_formed sid (b : Bus) :
  well_formed b -> well_formed (snd (register sid b)).
Proof.
  intros Hwf sid' l'. unfold register. cbn [snd _subscribers allocated].
  destruct (decide (sid' = sid)) as [-> | Hne].
  - rewrite lookup_insert_eq. intros [= <-].
    destruct (_subscribers b !! sid) as [l |] eqn:Hl; cbn [default from_option]; unfold id.
    + destruct (Hwf sid l Hl) as (Hne & Hnd & Hall).
      split; [now destruct l |]. split.
      * apply NoDup_app. split; [assumption |]. split; [| apply NoDup_singleton].
        intros x Hx Hx'. apply list_elem_of_singleton in Hx' as ->.
        now apply (fresh_not_in b sid l).
      * apply Forall_app. split.
        -- eapply Forall_impl; [exact Hall |]. intros x Hx. cbn beta in *. lia.
        -- constructor; [lia | constructor].
    + split; [discriminate |]. split; [apply NoDup_singleton |].
      constructor; [lia | constructor].
  - rewrite lookup_insert_ne by congruence. intros Hl.
    destruct (Hwf sid' l' Hl) as (Hne' & Hnd & Hall).
    split; [assumption |]. split; [assumption |].
    eapply Forall_impl; [exact Hall |]. intros x Hx. cbn beta in *. lia.
Qed.

Lemma remove_first_sub q (l : list nat) : forall x, x ∈ remove_first q l -> x ∈ l.
Proof.
  induction l as [| y l IH]; intros x; simpl; [trivial |].
  destruct (Nat.eqb y q).
  - now apply list_elem_of_further.
  - intros Hx. apply elem_of_cons in Hx as [-> | Hx];
      [apply list_elem_of_here | apply list_elem_of_further; now apply IH].
Qed.

Lemma remove_first_NoDup q (l : list nat) : NoDup l -> NoDup (remove_first q l).
Proof.
  induction l as [| y l IH]; intros Hnd; simpl; [constructor |].
  apply NoDup_cons in Hnd as [Hy Hnd]. destruct (Nat.eqb y q); [assumption |].
  apply NoDup_cons. split; [| now apply IH].
  intros Hin. apply Hy. now apply (remove_first_sub q).
Qed.

Lemma unregister_well_formed sid q (b : Bus) :
  well_formed b -> well_formed (unregister sid q b).
Proof.
  intros Hwf sid' l'. unfold unregister. cbn [_subscribers allocated].
  destruct (remove_first q (default [] (_subscribers b !! sid))) as [| y left] eqn:Hleft.
  - destruct (decide (sid' = sid)) as [-> | Hne].
    + now rewrite lookup_delete_eq.
    + rewrite lookup_delete_ne by congruence. apply Hwf.
  - destruct (decide (sid' = sid)) as [-> | Hne].
    + rewrite lookup_insert_eq. intros [= <-]. split; [discriminate |].
      destruct (_subscribers b !! sid) as [l |] eqn:Hl; cbn [default from_option] in Hleft;
        unfold id in Hleft; [| discriminate Hleft].
      destruct (Hwf sid l Hl) as (_ & Hnd & Hall). rewrite <- Hleft. split.
      * now apply remove_first_NoDup.
      * rewrite Forall_forall in *. intros x Hx. apply Hall. now apply (remove_first_sub q).
    + rewrite lookup_insert_ne by congruence. apply Hwf.
Qed.

Lemma register_unregister sid (b : Bus) :
  well_formed b ->
  _subscribers (unregister sid (allocated b) (snd (register sid b))) = _subscribers b.
Proof.
  intros Hwf. unfold unregister, register. cbn [snd _subscribers].
  rewrite lookup_insert_eq. cbn [default from_option].
  destruct (_subscribers b !! sid) as [l |] eqn:Hl; cbn [default from_option]; unfold id.
  - rewrite remove_first_fresh by now apply (fresh_not_in b sid l).
    destruct (Hwf sid l Hl) as (Hne & _ & _). destruct l as [| y l]; [congruence |].
    rewrite insert_insert_eq. now apply insert_id.
  - cbn [app remove_first]. rewrite Nat.eqb_refl.
    rewrite delete_insert_eq. now apply delete_id.
Qed.

(** The shape of the table is a matter of the table and of the count of
    queues. *)
Lemma well_formed_same (b1 b2 : Bus) :
  _subscribers b2 = _subscribers b1 -> allocated b2 = allocated b1 ->
  well_formed b1 -> well_formed b2.
Proof. intros Hs Ha Hwf sid l. rewrite Hs, Ha. apply Hwf. Qed.

Lemma unregister_same sid q (b1 b2 : Bus) :
  _subscribers b2 = _subscribers b1 ->
  _subscribers (unregister sid q b2) = _subscribers (unregister sid q b1).
Proof. intros Hs. unfold unregister. cbn [_subscribers]. now rewrite Hs. Qed.

Lemma wait_and_yield_same ts sid q (b : Bus) :
  (snd (fst (wait_and_yield ts sid q b)) = Looping sid q \/
   snd (fst (wait_and_yield ts sid q b)) = Handling sid q) /\
  _subscribers (snd (wait_and_yield ts sid q b)) = _subscribers b /\
  allocated (snd (wait_and_yield ts sid q b)) = allocated b.
Proof.
  unfold wait_and_yield. destruct (default [] (queues b !! q)); cbn [fst snd].
  - split; [now right | now split].
  - split; [now left | now split].
Qed.

Lemma stands_begun sid (b : Bus) :
  well_formed b -> stands sid b (subscribe sid) b.
Proof. intros Hwf. split; [assumption |]. left. now repeat split. Qed.

Lemma stands_registered sid (b b' : Bus) g :
  well_formed b -> holds g sid (allocated b) ->
  _subscribers b' = _subscribers (snd (register sid b)) ->
  allocated b' = S (allocated b) ->
  stands sid b g b'.
Proof.
  intros Hwf Hg Hs Ha. split.
  - apply (well_formed_same (snd (register sid b))); [assumption | assumption |].
    now apply register_well_formed.
  - right. left. now repeat split.
Qed.

Lemma stands_over sid q (b b' : Bus) :
  well_formed b -> well_formed b' -> q = allocated b ->
  _subscribers b' = _subscribers (snd (register sid b)) ->
  stands sid b Exhausted (unregister sid q b').
Proof.
  intros Hwf Hwf' -> Hs. split; [now apply unregister_well_formed |]. right. right.
  split; [reflexivity |]. rewrite (unregister_same _ _ _ _ Hs). now apply register_unregister.
Qed.

Lemma publish_stands sid sid' ev (b : Bus) g b' :
  stands sid b g b' -> stands sid b g (publish sid' ev b').
Proof. intros H. exact H. Qed.

Lemma begin_stands sid (b : Bus) g b' :
  well_formed b -> stands sid b g b' ->
  stands sid b (fst (begin g b')) (snd (begin g b')).
Proof.
  intros Hwf [Hwf' [(-> & Hs & Ha) | [(Hg & Hs & Ha) | (-> & Hs)]]].
  - unfold subscribe, begin, register. cbn [fst snd]. rewrite Ha, Hs.
    apply stands_registered; [assumption | now left | reflexivity | reflexivity].
  - destruct Hg as [-> | [-> | ->]]; cbn [begin fst snd].
    + apply stands_registered; [assumption | now left | assumption | assumption].
    + apply stands_registered; [assumption | now left | assumption | assumption].
    + apply stands_registered; [assumption | now right; right | assumption | assumption].
  - cbn [begin fst snd]. split; [assumption |]. right. right. now split.
Qed.

Lemma waited_stands sid ts (b : Bus) b' :
  well_formed b ->
  _subscribers b' = _subscribers (snd (register sid b)) ->
  allocated b' = S (allocated b) ->
  stands sid b (snd (fst (wait_and_yield ts sid (allocated b) b')))
               (snd (wait_and_yield ts sid (allocated b) b')).
Proof.
  intros Hwf Hs Ha.
  destruct (wait_and_yield_same ts sid (allocated b) b') as (Hg & Hs' & Ha').
  apply stands_registered; [assumption | | congruence | congruence].
  destruct Hg as [-> | ->]; [right; now left | right; now right].
Qed.

Lemma anext_stands sid ts (b : Bus) g b' :
  well_formed b -> stands sid b g b' ->
  stands sid b (snd (fst (anext ts g b'))) (snd (anext ts g b')).
Proof.
  intros Hwf [Hwf' [(-> & Hs & Ha) | [(Hg & Hs & Ha) | (-> & Hs)]]].
  - unfold subscribe. cbn [anext]. unfold register. rewrite Ha, Hs.
    apply waited_stands; [assumption | reflexivity | reflexivity].
  - destruct Hg as [-> | [-> | ->]]; cbn [anext].
    + now apply waited_stands.
    + now apply waited_stands.
    + cbn [fst snd]. now apply stands_over.
  - cbn [anext fst snd]. split; [assumption |]. right. right. now split.
Qed.

Lemma after_stands sid (b : Bus) schedule : forall g b',
  well_formed b -> stands sid b g b' ->
  stands sid b (fst (after schedule g b')) (snd (after schedule g b')).
Proof.
  induction schedule as [| [sid' ev | | ts] rest IH]; intros g b' Hwf Hst; cbn [after].
  - exact Hst.
  - apply IH; [assumption |]. now apply publish_stands.
  - pose proof (begin_stands sid b g b' Hwf Hst) as Hb.
    destruct (begin g b') as [g1 b1]. now apply IH.
  - pose proof (anext_stands sid ts b g b' Hwf Hst) as Hn.
    destruct (anext ts g b') as [[item g1] b1]. now apply IH.
Qed.

(** X21.  A subscription that ends leaves no trace in the subscriber
    table.  On a bus whose table holds no empty list, no queue twice and
    only allocated queues, take any schedule of events published, requests
    of the subscriber begun and waits that are over.  After it the table is
    still in that shape.  While the subscription is under way, the table is
    the old one with one new queue at the end of the list of the session.
    Once the generator has ended by itself, and whenever it is closed or
    the waiting task cancelled, the [finally] clause has removed the queue,
    and the session with it if no other queue is left: the table is the one
    from before the subscription. *)
Theorem ended_subscription_leaves_no_trace sid schedule (b : Bus) :
  well_formed b ->
  let g := fst (after schedule (subscribe sid) b) in
  let b' := snd (after schedule (subscribe sid) b) in
  well_formed b' /\
  (forall sid' q, holds g sid' q ->
     sid' = sid /\ q = allocated b /\
     _subscribers b' =
       <[sid := default [] (_subscribers b !! sid) ++ [allocated b]]> (_subscribers b)) /\
  (g = Exhausted -> _subscribers b' = _subscribers b) /\
  fst (aclose g b') = Exhausted /\
  _subscribers (snd (aclose g b')) = _subscribers b /\
  well_formed (snd (aclose g b')).
Proof.
  intros Hwf. cbv zeta.
  pose proof (after_stands sid b schedule _ _ Hwf (stands_begun sid b Hwf)) as Hst.
  destruct (after schedule (subscribe sid) b) as [g b']. cbn [fst snd] in *.
  destruct Hst as [Hwf' [(-> & Hs & Ha) | [(Hg & Hs & Ha) | (-> & Hs)]]].
  - split; [assumption |]. split.
    { intros sid' q [H | [H | H]]; discriminate H. }
    split; [discriminate |]. cbn [aclose subscribe fst snd].
    split; [reflexivity | split; assumption].
  - split; [assumption |]. split.
    { intros sid' q Hh. assert (sid' = sid /\ q = allocated b) as [-> ->].
      { destruct Hg as [-> | [-> | ->]], Hh as [H | [H | H]];
          try discriminate H; injection H as <- <-; now split. }
      now repeat split. }
    split.
    { intros ->. destruct Hg as [H | [H | H]]; discriminate H. }
    assert (aclose g b' = (Exhausted, unregister sid (allocated b) b')) as ->
      by (destruct Hg as [-> | [-> | ->]]; reflexivity).
    cbn [fst snd]. split; [reflexivity |].
    destruct (stands_over sid (allocated b) b b' Hwf Hwf' eq_refl Hs)
      as [Hwf2 [(H & _) | [(H & _) | (_ & Hs2)]]].
    + discriminate H.
    + destruct H as [H | [H | H]]; discriminate H.
    + now split.
  - split; [assumption |]. split.
    { intros sid' q [H | [H | H]]; discriminate H. }
    split; [intros _; assumption |]. cbn [aclose fst snd].
    split; [reflexivity | split; assumption].
Qed.

End EventBusMore.

(** * Further properties of the controller *)

Module ControllerMore.

Import Controller ControllerSpec RunSpec.

Section Facts.

Context `{!Sandbox.SandboxProvider World} `{!Clock World} `{!JsonModule}.
Variable settings : Settings.
Variable _new_id : World -> string.
Variable create_orchestrator_agent :
  Sandbox.Sandbox -> string -> string -> (Agent.AgentEvent -> World -> World) ->
  (string -> string -> string -> option json -> M World string) ->
  Agent.BaseAgent (W := World).

(** ** The identifiers of the controller *)

Lemma same_ids_refl o : same_ids o o.
Proof. now split. Qed.

Lemma same_ids_trans o1 o2 o3 : same_ids o1 o2 -> same_ids o2 o3 -> same_ids o1 o3.
Proof. unfold same_ids. intuition congruence. Qed.

Lemma ids_keeps {A} (m : Method A) : keeps m -> keeps_ids m.
Proof. intros Hk s r s' Hm. rewrite (Hk _ _ _ Hm). apply same_ids_refl. Qed.

Lemma ids_bind {A B} (m : Method A) (k : A -> Method B) :
  keeps_ids m -> (forall x, keeps_ids (k x)) -> keeps_ids (bind m k).
Proof.
  intros Hm Hk s r s'. unfold bind. destruct (m s) as [[e | x] s1] eqn:Hs.
  - intros [= <- <-]. exact (Hm _ _ _ Hs).
  - intros Hx. apply (same_ids_trans _ (fst s1));
      [exact (Hm _ _ _ Hs) | exact (Hk x _ _ _ Hx)].
Qed.

Lemma ids_on_agent {A} (m : Agent.Method A) : keeps_ids (on_agent m).
Proof. intros s r s' Hm. now apply (ControllerFacts.on_agent_ids m s s' r). Qed.

Lemma ids_start_agent repo_url :
  keeps_ids (start_agent settings _new_id create_orchestrator_agent repo_url).
Proof.
  unfold start_agent.
  apply ids_bind; [apply ids_keeps, ControllerFacts.keeps_update_run_status | intros _].
  apply ids_bind; [apply ids_keeps, ControllerFacts.keeps_update_session_status | intros _].
  apply ids_bind; [apply ids_keeps, ControllerFacts.keeps_emit_event | intros _].
  apply ids_bind; [apply ids_keeps, ControllerFacts.keeps_emit_event | intros _].
  apply ids_bind; [apply ids_keeps, ControllerFacts.keeps_on_world | intros sb].
  apply ids_bind; [intros s r s' [= <- <-]; now split | intros _].
  apply ids_bind; [apply ids_keeps, ControllerFacts.keeps_self | intros o].
  intros s r s' [= <- <-]. now split.
Qed.

Create HintDb kept.
#[local] Hint Resolve ControllerFacts.keeps_ret ControllerFacts.keeps_raise
  ControllerFacts.keeps_on_world ControllerFacts.keeps_self ControllerFacts.keeps_world
  ControllerFacts.keeps_lift ControllerFacts.keeps_no_row ControllerFacts.keeps_if
  ControllerFacts.keeps_update_run_status ControllerFacts.keeps_update_session_status
  ControllerFacts.keeps_emit_event ControllerFacts.keeps_persist_events
  ControllerFacts.keeps_persist_artifact : kept.
#[local] Hint Extern 2 (keeps (bind _ _)) =>
  apply ControllerFacts.keeps_bind; [| intros ?] : kept.
#[local] Hint Extern 3 (keeps (match ?x with _ => _ end)) => destruct x : kept.

Lemma keeps_persist_event role type_ data : keeps (_persist_event role type_ data).
Proof. unfold _persist_event. auto with kept. Qed.

Lemma keeps_diff : keeps _get_diff.
Proof. unfold _get_diff. auto 10 with kept. Qed.

#[local] Hint Resolve keeps_persist_event keeps_diff : kept.

Lemma keeps_output name output : keeps (record_output settings _new_id name output).
Proof. unfold record_output. auto 20 with kept. Qed.

Lemma keeps_end_interrupted : keeps end_interrupted.
Proof. unfold end_interrupted. auto 10 with kept. Qed.

Lemma ids_attempt repo_url prompt :
  keeps_ids (attempt settings _new_id create_orchestrator_agent repo_url prompt).
Proof.
  unfold attempt.
  apply ids_bind; [apply ids_start_agent | intros _].
  apply ids_bind; [apply ids_on_agent | intros out].
  apply ids_bind; [apply ids_keeps, keeps_output | intros r].
  apply ids_bind; [intros s r0 s' [= <- <-]; apply same_ids_refl | intros _].
  apply ids_keeps, ControllerFacts.keeps_ret.
Qed.

Lemma ids_try_excepts {A} (m : Method A) clauses :
  keeps_ids m -> Forall (fun c => forall e, keeps_ids (snd c e)) clauses ->
  keeps_ids (try_excepts m clauses).
Proof.
  intros Hm Hc s r s'. unfold try_excepts.
  destruct (m s) as [[e | x] s1] eqn:Hs; [| intros [= <- <-]; exact (Hm _ _ _ Hs)].
  induction Hc as [| [sel h] cs Hh _ IH].
  - intros [= <- <-]. exact (Hm _ _ _ Hs).
  - destruct (sel e); [| exact IH].
    intros Hx. apply (same_ids_trans _ (fst s1)); [exact (Hm _ _ _ Hs) |].
    exact (Hh e _ _ _ Hx).
Qed.

Lemma run_unfold repo_url prompt :
  run settings _new_id create_orchestrator_agent repo_url prompt =
  try_finally
    (try_excepts (attempt settings _new_id create_orchestrator_agent repo_url prompt)
                 clauses_of_run)
    forget_task.
Proof. reflexivity. Qed.

Lemma ids_clauses : Forall (fun c => forall e, keeps_ids (snd c e)) clauses_of_run.
Proof.
  pose proof keeps_end_interrupted.
  unfold clauses_of_run. constructor; [| constructor; [| constructor]];
    intros e; apply ids_keeps; cbn [snd]; auto 10 with kept.
Qed.

(** ** The steps of the handlers *)

Lemma update_run_status_eq st (s : CState) row :
  runs (db (snd s)) !! run_id (fst s) = Some row ->
  _update_run_status st s =
  (inr tt,
   (fst s,
    with_db (snd s)
      {| sessions := sessions (db (snd s));
         runs := <[run_id (fst s) :=
                     {| status := st; pr_url := pr_url row; pr_number := pr_number row;
                        finished_at := match st with
                                       | RunStatus.completed | RunStatus.failed =>
                                           Some (now (snd s))
                                       | _ => finished_at row
                                       end |}]> (runs (db (snd s)));
         events := events (db (snd s)); artifacts := artifacts (db (snd s)) |})).
Proof.
  destruct s as [o w]. cbn [fst snd]. intros Hrow.
  unfold _update_run_status, bind, self, world, gets. cbn [fst snd]. rewrite Hrow.
  reflexivity.
Qed.

Lemma update_session_status_eq st (s : CState) row :
  sessions (db (snd s)) !! session_id (fst s) = Some row ->
  _update_session_status st s =
  (inr tt,
   (fst s,
    with_db (snd s)
      {| sessions := <[session_id (fst s) := {| session_status := st |}]>
                       (sessions (db (snd s)));
         runs := runs (db (snd s));
         events := events (db (snd s)); artifacts := artifacts (db (snd s)) |})).
Proof.
  destruct s as [o w]. cbn [fst snd]. intros Hrow.
  unfold _update_session_status, bind, self, world, gets. cbn [fst snd]. rewrite Hrow.
  reflexivity.
Qed.

Lemma persist_event_eq role type_ data (s : CState) :
  _persist_event role type_ data s =
  (inr tt,
   (fst s,
    with_db (snd s)
      (add_event {| event_run_id := run_id (fst s); event_role := role;
                    event_type := type_; event_data := data |} (db (snd s))))).
Proof. destruct s. reflexivity. Qed.

(** What the last steps of a handler leave: the statuses [rs] and [ss], one
    more row of events. *)
Lemma close_run role type_ data rs ss (s : CState) :
  rows_exist (fst s) (snd s) ->
  exists s',
    (forall A (k : Method A),
       (_emit_event role type_ data ;;
        _persist_event role type_ data ;;
        _update_run_status rs ;;
        _update_session_status ss ;; k) s = k s') /\
    fst s' = fst s /\
    run_status_of (fst s) (snd s') = Some rs /\
    session_status_of (fst s) (snd s') = Some ss /\
    events (db (snd s')) =
      events (db (snd s)) ++
      [{| event_run_id := run_id (fst s); event_role := role;
          event_type := type_; event_data := data |}] /\
    artifacts (db (snd s')) = artifacts (db (snd s)) /\
    _interrupted (snd s') = _interrupted (snd s) /\
    _active_sessions (snd s') = _active_sessions (snd s) /\
    _active_run_tasks (snd s') = _active_run_tasks (snd s) /\
    _running_orchestrators (snd s') = _running_orchestrators (snd s).
Proof.
  destruct s as [o w]. cbn [fst snd]. intros [[run Hrun] [ses Hses]].
  eexists. split.
  - intros A k.
    unfold bind at 1. rewrite ControllerFacts._emit_event_eq. cbn [fst snd].
    unfold bind at 1. rewrite persist_event_eq. cbn [fst snd].
    unfold bind at 1.
    rewrite (update_run_status_eq rs _ run)
      by (cbn [fst snd db with_db add_event runs];
          now rewrite ControllerFacts.emit_event_db).
    cbn [fst snd]. unfold bind at 1.
    rewrite (update_session_status_eq ss _ ses)
      by (cbn [fst snd db with_db add_event sessions];
          now rewrite ControllerFacts.emit_event_db).
    cbn [fst snd]. reflexivity.
  - cbn [fst snd]. unfold run_status_of, session_status_of.
    cbn [db with_db add_event runs sessions events artifacts _interrupted _active_sessions
           _active_run_tasks _running_orchestrators].
    rewrite !lookup_insert_eq, !ControllerFacts.emit_event_db.
    repeat split; unfold emit_event; now destruct (event_callback o).
Qed.

Lemma forgotten (x : string) (X : gset string) : x ∉ X ∖ {[x]}.
Proof. intros [_ Hn]%elem_of_difference. apply Hn, elem_of_singleton. reflexivity. Qed.

Lemma forget_task_eq (s : CState) :
  forget_task s =
  (inr tt,
   (fst s,
    with_registries (snd s) (_active_sessions (snd s))
      (_active_run_tasks (snd s) ∖ {[session_id (fst s)]})
      (_running_orchestrators (snd s) ∖ {[session_id (fst s)]}))).
Proof. reflexivity. Qed.

Lemma not_cancelled exc : is_Exception exc = true -> is_CancelledError exc = false.
Proof. unfold is_Exception, is_CancelledError. now destruct (exn_cls exc). Qed.

(** The end of an interrupted run, from the state [s1] in which the handler
    starts. *)
Lemma end_interrupted_eq (s1 : CState) :
  rows_exist (fst s1) (snd s1) ->
  exists s2,
    end_interrupted s1 = (inr interrupted_result, s2) /\
    fst s2 = fst s1 /\
    run_status_of (fst s1) (snd s2) = Some RunStatus.completed /\
    session_status_of (fst s1) (snd s2) = Some SessionStatus.completed /\
    events (db (snd s2)) = events (db (snd s1)) ++ [interrupted_row (fst s1)] /\
    artifacts (db (snd s2)) = artifacts (db (snd s1)) /\
    _interrupted (snd s2) = _interrupted (snd s1) /\
    _active_sessions (snd s2) = _active_sessions (snd s1) /\
    _active_run_tasks (snd s2) = _active_run_tasks (snd s1) /\
    _running_orchestrators (snd s2) = _running_orchestrators (snd s1).
Proof.
  intros Hrows.
  destruct (close_run "orchestrator" "status_change" interrupted_status
              RunStatus.completed SessionStatus.completed s1 Hrows) as (s2 & Hk & Hrest).
  exists s2. split; [| exact Hrest]. unfold end_interrupted. now rewrite Hk.
Qed.

(** X22. Whatever the run does and however it ends, with a result or with an
    exception, the controller is still that of the same run and session and
    its session is no longer among the active run tasks or the running
    orchestrators. *)
Theorem run_always_forgets_its_task repo_url prompt (s : CState) :
  let s' := snd (run settings _new_id create_orchestrator_agent repo_url prompt s) in
  same_ids (fst s) (fst s') /\
  (session_id (fst s) ∉ _active_run_tasks (snd s')) /\
  (session_id (fst s) ∉ _running_orchestrators (snd s')).
Proof.
  cbv zeta. rewrite run_unfold. unfold try_finally.
  destruct (try_excepts _ clauses_of_run s) as [r s1] eqn:Htry.
  pose proof (ids_try_excepts _ _ (ids_attempt repo_url prompt) ids_clauses _ _ _ Htry)
    as Hids.
  rewrite forget_task_eq. cbn [fst snd].
  cbn [_active_run_tasks _running_orchestrators with_registries].
  split; [exact Hids |]. destruct Hids as [_ ->]. split; apply forgotten.
Qed.

(** X23. When the work of a run raises an ordinary exception and no
    interruption was requested, the run does not raise: it returns the status
    failed with the message of the exception, the run and the session are
    marked failed, one error event with that message is stored after the
    events already there, and the task is forgotten. *)
Theorem failed_run_is_recorded repo_url prompt (s s1 : CState) exc :
  attempt settings _new_id create_orchestrator_agent repo_url prompt s = (inl exc, s1) ->
  is_Exception exc = true ->
  _interrupted (snd s1) = false ->
  rows_exist (fst s1) (snd s1) ->
  exists s',
    run settings _new_id create_orchestrator_agent repo_url prompt s =
      (inr (JDict [("status", JStr "failed"); ("error", JStr (exn_str exc))]), s') /\
    fst s' = fst s1 /\
    run_status_of (fst s') (snd s') = Some RunStatus.failed /\
    session_status_of (fst s') (snd s') = Some SessionStatus.failed /\
    events (db (snd s')) = events (db (snd s1)) ++ [error_row (fst s1) (exn_str exc)] /\
    artifacts (db (snd s')) = artifacts (db (snd s1)) /\
    _active_sessions (snd s') = _active_sessions (snd s1) /\
    (session_id (fst s') ∉ _active_run_tasks (snd s')) /\
    (session_id (fst s') ∉ _running_orchestrators (snd s')).
Proof.
  intros Hattempt Hexc Hflag Hrows.
  destruct (close_run "orchestrator" "error" (JDict [("message", JStr (exn_str exc))])
              RunStatus.failed SessionStatus.failed s1 Hrows)
    as (s2 & Hk & Ho & Hrs & Hss & Hev & Hart & _ & Hact & _ & _).
  eexists. split.
  - rewrite run_unfold. unfold try_finally, try_excepts, clauses_of_run.
    rewrite Hattempt, (not_cancelled _ Hexc), Hexc.
    unfold bind at 1, world, gets. cbn [fst snd]. rewrite Hflag.
    rewrite Hk. unfold ret. rewrite forget_task_eq. reflexivity.
  - cbn [fst snd]. unfold run_status_of, session_status_of in *.
    cbn [db with_registries _active_sessions _active_run_tasks _running_orchestrators].
    rewrite Ho. repeat split; try assumption; apply forgotten.
Qed.

(** X24. When the work of a run is cancelled, or raises an ordinary exception
    after an interruption was requested, the run returns the interrupted
    status, the run and the session are marked completed, not failed, the
    interruption is stored as one more event, and the controller is marked
    interrupted. *)
Theorem interrupted_run_is_completed repo_url prompt (s s1 : CState) exc :
  attempt settings _new_id create_orchestrator_agent repo_url prompt s = (inl exc, s1) ->
  is_CancelledError exc = true \/
  (is_Exception exc = true /\ _interrupted (snd s1) = true) ->
  rows_exist (fst s1) (snd s1) ->
  exists s',
    run settings _new_id create_orchestrator_agent repo_url prompt s =
      (inr interrupted_result, s') /\
    fst s' = fst s1 /\
    run_status_of (fst s') (snd s') = Some RunStatus.completed /\
    session_status_of (fst s') (snd s') = Some SessionStatus.completed /\
    events (db (snd s')) = events (db (snd s1)) ++ [interrupted_row (fst s1)] /\
    _interrupted (snd s') = true /\
    (session_id (fst s') ∉ _active_run_tasks (snd s')) /\
    (session_id (fst s') ∉ _running_orchestrators (snd s')).
Proof.
  intros Hattempt Hcase Hrows.
  assert (exists s0, fst s0 = fst s1 /\ db (snd s0) = db (snd s1) /\
                     _interrupted (snd s0) = true /\
                     try_excepts
                       (attempt settings _new_id create_orchestrator_agent repo_url prompt)
                       clauses_of_run s = end_interrupted s0) as (s0 & Ho0 & Hdb0 & Hi0 & Htry).
  { unfold try_excepts, clauses_of_run. rewrite Hattempt.
    destruct Hcase as [Hc | [He Hflag]].
    - rewrite Hc. exists (fst s1, with_interrupted (snd s1) true).
      repeat split.
    - rewrite (not_cancelled _ He), He. exists s1. repeat split; [exact Hflag |].
      unfold bind at 1, world, gets. cbn [fst snd]. now rewrite Hflag. }
  assert (rows_exist (fst s0) (snd s0)) as Hrows0.
  { unfold rows_exist. now rewrite Ho0, Hdb0. }
  destruct (end_interrupted_eq s0 Hrows0)
    as (s2 & Hend & Ho & Hrs & Hss & Hev & _ & Hint & _ & _ & _).
  eexists. split.
  - rewrite run_unfold. unfold try_finally. rewrite Htry, Hend, forget_task_eq.
    reflexivity.
  - cbn [fst snd]. unfold run_status_of, session_status_of in *.
    cbn [db with_registries _interrupted _active_run_tasks _running_orchestrators].
    rewrite Ho, Ho0 in *. rewrite Hdb0 in Hev. rewrite Hint.
    repeat split; try assumption; apply forgotten.
Qed.

Lemma continue_run_unfold user_message (s : CState) a :
  _agent (fst s) = Some a ->
  continue_run settings _new_id user_message s =
  try_excepts (followup settings _new_id user_message) clauses_of_continue_run s.
Proof.
  intros Ha. unfold continue_run. unfold bind at 1, self, gets. cbn [fst snd].
  rewrite Ha. reflexivity.
Qed.

(** X25. A follow-up that fails is marked but not stored: when the controller
    has an agent and the work of [continue_run] raises an ordinary exception,
    [continue_run] does not raise; it returns the message of the exception
    under [error], without a status, the run and the session are marked
    failed, and, unlike [run], it stores no error event and leaves the
    registries of active sessions and tasks alone. *)
Theorem failed_followup_is_not_stored user_message (s s1 : CState) a exc :
  _agent (fst s) = Some a ->
  followup settings _new_id user_message s = (inl exc, s1) ->
  is_Exception exc = true ->
  rows_exist (fst s1) (snd s1) ->
  exists s',
    continue_run settings _new_id user_message s =
      (inr (JDict [("error", JStr (exn_str exc))]), s') /\
    fst s' = fst s1 /\
    run_status_of (fst s') (snd s') = Some RunStatus.failed /\
    session_status_of (fst s') (snd s') = Some SessionStatus.failed /\
    events (db (snd s')) = events (db (snd s1)) /\
    artifacts (db (snd s')) = artifacts (db (snd s1)) /\
    _active_sessions (snd s') = _active_sessions (snd s1) /\
    _active_run_tasks (snd s') = _active_run_tasks (snd s1) /\
    _running_orchestrators (snd s') = _running_orchestrators (snd s1).
Proof.
  intros Ha Hfollow Hexc [[run Hrun] [ses Hses]].
  rewrite (continue_run_unfold _ _ _ Ha).
  unfold try_excepts, clauses_of_continue_run.
  rewrite Hfollow, (not_cancelled _ Hexc), Hexc.
  destruct s1 as [o w]. cbn [fst snd] in *.
  unfold bind at 1. rewrite ControllerFacts._emit_event_eq. cbn [fst snd].
  unfold bind at 1.
  rewrite (update_run_status_eq RunStatus.failed _ run)
    by (cbn [fst snd db with_db runs]; now rewrite ControllerFacts.emit_event_db).
  cbn [fst snd]. unfold bind at 1.
  rewrite (update_session_status_eq SessionStatus.failed _ ses)
    by (cbn [fst snd db with_db sessions]; now rewrite ControllerFacts.emit_event_db).
  cbn [fst snd]. unfold ret. eexists. split; [reflexivity |].
  cbn [fst snd]. unfold run_status_of, session_status_of.
  cbn [db with_db runs sessions events artifacts _active_sessions
         _active_run_tasks _running_orchestrators].
  rewrite !lookup_insert_eq, !ControllerFacts.emit_event_db.
  repeat split; unfold emit_event; now destruct (event_callback o).
Qed.

End Facts.

End ControllerMore.

(** * The further properties on the scenarios *)

Module Evidence.

Import Sandbox Agent Scenario Run Cases AgentSpec LoopSpec FilesSpec ControllerSpec.

(** An outcome is its result and its state. *)
Lemma result_and_state {A B : Type} (x : A * B) (a : A) : fst x = a -> x = (a, snd x).
Proof. intros <-. now destruct x. Qed.

(** ** The executor *)

Lemma loop_keeps_configuration_and_events_witness :
  exists new,
    out_events implementer_output = _events implementer0 ++ new /\
    Forall (fun e => ev_role e = "implementer") new.
Proof.
  destruct (AgentMore.loop_keeps_configuration_and_events (implementer0, host0))
    as (_ & new & _ & _ & Hrole & Hout).
  exists new. split; [| exact Hrole].
  assert (fst (_loop (implementer0, host0)) = inr implementer_output) as Hrun
    by (vm_compute; reflexivity).
  exact (proj1 (Hout implementer_output Hrun)).
Defined.

Lemma tool_result_text_is_bounded_witness :
  exists new,
    _events (fst (snd (_loop (explainer0, host0)))) = _events explainer0 ++ new /\
    Forall (fun e => ev_type e = "tool_result" ->
                     exists r, result_text e = Some r /\ Str.len r <= 5000) new.
Proof. exact (AgentMore.tool_result_text_is_bounded (explainer0, host0)). Defined.

Lemma loop_makes_at_most_max_iterations_requests_witness :
  meter (snd (snd (_loop (counting_agent, metered0)))) <= meter metered0 + 3.
Proof.
  apply (AgentMore.loop_makes_at_most_max_iterations_requests meter counting_agent metered0).
  - intros kw f w r f' w' Hc. injection Hc as _ _ <-. reflexivity.
  - intros t [].
  - intros cb Hcb. discriminate Hcb.
Defined.

Lemma run_after_interrupt_returns_interrupted_witness :
  exists out s',
    (await interrupt ;; run (JDict [("prompt", JStr "Fix the bug")])) (implementer0, host0)
    = (inr out, s') /\
    out_result out = interrupted_result /\
    length (out_events out) = 2 /\
    _done (flags (fst s')) = true.
Proof.
  destruct (AgentMore.run_after_interrupt_returns_interrupted
              (JDict [("prompt", JStr "Fix the bug")]) implementer0 host0)
    as (s' & Hrun & _ & Hdone & _); [vm_compute; lia |].
  eexists. exists s'. split; [exact Hrun |]. repeat split. exact Hdone.
Defined.

Lemma interrupt_during_request_drops_response_witness :
  exists out s',
    while_ [] 50 (asked0, host0) = (inr out, s') /\
    out_result out = interrupted_result /\
    length (out_events out) = 1 /\
    _messages (fst s') = [].
Proof.
  destruct (AgentMore.interrupt_during_request_drops_response
              [] 49 (asked0, host0)
              (snd (await (_client asked0 (request [] asked0)) (asked0, host0)))
              late_answer)
    as (s' & Hrun & Hm & _);
    [reflexivity | reflexivity | apply result_and_state; reflexivity | reflexivity |].
  eexists. exists s'. split; [exact Hrun |]. repeat split. exact Hm.
Defined.

Lemma complete_tool_ends_the_run_witness :
  exists out s',
    while_ (_build_tools_schema finisher0) 50 (finisher0, host0) = (inr out, s') /\
    out_result out = JDict [("summary", JStr "Fixed the bug")] /\
    length (out_events out) = 4.
Proof.
  pose (s1 := snd (await (_client finisher0 (request (_build_tools_schema finisher0) finisher0))
                         (finisher0, host0))).
  pose (s2 := snd (for_blocks [TextBlock "The change is in place."] ([], []) s1)).
  destruct (AgentMore.complete_tool_ends_the_run
              (_build_tools_schema finisher0) 49 (finisher0, host0) s1 s2 completes
              [TextBlock "The change is in place."] "toolu_9"
              [("summary", JStr "Fixed the bug")] (["The change is in place."], []))
    as (out & s' & call & answer & completed & Hrun & Hres & _ & Hev & _);
    [reflexivity | reflexivity | apply result_and_state; reflexivity | reflexivity
     | reflexivity | apply result_and_state; reflexivity | reflexivity |].
  exists out, s'. split; [exact Hrun |]. split; [exact Hres |]. rewrite Hev. reflexivity.
Defined.

Lemma unclosed_json_fence_raises_witness :
  fst (while_ [] 50 (fenced0, host0)) = inl (Raise ValueError "substring not found").
Proof.
  destruct (AgentMore.unclosed_json_fence_raises
              [] 49 (fenced0, host0)
              (snd (await (_client fenced0 (request [] fenced0)) (fenced0, host0)))
              unclosed "Result: " " {summary: 1}")
    as (s' & new & Hrun & _);
    [reflexivity | reflexivity | apply result_and_state; reflexivity | reflexivity
     | reflexivity | reflexivity | reflexivity | reflexivity | reflexivity |].
  rewrite Hrun. reflexivity.
Defined.

Lemma tool_results_answer_tool_uses_witness :
  exists blocks results,
    _messages (fst (snd (body (_build_tools_schema implementer0) (implementer0, host0))))
    = _messages implementer0 ++
      [{| msg_role := "assistant"; msg_content := CList (map Block blocks) |};
       {| msg_role := "user"; msg_content := CList (map Entry results) |}] /\
    omap answers results = tool_use_ids blocks.
Proof.
  destruct (AgentMore.tool_results_answer_tool_uses
              (_build_tools_schema implementer0) (implementer0, host0)
              (snd (body (_build_tools_schema implementer0) (implementer0, host0))))
    as (blocks & results & Hm & _ & Hids);
    [apply result_and_state; vm_compute; reflexivity |].
  exists blocks, results. split; [exact Hm | exact Hids].
Defined.

Lemma resume_merges_into_last_user_turn_witness :
  exists s0,
    resume "Also update the docs" (waiting_agent, host0) = _loop s0 /\
    _messages (fst s0)
    = [{| msg_role := "user";
          msg_content := CStr ("Fix the bug" +:+ nl +:+ nl +:+ "Also update the docs") |}].
Proof.
  destruct (AgentMore.resume_merges_into_last_user_turn
              "Also update the docs" (waiting_agent, host0)
              {| msg_role := "user"; msg_content := CStr "Fix the bug" |})
    as (s0 & Hr & Hm & _); [reflexivity | reflexivity |].
  exists s0. split; [exact Hr | exact Hm].
Defined.

(** ** The local sandbox and the file tools *)

Lemma binary_file_is_described_by_its_size_witness :
  local_read_file sandbox0 "logo.png" binary_host = (inr "[binary file, 2 bytes]", binary_host).
Proof.
  exact (SandboxMore.binary_file_is_described_by_its_size
           sandbox0 "logo.png" binary_host two_bytes eq_refl eq_refl eq_refl).
Defined.

Lemma write_file_touches_one_file_witness :
  same_but_files host0 (snd (local_write_file sandbox0 "notes.txt" "hello" host0)) /\
  OS.node_at (OS.files (snd (local_write_file sandbox0 "notes.txt" "hello" host0)))
             ["etc"] = Some OS.Dir.
Proof.
  destruct (SandboxMore.write_file_touches_one_file
              sandbox0 "notes.txt" "hello" host0
              (fst (local_write_file sandbox0 "notes.txt" "hello" host0))
              (snd (local_write_file sandbox0 "notes.txt" "hello" host0)))
    as (Hsame & Hdirs & _); [apply result_and_state; reflexivity |].
  split; [exact Hsame | apply Hdirs; reflexivity].
Defined.

Lemma second_write_succeeds_and_wins_witness :
  exists w2,
    local_write_file sandbox0 "notes.txt" "second"
      (snd (local_write_file sandbox0 "notes.txt" "first" host0)) = (inr tt, w2) /\
    local_read_file sandbox0 "notes.txt" w2 = (inr "second", w2).
Proof.
  destruct (SandboxMore.second_write_succeeds_and_wins
              sandbox0 "notes.txt" "first" "second" host0
              (snd (local_write_file sandbox0 "notes.txt" "first" host0)))
    as (w2 & Hw & Hr); [apply result_and_state; vm_compute; reflexivity | reflexivity |].
  exists w2. split; [exact Hw | exact Hr].
Defined.


Lemma delete_file_removes_one_file_witness :
  OS.exists_ (snd (Filesystem.delete_file sandbox0 "README.md" host0))
             (joinpath (workspace sandbox0) "README.md") = false.
Proof.
  exact (proj1 (SandboxMore.delete_file_removes_one_file
                  sandbox0 "README.md" host0 (inr "Deleted README.md")
                  (snd (Filesystem.delete_file sandbox0 "README.md" host0))
                  (result_and_state _ _ eq_refl))).
Defined.

Lemma implementer_delete_agrees_on_relative_paths_witness :
  Implementer._delete sandbox0 "README.md" host0
  = Filesystem.delete_file sandbox0 "README.md" host0.
Proof.
  apply (SandboxMore.implementer_delete_agrees_on_relative_paths sandbox0 "README.md" host0).
  reflexivity.
Defined.

Lemma command_output_is_cut_to_size_witness :
  AgentFactory._run_command sandbox0 "pytest -q" host0
  = Shell.run_command sandbox0 "pytest -q" 60%Z host0.
Proof.
  destruct (ShellFacts.command_output_is_cut_to_size sandbox0 "pytest -q" 60%Z host0)
    as [_ Hsame].
  rewrite Hsame. reflexivity.
Defined.

(** ** The verifier *)

Lemma command_that_mentions_git_is_refused_witness :
  Verifier._run sandbox0 ("git" +:+ nbsp +:+ "status") host0
  = (inr Verifier.safety_policy, host0) /\
  Verifier._run sandbox0 "cat .git/COMMIT_EDITMSG" host0 = (inr Verifier.safety_policy, host0).
Proof.
  split.
  - apply (VerifierMore.command_that_mentions_git_is_refused
             sandbox0 ("git" +:+ nbsp +:+ "status") host0).
    change (str_lower (Str.strip ("git" +:+ nbsp +:+ "status")))
      with ("git" +:+ nbsp +:+ "status").
    apply VerifierSpec.mentions_git_first. reflexivity.
  - apply (VerifierMore.command_that_mentions_git_is_refused
             sandbox0 "cat .git/COMMIT_EDITMSG" host0).
    change (str_lower (Str.strip "cat .git/COMMIT_EDITMSG"))
      with ("cat .git/" +:+ "commit" +:+ "_editmsg").
    apply VerifierSpec.mentions_word. right. left. reflexivity.
Defined.

Lemma allowed_command_is_run_as_given_witness :
  Verifier._run sandbox0 "pytest -q" host0
  = Shell.run_command sandbox0 "pytest -q" 120%Z host0 /\
  Verifier._run sandbox0 ("gh " +:+ nbsp) host0
  = Shell.run_command sandbox0 ("gh " +:+ nbsp) 120%Z host0.
Proof.
  split.
  - apply (VerifierMore.allowed_command_is_run_as_given sandbox0 "pytest -q" host0).
    reflexivity.
  - apply (VerifierMore.allowed_command_is_run_as_given sandbox0 ("gh " +:+ nbsp) host0).
    reflexivity.
Defined.

(** ** The event bus *)

Lemma publish_reaches_the_session_only_witness :
  EventBus.queues (EventBus.publish "s1" (JStr "hello") subscribed_bus) !! 0
  = Some [JStr "hello"] /\
  EventBus.publish "s2" (JStr "hello") subscribed_bus = subscribed_bus.
Proof.
  destruct (EventBusMore.publish_reaches_the_session_only "s1" (JStr "hello") subscribed_bus)
    as (_ & _ & _ & Hq).
  destruct (EventBusMore.publish_reaches_the_session_only "s2" (JStr "hello") subscribed_bus)
    as (_ & _ & Hnone & _).
  split; [| apply Hnone; reflexivity].
  rewrite (Hq [0] eq_refl (NoDup_singleton 0) 0).
  destruct (decide (0 ∈ [0])) as [_ | Hn]; [reflexivity |].
  exfalso. apply Hn, list_elem_of_here.
Defined.

Lemma ended_subscription_leaves_no_trace_witness :
  EventBus.received watched (EventBus.subscribe "s1") EventBus.__init__
  = [JStr "hello"; EventBus.keepalive "12:01"] /\
  EventBus._subscribers (snd (BusSpec.after watched (EventBus.subscribe "s1") EventBus.__init__))
  = ∅ /\
  EventBus._subscribers
    (snd (EventBus.aclose
            (fst (BusSpec.after (firstn 3 watched) (EventBus.subscribe "s1") EventBus.__init__))
            (snd (BusSpec.after (firstn 3 watched) (EventBus.subscribe "s1") EventBus.__init__))))
  = ∅.
Proof.
  assert (BusSpec.well_formed EventBus.__init__) as Hwf.
  { intros sid l Hl. discriminate Hl. }
  split; [reflexivity |]. split.
  - destruct (EventBusMore.ended_subscription_leaves_no_trace "s1" watched EventBus.__init__ Hwf)
      as (_ & _ & Hover & _).
    apply Hover. reflexivity.
  - destruct (EventBusMore.ended_subscription_leaves_no_trace
                "s1" (firstn 3 watched) EventBus.__init__ Hwf)
      as (_ & _ & _ & _ & Hclosed & _).
    exact Hclosed.
Defined.

(** ** The controller *)

Lemma failed_run_is_recorded_witness :
  exists s',
    Controller.run settings0 new_id0 (orchestrator_agent0 (scripted []))
      "https://github.com/acme/app" "Improve the app" (controller0, world0)
    = (inr (JDict [("status", JStr "failed");
                   ("error", JStr "no response left in the script")]), s') /\
    run_status_of (fst s') (snd s') = Some Controller.RunStatus.failed /\
    session_status_of (fst s') (snd s') = Some Controller.SessionStatus.failed.
Proof.
  destruct (ControllerMore.failed_run_is_recorded
              settings0 new_id0 (orchestrator_agent0 (scripted []))
              "https://github.com/acme/app" "Improve the app" (controller0, world0)
              (snd speechless_attempt)
              (Raise RuntimeError "no response left in the script"))
    as (s' & Hrun & _ & Hrs & Hss & _).
  - apply result_and_state. vm_compute. reflexivity.
  - reflexivity.
  - vm_compute. reflexivity.
  - split; vm_compute; eexists; reflexivity.
  - exists s'. split; [exact Hrun |]. split; [exact Hrs | exact Hss].
Defined.

Lemma interrupted_run_is_completed_witness :
  exists s',
    Controller.run settings0 new_id0 (orchestrator_agent0 cancelled_client)
      "https://github.com/acme/app" "Improve the app" (controller0, world0)
    = (inr Controller.interrupted_result, s') /\
    run_status_of (fst s') (snd s') = Some Controller.RunStatus.completed /\
    Controller._interrupted (snd s') = true.
Proof.
  destruct (ControllerMore.interrupted_run_is_completed
              settings0 new_id0 (orchestrator_agent0 cancelled_client)
              "https://github.com/acme/app" "Improve the app" (controller0, world0)
              (snd cancelled_attempt) (Raise CancelledError ""))
    as (s' & Hrun & _ & Hrs & _ & _ & Hint & _).
  - apply result_and_state. vm_compute. reflexivity.
  - left. reflexivity.
  - split; vm_compute; eexists; reflexivity.
  - exists s'. split; [exact Hrun |]. split; [exact Hrs | exact Hint].
Defined.

Lemma failed_followup_is_not_stored_witness :
  exists s',
    Controller.continue_run settings0 new_id0 "Also update the docs"
      (speechless_controller, world0)
    = (inr (JDict [("error", JStr "no response left in the script")]), s') /\
    run_status_of (fst s') (snd s') = Some Controller.RunStatus.failed /\
    Controller.events (Controller.db (snd s'))
    = Controller.events (Controller.db (snd (snd speechless_followup))).
Proof.
  destruct (ControllerMore.failed_followup_is_not_stored
              settings0 new_id0 "Also update the docs" (speechless_controller, world0)
              (snd speechless_followup)
              (orchestrator_agent0 (scripted []) sandbox0 "https://github.com/acme/app" ""
                 (fun _ w => w) (fun _ _ _ _ => ret ""))
              (Raise RuntimeError "no response left in the script"))
    as (s' & Hrun & _ & Hrs & _ & Hev & _).
  - reflexivity.
  - apply result_and_state. vm_compute. reflexivity.
  - reflexivity.
  - split; vm_compute; eexists; reflexivity.
  - exists s'. split; [exact Hrun |]. split; [exact Hrs | exact Hev].
Defined.

End Evidence.
